(** * Position-change analysis of quarterly 13F holdings

    A shallow embedding of the comparison logic of
    [analyze_buys_sells_increases.py], [create_final_enhanced_master.py],
    [analyze_new_buys_sells.py] and of the row loader of [csv_analyzer.py].

    Conventions of the embedding:
    - a Python [dict] is an association list in insertion order with unique
      keys; assigning to an existing key keeps the key's place and replaces
      its value;
    - Python exceptions are values of [exn]; code that can raise lives in the
      [result] monad, and [try/except] is a match on the outcome;
    - the numeric cells of the comparison scripts are rationals: the
      rounding of binary floating point is idealised away;
    - strings are byte strings; [upper] and [strip] act on ASCII. *)

From Stdlib Require Import List String Ascii Bool Arith ZArith QArith Lia.
From Stdlib Require Import Sorted Permutation Lqa.
From Stdlib Require OrderedTypeEx.
Import ListNotations.

Local Open Scope string_scope.
Local Open Scope list_scope.

(** ** Outcomes of Python code *)

Inductive exn : Type :=
| KeyError
| ZeroDivisionError
| ValueError
| AttributeError.

Inductive result (A : Type) : Type :=
| Ok (a : A)
| Raise (e : exn).

Arguments Ok {A} a.
Arguments Raise {A} e.

Definition bind {A B : Type} (m : result A) (f : A -> result B) : result B :=
  match m with
  | Ok a => f a
  | Raise e => Raise e
  end.

Notation "x <- m ;; k" := (bind m (fun x => k))
  (at level 61, m at next level, right associativity).

(** [for x in xs: body], threading the variables the body assigns. *)
Fixpoint for_in {A S : Type} (xs : list A) (body : A -> S -> result S) (s : S)
  : result S :=
  match xs with
  | [] => Ok s
  | x :: xs' => s' <- body x s ;; for_in xs' body s'
  end.

(** ** Dictionaries *)

(** Keys are compared with [==]. *)
Class EqKey (K : Type) : Type := keqb : K -> K -> bool.

Class EqKeyLaws (K : Type) `{EqKey K} : Prop :=
  keqb_eq : forall a b : K, keqb a b = true <-> a = b.

#[export] Instance EqKey_string : EqKey string := String.eqb.

#[export] Instance EqKey_pair : EqKey (string * string) :=
  fun a b => String.eqb (fst a) (fst b) && String.eqb (snd a) (snd b).

Section Dict.
Context {K V : Type} `{EqKey K}.

Definition dict : Type := list (K * V).

(** [k in d] *)
Fixpoint dict_contains (k : K) (d : dict) : bool :=
  match d with
  | [] => false
  | (k', _) :: d' => if keqb k k' then true else dict_contains k d'
  end.

(** [d[k]] *)
Fixpoint dict_getitem (d : dict) (k : K) : result V :=
  match d with
  | [] => Raise KeyError
  | (k', v) :: d' => if keqb k k' then Ok v else dict_getitem d' k
  end.

(** [d[k] = v] *)
Fixpoint dict_setitem (k : K) (v : V) (d : dict) : dict :=
  match d with
  | [] => [(k, v)]
  | (k', v') :: d' =>
      if keqb k k' then (k', v) :: d' else (k', v') :: dict_setitem k v d'
  end.

(** iteration order of [for k in d] *)
Definition dict_keys (d : dict) : list K := map fst d.
End Dict.

Arguments dict K V : clear implicits.

(** ** The comparison of two quarters ([analyze_buys_sells_increases]) *)

Module Classifier.

(** The columns of the persisted holdings file that the comparison reads. *)
Record row : Type := mkRow {
  r_fund_name : string;
  r_company : string;
  r_ticker : string;
  r_shares : Q;
  r_value : Q;
  r_industry : string
}.

(** The dict stored per position key. *)
Record position : Type := mkPosition {
  value : Q;
  shares : Q;
  company : string;
  ticker : string;
  fund_name : string;
  industry : string
}.

(** A copy of a position with the four entries added for a change. *)
Record change : Type := mkChange {
  base : position;
  q4_value : Q;
  q1_value : Q;
  pct_change : Q;
  dollar_change : Q
}.

Definition position_of_row (r : row) : position :=
  {| value := r_value r;
     shares := r_shares r;
     company := r_company r;
     ticker := r_ticker r;
     fund_name := r_fund_name r;
     industry := r_industry r |}.

(** [f"{row['fund_name']}||{row['company']}"] *)
Definition create_position_key (r : row) : string :=
  r_fund_name r ++ "||" ++ r_company r.

(** The comparison keyed by the pair itself, for the refinement. *)
Definition pair_key (r : row) : string * string :=
  (r_fund_name r, r_company r).

(** [a / b] *)
Definition py_div (a b : Q) : result Q :=
  if Qeq_bool b 0 then Raise ZeroDivisionError else Ok (a / b)%Q.

(** [a > b] and [a < b] on numbers *)
Definition gtb (a b : Q) : bool := negb (Qle_bool a b).
Definition ltb (a b : Q) : bool := negb (Qle_bool b a).

Inductive index_error : Type := DuplicateKeyError.

Record analysis : Type := mkAnalysis {
  new_buys : list position;
  position_exits : list position;
  position_increases : list change;
  position_decreases : list change
}.

(** The script writes the key function and the two bounds, [0.5] and
    [-0.5], in place; here the key function and the threshold are
    parameters, fixed to the script's choices below. *)
Section Keyed.
Context {K : Type} `{EqKey K}.
Variable key_of : row -> K.
Variable threshold : Q.

(** The loops filling [q1_positions] and [q4_positions]. *)
Definition index_rows (df : list row) : dict K position :=
  fold_left
    (fun positions r => dict_setitem (key_of r) (position_of_row r) positions)
    df [].

(** The index as the specification words its first step: building it
    fails with [DuplicateKeyError] when a key occurs twice among the rows. *)
Fixpoint has_duplicate (ks : list K) : bool :=
  match ks with
  | [] => false
  | k :: ks' => existsb (keqb k) ks' || has_duplicate ks'
  end.

Definition checked_index (df : list row) : index_error + dict K position :=
  if has_duplicate (map key_of df) then inl DuplicateKeyError
  else inr (index_rows df).

(** The row that decides the entry of a key: the last one carrying it. *)
Definition last_row_of (k : K) (df : list row) : option row :=
  find (fun r => keqb k (key_of r)) (rev df).

Definition new_buys_pass (q1_positions q4_positions : dict K position)
  : result (list position) :=
  for_in (dict_keys q1_positions)
    (fun key new_buys =>
       if negb (dict_contains key q4_positions) then
         p <- dict_getitem q1_positions key ;;
         Ok (new_buys ++ [p])
       else Ok new_buys)
    [].

Definition exits_pass (q1_positions q4_positions : dict K position)
  : result (list position) :=
  for_in (dict_keys q4_positions)
    (fun key position_exits =>
       if negb (dict_contains key q1_positions) then
         p <- dict_getitem q4_positions key ;;
         Ok (position_exits ++ [p])
       else Ok position_exits)
    [].

Definition changes_body (q1_positions q4_positions : dict K position)
  (key : K) (acc : list change * list change)
  : result (list change * list change) :=
  let '(position_increases, position_decreases) := acc in
  if dict_contains key q4_positions then
    p1 <- dict_getitem q1_positions key ;;
    let q1_value := value p1 in
    p4 <- dict_getitem q4_positions key ;;
    let q4_value := value p4 in
    if gtb q4_value 0 then
      pct_change <- py_div (q1_value - q4_value) q4_value ;;
      if gtb pct_change threshold then
        increase_data <- dict_getitem q1_positions key ;;
        Ok (position_increases ++
              [ {| base := increase_data;
                   q4_value := q4_value;
                   q1_value := q1_value;
                   pct_change := pct_change;
                   dollar_change := q1_value - q4_value |} ],
            position_decreases)
      else if ltb pct_change (- threshold) then
        decrease_data <- dict_getitem q4_positions key ;;
        Ok (position_increases,
            position_decreases ++
              [ {| base := decrease_data;
                   q4_value := q4_value;
                   q1_value := q1_value;
                   pct_change := pct_change;
                   dollar_change := q1_value - q4_value |} ])
      else Ok acc
    else Ok acc
  else Ok acc.

Definition changes_pass (q1_positions q4_positions : dict K position)
  : result (list change * list change) :=
  for_in (dict_keys q1_positions)
    (changes_body q1_positions q4_positions) ([], []).

Definition analyze (q1_2025 q4_2024 : list row) : result analysis :=
  let q1_positions := index_rows q1_2025 in
  let q4_positions := index_rows q4_2024 in
  new_buys <- new_buys_pass q1_positions q4_positions ;;
  position_exits <- exits_pass q1_positions q4_positions ;;
  changes <- changes_pass q1_positions q4_positions ;;
  Ok {| new_buys := new_buys;
        position_exits := position_exits;
        position_increases := fst changes;
        position_decreases := snd changes |}.
End Keyed.

(** *** Reading the outcome

    An emitted dict carries the fund and company it was stored under, so
    its position key can be read back from it. *)

Definition row_of_position (p : position) : row :=
  {| r_fund_name := fund_name p;
     r_company := company p;
     r_ticker := ticker p;
     r_shares := shares p;
     r_value := value p;
     r_industry := industry p |}.

Inductive category : Type :=
| Opened
| Closed
| Increased
| Decreased
| Neither.

Section Outcome.
Context {K : Type}.
Variable key_of : row -> K.

Definition key_of_position (p : position) : K :=
  key_of (row_of_position p).

Definition opened_keys (a : analysis) : list K :=
  map key_of_position (new_buys a).
Definition closed_keys (a : analysis) : list K :=
  map key_of_position (position_exits a).
Definition increased_keys (a : analysis) : list K :=
  map (fun c => key_of_position (base c)) (position_increases a).
Definition decreased_keys (a : analysis) : list K :=
  map (fun c => key_of_position (base c)) (position_decreases a).

(** All emissions of a run, by key. *)
Definition emitted_keys (a : analysis) : list K :=
  opened_keys a ++ closed_keys a ++ increased_keys a ++ decreased_keys a.

(** The place of a key of the two snapshots: in one of the four lists, or,
    for a key of both snapshots, in none of them. *)
Definition assigned (q1_2025 q4_2024 : list row) (a : analysis) (k : K)
  (c : category) : Prop :=
  match c with
  | Opened => In k (opened_keys a)
  | Closed => In k (closed_keys a)
  | Increased => In k (increased_keys a)
  | Decreased => In k (decreased_keys a)
  | Neither =>
      In k (map key_of q1_2025) /\ In k (map key_of q4_2024) /\
      ~ In k (emitted_keys a)
  end.
End Outcome.

(** The comparison as the script runs it: string keys, 50% threshold. *)
Definition analyze_buys_sells_increases (q1_2025 q4_2024 : list row)
  : result analysis :=
  analyze create_position_key (1 # 2) q1_2025 q4_2024.

End Classifier.

(** ** The comparison of [create_final_enhanced_master.py]

    [perform_enhanced_position_changes_analysis] repeats the two membership
    passes and keeps only the increase branch of the third. *)

Module Enhanced.
Import Classifier.

Definition increases_body (q1_positions q4_positions : dict string position)
  (key : string) (position_increases : list change) : result (list change) :=
  if dict_contains key q4_positions then
    p1 <- dict_getitem q1_positions key ;;
    let q1_value := value p1 in
    p4 <- dict_getitem q4_positions key ;;
    let q4_value := value p4 in
    if gtb q4_value 0 then
      pct_change <- py_div (q1_value - q4_value) q4_value ;;
      if gtb pct_change (1 # 2) then
        increase_data <- dict_getitem q1_positions key ;;
        Ok (position_increases ++
              [ {| base := increase_data;
                   q4_value := q4_value;
                   q1_value := q1_value;
                   pct_change := pct_change;
                   dollar_change := q1_value - q4_value |} ])
      else Ok position_increases
    else Ok position_increases
  else Ok position_increases.

Definition increases_pass (q1_positions q4_positions : dict string position)
  : result (list change) :=
  for_in (dict_keys q1_positions)
    (increases_body q1_positions q4_positions) [].

Record changes : Type := mkChanges {
  e_new_buys : list position;
  e_position_exits : list position;
  e_position_increases : list change
}.

Definition position_changes (q1_2025 q4_2024 : list row) : result changes :=
  let q1_positions := index_rows create_position_key q1_2025 in
  let q4_positions := index_rows create_position_key q4_2024 in
  new_buys <- new_buys_pass q1_positions q4_positions ;;
  position_exits <- exits_pass q1_positions q4_positions ;;
  position_increases <- increases_pass q1_positions q4_positions ;;
  Ok {| e_new_buys := new_buys;
        e_position_exits := position_exits;
        e_position_increases := position_increases |}.
End Enhanced.

(** ** Per-company aggregates *)

Module Summary.
Import Classifier.

(** The dicts handed to the aggregation: a stored position, or a copy of
    one carrying the change entries. *)
Inductive pos_dict : Type :=
| Plain (p : position)
| Changed (c : change).

Definition pos_base (pos : pos_dict) : position :=
  match pos with
  | Plain p => p
  | Changed c => base c
  end.

(** ['pct_change' in pos] *)
Definition has_pct_change (pos : pos_dict) : bool :=
  match pos with
  | Plain _ => false
  | Changed _ => true
  end.

(** [pos.get('pct_change', 0)] and [pos.get('dollar_change', 0)] *)
Definition get_pct_change (pos : pos_dict) : Q :=
  match pos with
  | Plain _ => 0
  | Changed c => pct_change c
  end.

Definition get_dollar_change (pos : pos_dict) : Q :=
  match pos with
  | Plain _ => 0
  | Changed c => dollar_change c
  end.

(** [sum(...)] *)
Definition py_sum (xs : list Q) : Q := fold_left Qplus xs 0.

(** [len(...)] as a number *)
Definition len {A : Type} (xs : list A) : Q :=
  inject_Z (Z.of_nat (List.length xs)).

(** A stable sort into descending order: what [sort(reverse=True)] and
    [Counter.most_common] compute.  [lt a b] is [key(a) < key(b)]. *)
Section Sorting.
Context {A : Type}.
Variable lt : A -> A -> bool.

Fixpoint insert_desc (x : A) (l : list A) : list A :=
  match l with
  | [] => [x]
  | y :: l' => if lt x y then y :: insert_desc x l' else x :: l
  end.

Definition sort_desc (l : list A) : list A :=
  fold_right insert_desc [] l.

(** The ascending counterpart, for [sorted(funds)]. *)
Fixpoint insert_asc (x : A) (l : list A) : list A :=
  match l with
  | [] => [x]
  | y :: l' => if lt y x then y :: insert_asc x l' else x :: l
  end.

Definition sort_asc (l : list A) : list A :=
  fold_right insert_asc [] l.
End Sorting.

(** [Counter(pos['company'] for pos in positions)] *)
Fixpoint counter_incr (k : string) (c : dict string nat) : dict string nat :=
  match c with
  | [] => [(k, 1%nat)]
  | (k', n) :: c' =>
      if String.eqb k k' then (k', S n) :: c' else (k', n) :: counter_incr k c'
  end.

Definition Counter (positions : list pos_dict) : dict string nat :=
  fold_left (fun c pos => counter_incr (company (pos_base pos)) c)
    positions [].

(** [counter.most_common(n)] *)
Definition most_common (n : nat) (c : dict string nat) : list (string * nat) :=
  firstn n (sort_desc (fun a b => Nat.ltb (snd a) (snd b)) c).

(** *** [create_detailed_analysis] of [analyze_buys_sells_increases.py]

    Stated for positions whose company entries are texts; empty company
    cells are taken up in [Cells] below. *)

Record detail : Type := mkDetail {
  d_company : string;
  d_ticker : string;
  d_funds_count : nat;
  d_total_value : Q;
  d_avg_position_size : Q;
  d_industry : string;
  d_avg_pct_increase : option Q;
  d_total_dollar_increase : option Q
}.

Definition detail_of (positions : list pos_dict) (category_name : string)
  (entry : string * nat) : detail :=
  let '(company_name, count) := entry in
  let company_positions :=
    filter (fun pos => String.eqb (company (pos_base pos)) company_name)
      positions in
  let total_value := py_sum (map (fun pos => value (pos_base pos))
                               company_positions) in
  let avg_value :=
    match company_positions with
    | [] => 0
    | _ :: _ => total_value / len company_positions
    end in
  let with_increase :=
    String.eqb category_name "increases" &&
    match company_positions with
    | [] => false
    | sample_pos :: _ => has_pct_change sample_pos
    end in
  {| d_company := company_name;
     d_ticker := match company_positions with
                 | [] => ""
                 | sample_pos :: _ => ticker (pos_base sample_pos)
                 end;
     d_funds_count := count;
     d_total_value := total_value;
     d_avg_position_size := avg_value;
     d_industry := match company_positions with
                   | [] => ""
                   | sample_pos :: _ => industry (pos_base sample_pos)
                   end;
     d_avg_pct_increase :=
       if with_increase then
         Some (py_sum (map get_pct_change company_positions)
               / len company_positions)
       else None;
     d_total_dollar_increase :=
       if with_increase then
         Some (py_sum (map get_dollar_change company_positions))
       else None |}.

Definition create_detailed_analysis (positions : list pos_dict)
  (company_counter : dict string nat) (category_name : string) : list detail :=
  map (detail_of positions category_name) (most_common 30 company_counter).

(** *** [create_enhanced_summary] of [create_final_enhanced_master.py] *)

Record group : Type := mkGroup {
  funds : list string;
  positions : list pos_dict
}.

(** [company_to_funds[company]['funds'].append(fund)] and the same for
    ['positions'], on a [defaultdict]. *)
Fixpoint group_append (company_name : string) (fund : string) (pos : pos_dict)
  (d : dict string group) : dict string group :=
  match d with
  | [] => [(company_name, {| funds := [fund]; positions := [pos] |})]
  | (k, g) :: d' =>
      if String.eqb company_name k then
        (k, {| funds := funds g ++ [fund];
               positions := positions g ++ [pos] |}) :: d'
      else (k, g) :: group_append company_name fund pos d'
  end.

Record enhanced_detail : Type := mkEnhanced {
  company_name : string;
  ticker_symbol : string;
  funds_count : nat;
  fund_names : string;
  total_value : Q;
  avg_position_size : Q;
  industry_name : string;
  avg_pct_increase : option Q;
  total_dollar_increase : option Q
}.

Definition enhanced_detail_of (category_name : string)
  (item : string * group) : enhanced_detail :=
  let '(company, data) := item in
  let fund_count := List.length (funds data) in
  let total := py_sum (map (fun pos => value (pos_base pos))
                         (positions data)) in
  let with_increase :=
    String.eqb category_name "increases" &&
    existsb has_pct_change (positions data) in
  {| company_name := company;
     ticker_symbol := match positions data with
                      | [] => ""
                      | sample_pos :: _ => ticker (pos_base sample_pos)
                      end;
     funds_count := fund_count;
     fund_names := String.concat ", " (sort_asc String.ltb (funds data));
     total_value := total;
     avg_position_size :=
       if Nat.ltb 0 fund_count then total / len (funds data) else 0;
     industry_name := match positions data with
                      | [] => ""
                      | sample_pos :: _ => industry (pos_base sample_pos)
                      end;
     avg_pct_increase :=
       if with_increase then
         Some (py_sum (map get_pct_change (positions data))
               / len (positions data))
       else None;
     total_dollar_increase :=
       if with_increase then
         Some (py_sum (map get_dollar_change (positions data)))
       else None |}.

(** [lambda x: (x['funds_count'], x['total_value'])] *)
Definition sort_key (x : enhanced_detail) : nat * Q :=
  (funds_count x, total_value x).

(** [a < b] on such tuples: the first components that differ decide. *)
Definition tuple_lt (a b : nat * Q) : bool :=
  if Nat.eqb (fst a) (fst b) then ltb (snd a) (snd b)
  else Nat.ltb (fst a) (fst b).

Definition sort_key_lt (a b : enhanced_detail) : bool :=
  tuple_lt (sort_key a) (sort_key b).

Definition create_enhanced_summary (positions : list pos_dict)
  (category_name : string) : list enhanced_detail :=
  let company_to_funds :=
    fold_left
      (fun d pos =>
         group_append (company (pos_base pos)) (fund_name (pos_base pos)) pos d)
      positions [] in
  let detailed := map (enhanced_detail_of category_name) company_to_funds in
  firstn 25 (sort_desc sort_key_lt detailed).
(** *** The order the aggregates are claimed to have

    [(holder_count, total_value)] descending: more holders first, and among
    equal holder counts the larger total first. *)
Definition key_ge (a b : nat * Q) : Prop :=
  (fst b < fst a)%nat \/ (fst a = fst b /\ snd b <= snd a).

Definition detail_key (d : detail) : nat * Q :=
  (d_funds_count d, d_total_value d).
End Summary.

(** ** Python strings and [float] *)

Module PyStr.

Definition in_range (lo hi : nat) (c : ascii) : bool :=
  (lo <=? nat_of_ascii c)%nat && (nat_of_ascii c <=? hi)%nat.

(** The ASCII characters [str.isspace] accepts. *)
Definition is_space (c : ascii) : bool :=
  in_range 9 13 c || in_range 28 32 c.

Definition upper_ascii (c : ascii) : ascii :=
  if in_range 97 122 c then ascii_of_nat (nat_of_ascii c - 32) else c.

(** [s.upper()] *)
Fixpoint upper (s : string) : string :=
  match s with
  | EmptyString => EmptyString
  | String c s' => String (upper_ascii c) (upper s')
  end.

(** [s.replace(c, '')] for a one-character [c] *)
Fixpoint remove_char (c : ascii) (s : string) : string :=
  match s with
  | EmptyString => EmptyString
  | String c' s' =>
      if Ascii.eqb c' c then remove_char c s' else String c' (remove_char c s')
  end.

(** [c in s] for a one-character [c] *)
Fixpoint contains_char (c : ascii) (s : string) : bool :=
  match s with
  | EmptyString => false
  | String c' s' => Ascii.eqb c' c || contains_char c s'
  end.

Fixpoint lstrip (s : string) : string :=
  match s with
  | EmptyString => EmptyString
  | String c s' => if is_space c then lstrip s' else s
  end.

Fixpoint rstrip (s : string) : string :=
  match s with
  | EmptyString => EmptyString
  | String c s' =>
      match rstrip s' with
      | EmptyString => if is_space c then EmptyString else String c EmptyString
      | t => String c t
      end
  end.

(** [s.strip()] *)
Definition strip (s : string) : string := rstrip (lstrip s).

(** The values of a Python float: the finite ones as rationals. *)
Inductive pyfloat : Type :=
| Fin (q : Q)
| PosInf
| NegInf
| NaN.

(** [x * m] for a finite [m] *)
Definition fmul (x : pyfloat) (m : Q) : pyfloat :=
  match x with
  | Fin q => Fin (q * m)
  | PosInf =>
      if Qeq_bool m 0 then NaN else if Qle_bool 0 m then PosInf else NegInf
  | NegInf =>
      if Qeq_bool m 0 then NaN else if Qle_bool 0 m then NegInf else PosInf
  | NaN => NaN
  end.

(** [x > 0] *)
Definition gt0 (x : pyfloat) : bool :=
  match x with
  | Fin q => negb (Qle_bool q 0)
  | PosInf => true
  | NegInf | NaN => false
  end.

(** [pd.notna(x)] on a number *)
Definition notna (x : pyfloat) : bool :=
  match x with
  | NaN => false
  | _ => true
  end.

(** *** The grammar of [float(str)]

    [[sign] (digitpart ["." [digitpart]] | "." digitpart) [exponent]], or
    [inf], [infinity], [nan]; letters in either case, blanks around the
    literal ignored, single underscores allowed between digits. *)

Definition digit_of (c : ascii) : option Z :=
  if in_range 48 57 c then Some (Z.of_nat (nat_of_ascii c - 48)) else None.

(** The digits that follow a digit, and what is left. *)
Fixpoint digits_tail (s : string) : list Z * string :=
  match s with
  | EmptyString => ([], s)
  | String c s' =>
      match digit_of c with
      | Some d => let '(ds, r) := digits_tail s' in (d :: ds, r)
      | None =>
          if Ascii.eqb c "_" then
            match s' with
            | String c2 s'' =>
                match digit_of c2 with
                | Some d => let '(ds, r) := digits_tail s'' in (d :: ds, r)
                | None => ([], s)
                end
            | EmptyString => ([], s)
            end
          else ([], s)
      end
  end.

Definition digitpart (s : string) : option (list Z * string) :=
  match s with
  | EmptyString => None
  | String c s' =>
      match digit_of c with
      | Some d => let '(ds, r) := digits_tail s' in Some (d :: ds, r)
      | None => None
      end
  end.

Definition Z_of_digits (ds : list Z) : Z :=
  fold_left (fun a d => 10 * a + d)%Z ds 0%Z.

Definition parse_sign (s : string) : bool * string :=
  match s with
  | EmptyString => (false, s)
  | String c s' =>
      if Ascii.eqb c "-" then (true, s')
      else if Ascii.eqb c "+" then (false, s')
      else (false, s)
  end.

(** The exponent, which must end the literal. *)
Definition parse_exponent (s : string) : option Z :=
  match s with
  | EmptyString => Some 0%Z
  | String c s' =>
      if Ascii.eqb c "E" then
        let '(neg, r) := parse_sign s' in
        match digitpart r with
        | Some (ds, EmptyString) =>
            Some (if neg then - Z_of_digits ds else Z_of_digits ds)%Z
        | _ => None
        end
      else None
  end.

Definition decimal (ip fp : list Z) (e : Z) : Q :=
  inject_Z (Z_of_digits (ip ++ fp)) *
  Qpower (10 # 1) (e - Z.of_nat (List.length fp)).

(** What follows a ["."]: the fraction digits, if any, and the rest. *)
Definition fraction (s : string) : option (list Z * string) :=
  match s with
  | EmptyString => None
  | String c r1 => if Ascii.eqb c "." then Some
      match digitpart r1 with
      | Some (fp, r2) => (fp, r2)
      | None => ([], r1)
      end
    else None
  end.

Definition parse_number (s : string) : option Q :=
  match digitpart s with
  | Some (ip, r) =>
      let '(fp, r') :=
        match fraction r with
        | Some (fp, r2) => (fp, r2)
        | None => ([], r)
        end in
      match parse_exponent r' with
      | Some e => Some (decimal ip fp e)
      | None => None
      end
  | None =>
      match fraction s with
      | Some (d :: fp, r2) =>
          match parse_exponent r2 with
          | Some e => Some (decimal [] (d :: fp) e)
          | None => None
          end
      | _ => None
      end
  end.

(** [float(s)]; [None] stands for the [ValueError]. *)
Definition py_float (s : string) : option pyfloat :=
  let '(neg, body) := parse_sign (upper (strip s)) in
  if String.eqb body "INF" || String.eqb body "INFINITY" then
    Some (if neg then NegInf else PosInf)
  else if String.eqb body "NAN" then Some NaN
  else
    match parse_number body with
    | Some q => Some (Fin (if neg then - q else q))
    | None => None
    end.

End PyStr.

(** ** The row loader ([CSV13FAnalyzer.parse_csv_file]) *)

Module Loader.
Import PyStr.

(** What a cell of the data frame holds: text, or a number ([NaN] where
    the file has nothing). *)
Inductive cell : Type :=
| CStr (s : string)
| CNum (x : pyfloat).

(** The four [row.get(matched_columns.get(field, ''), default)] of a row:
    a column that was not matched yields the default, [''] or [0]. *)
Record raw_row : Type := mkRaw {
  company_cell : cell;
  ticker_cell : cell;
  value_cell : cell;
  shares_cell : cell
}.

Record holding : Type := mkHolding {
  h_fund_name : string;
  h_company : string;
  h_ticker : string;
  h_shares : pyfloat;
  h_value : pyfloat
}.

(** [x.strip()]: numbers have no such method. *)
Definition cell_strip (x : cell) : result string :=
  match x with
  | CStr s => Ok (strip s)
  | CNum _ => Raise AttributeError
  end.

(** [try: float(s) * multiplier  except: 0] *)
Definition float_or_zero (s : string) (multiplier : Q) : pyfloat :=
  match py_float s with
  | Some x => fmul x multiplier
  | None => Fin 0
  end.

(** The branches on the thousands notation: the text handed to [float]
    and the multiplier. *)
Definition scaled (value_raw : string) : string * Q :=
  if contains_char "K" (upper value_raw) then
    (remove_char "K" (upper value_raw), 1000)
  else if contains_char "M" (upper value_raw) then
    (remove_char "M" (upper value_raw), 1000000)
  else if contains_char "B" (upper value_raw) then
    (remove_char "B" (upper value_raw), 1000000000)
  else (value_raw, 1).

(** The four [replace] calls. *)
Definition strip_symbols (s : string) : string :=
  remove_char ")" (remove_char "(" (remove_char "," (remove_char "$" s))).

(** The block "Handle value field". *)
Definition parse_value (value_raw : cell) : pyfloat :=
  match value_raw with
  | CStr s =>
      let '(value_raw, multiplier) := scaled (strip_symbols s) in
      float_or_zero value_raw multiplier
  | CNum x => if notna x then x else Fin 0
  end.

(** The block "Handle shares". *)
Definition parse_shares (shares_raw : cell) : pyfloat :=
  match shares_raw with
  | CStr s =>
      match py_float (remove_char "," s) with
      | Some x => x
      | None => Fin 0
      end
  | CNum x => if notna x then x else Fin 0
  end.

(** The truth value of a string. *)
Definition nonempty (s : string) : bool := negb (String.eqb s "").

(** The body of the per-row [try]: the holding to append, if any. *)
Definition process_row (fund_name : string) (r : raw_row)
  : result (option holding) :=
  company <- cell_strip (company_cell r) ;;
  ticker <- cell_strip (ticker_cell r) ;;
  let value := parse_value (value_cell r) in
  let shares := parse_shares (shares_cell r) in
  if nonempty company && (gt0 value || gt0 shares) then
    Ok (Some {| h_fund_name := fund_name;
                h_company := company;
                h_ticker := ticker;
                h_shares := shares;
                h_value := value |})
  else Ok None.

(** One turn of the loop over the rows, with its [except: continue]. *)
Definition row_step (fund_name : string) (st : list holding * nat)
  (r : raw_row) : list holding * nat :=
  let '(holdings_data, holdings_count) := st in
  match process_row fund_name r with
  | Ok (Some h) => (holdings_data ++ [h], S holdings_count)
  | Ok None => st
  | Raise _ => st
  end.

(** The loop of [parse_csv_file]: the grown [self.holdings_data] and the
    returned [holdings_count]. *)
Definition parse_rows (fund_name : string) (df : list raw_row)
  (holdings_data : list holding) : list holding * nat :=
  fold_left (row_step fund_name) df (holdings_data, 0%nat).

(** *** The acceptance predicate as the specification words it

    A non-empty instrument identifier, and a quantity or a market value
    above zero. *)
Definition spec_accepts (r : raw_row) : bool :=
  match company_cell r with
  | CStr s => nonempty (strip s)
  | CNum _ => false
  end
  && (gt0 (parse_shares (shares_cell r)) || gt0 (parse_value (value_cell r))).

(** A numeric field that cannot be interpreted: text that [float]
    rejects. *)
Definition unreadable_value (r : raw_row) : bool :=
  match value_cell r with
  | CStr s =>
      match py_float (fst (scaled (strip_symbols s))) with
      | Some _ => false
      | None => true
      end
  | CNum _ => false
  end.

(** What a row adds to [self.holdings_data]. *)
Definition kept_of (fund_name : string) (r : raw_row) : list holding :=
  match process_row fund_name r with
  | Ok (Some h) => [h]
  | Ok None => []
  | Raise _ => []
  end.
End Loader.

(** ** Splitting a key back ([analyze_new_buys_sells]) *)

Module NewBuysSells.

(** Whether ["||"] occurs in [s]. *)
Fixpoint has_sep (s : string) : bool :=
  match s with
  | EmptyString => false
  | String c rest =>
      match rest with
      | String c2 _ => Ascii.eqb c "|" && Ascii.eqb c2 "|" || has_sep rest
      | EmptyString => false
      end
  end.

(** Whether [s] ends with ["|"]. *)
Fixpoint ends_bar (s : string) : bool :=
  match s with
  | EmptyString => false
  | String c rest =>
      match rest with
      | EmptyString => Ascii.eqb c "|"
      | String _ _ => ends_bar rest
      end
  end.

(** [s.split('||')], with the piece read so far in [cur]. *)
Fixpoint split_bars (s : string) (cur : string) : list string :=
  match s with
  | EmptyString => [cur]
  | String c rest =>
      match rest with
      | String c2 rest2 =>
          if Ascii.eqb c "|" && Ascii.eqb c2 "|"
          then cur :: split_bars rest2 EmptyString
          else split_bars rest (cur ++ String c EmptyString)
      | EmptyString => split_bars rest (cur ++ String c EmptyString)
      end
  end.

(** [fund_name, company = position_key.split('||')] *)
Definition split_position_key (position_key : string)
  : result (string * string) :=
  match split_bars position_key EmptyString with
  | [fund_name; company] => Ok (fund_name, company)
  | _ => Raise ValueError
  end.

End NewBuysSells.

(** ** What the scripts hand to their reports *)

Module Reports.
Import Classifier Summary.

(** The aggregates of [analyze_buys_sells_increases], each list counted
    with [Counter(pos['company'] for pos in ...)] over itself. *)
Definition detailed (positions : list pos_dict) (category_name : string)
  : list detail :=
  create_detailed_analysis positions (Counter positions) category_name.

(** The value [perform_enhanced_position_changes_analysis] returns. *)
Record enhanced_report : Type := mkEnhancedReport {
  new_buys_summary : list enhanced_detail;
  increases_summary : list enhanced_detail;
  exits_summary : list enhanced_detail
}.

Definition enhanced_position_changes (q1_2025 q4_2024 : list row)
  : result enhanced_report :=
  e <- Enhanced.position_changes q1_2025 q4_2024 ;;
  Ok {| new_buys_summary :=
          create_enhanced_summary (map Plain (Enhanced.e_new_buys e)) "new_buys";
        increases_summary :=
          create_enhanced_summary
            (map Changed (Enhanced.e_position_increases e)) "increases";
        exits_summary :=
          create_enhanced_summary
            (map Plain (Enhanced.e_position_exits e)) "exits" |}.

(** The figures of [create_executive_summary]:
    [len([b for b in ... if b['funds_count'] > 0])] and
    [sum(b['total_value'] for b in ...)]. *)
Definition enhanced_count_with_funds (details : list enhanced_detail) : nat :=
  List.length (filter (fun b => Nat.ltb 0 (funds_count b)) details).

Definition enhanced_total_value_of (details : list enhanced_detail) : Q :=
  py_sum (map total_value details).

End Reports.

(** ** From a data frame to the rows of the loader
       ([CSV13FAnalyzer.parse_csv_file], [process_all_csv_files]) *)

Module Frame.
Import PyStr Loader.

Definition lower_ascii (c : ascii) : ascii :=
  if in_range 65 90 c then ascii_of_nat (nat_of_ascii c + 32) else c.

(** [s.lower()] *)
Fixpoint lower (s : string) : string :=
  match s with
  | EmptyString => EmptyString
  | String c s' => String (lower_ascii c) (lower s')
  end.

(** The table [column_mappings], in its order. *)
Definition column_mappings : dict string (list string) :=
  [ ("company", ["company"; "issuer"; "issuer name"; "security name"; "name"]);
    ("ticker", ["ticker"; "symbol"; "sym"; "stock symbol"; "security symbol"]);
    ("shares", ["shares"; "quantity"; "shares held"; "position"; "shares owned"]);
    ("value", ["value"; "market value"; "fair value"; "position value";
               "market cap"; "value ($000)"; "value (000s)"]);
    ("weight", ["weight"; "percent"; "%"; "portfolio %"; "% of portfolio";
                "allocation"]) ].

(** [x in l] on a list of strings *)
Definition list_contains (x : string) (l : list string) : bool :=
  existsb (String.eqb x) l.

(** [l.index(x)], called only where [x in l] *)
Fixpoint list_index (x : string) (l : list string) : nat :=
  match l with
  | [] => 0%nat
  | y :: l' => if String.eqb x y then 0%nat else S (list_index x l')
  end.

(** The inner loop over the possible names of a field: the column of the
    first name that some column carries, in any case. *)
Fixpoint first_match (columns possible_names : list string) : option string :=
  match possible_names with
  | [] => None
  | possible_name :: rest =>
      let df_columns_lower := map lower columns in
      if list_contains (lower possible_name) df_columns_lower then
        Some (nth (list_index (lower possible_name) df_columns_lower)
                columns EmptyString)
      else first_match columns rest
  end.

(** The loop "Find matching columns". *)
Definition match_columns (columns : list string) : dict string string :=
  fold_left
    (fun matched_columns entry =>
       match first_match columns (snd entry) with
       | Some actual_column => dict_setitem (fst entry) actual_column matched_columns
       | None => matched_columns
       end)
    column_mappings [].

(** [matched_columns.get(field, '')] *)
Definition matched_get (matched_columns : dict string string) (field : string)
  : string :=
  match dict_getitem matched_columns field with
  | Ok column => column
  | Raise _ => EmptyString
  end.

(** [row.get(label, default)] on a row whose cells stand under the
    columns of the frame. *)
Definition series_get (columns : list string) (cells : list cell)
  (label : string) (default : cell) : cell :=
  if list_contains label columns
  then nth (list_index label columns) cells default
  else default.

(** The four reads at the head of the per-row [try]. *)
Definition raw_row_of (columns : list string)
  (matched_columns : dict string string) (cells : list cell) : raw_row :=
  {| company_cell :=
       series_get columns cells (matched_get matched_columns "company")
         (CStr EmptyString);
     ticker_cell :=
       series_get columns cells (matched_get matched_columns "ticker")
         (CStr EmptyString);
     value_cell :=
       series_get columns cells (matched_get matched_columns "value")
         (CNum (Fin 0));
     shares_cell :=
       series_get columns cells (matched_get matched_columns "shares")
         (CNum (Fin 0)) |}.

(** A frame as read from a file: its columns and, row by row, its cells. *)
Record frame : Type := mkFrame {
  columns : list string;
  rows : list (list cell)
}.

(** [parse_csv_file] once the file is read: the grown [holdings_data] and
    the returned count. *)
Definition parse_frame (fund_name : string) (df : frame)
  (holdings_data : list holding) : list holding * nat :=
  parse_rows fund_name
    (map (raw_row_of (columns df) (match_columns (columns df))) (rows df))
    holdings_data.

(** [parse_csv_file]: a file that cannot be read, or whose header cannot
    be matched, ends in the outer [except] and counts 0. *)
Definition parse_csv_file (file : string * option frame)
  (holdings_data : list holding) : list holding * nat :=
  match snd file with
  | Some df => parse_frame (fst file) df holdings_data
  | None => (holdings_data, 0%nat)
  end.

(** [process_all_csv_files] on a fresh analyzer: the holdings, the total
    it prints, and the value it returns. *)
Definition process_all_csv_files (csv_files : list (string * option frame))
  : list holding * nat * bool :=
  match csv_files with
  | [] => ([], 0%nat, false)
  | _ :: _ =>
      let '(holdings_data, total_processed) :=
        fold_left
          (fun st csv_file =>
             let '(holdings_data, total_processed) := st in
             let '(holdings_data, processed) :=
               parse_csv_file csv_file holdings_data in
             (holdings_data, (total_processed + processed)%nat))
          csv_files ([], 0%nat) in
      (holdings_data, total_processed, Nat.ltb 0 (List.length holdings_data))
  end.

End Frame.

(** ** The sets of keys of [analyze_new_buys_sells] *)

Module KeySets.
Import Classifier.

(** [set(df.apply(create_position_key, axis=1))] for a frame with at least
    one row; what [apply] returns on a frame without rows depends on the
    pandas version and is not modelled.  A set of keys is held as a list
    without repetition; the order of that list stands for nothing, only
    membership and size are read off it. *)
Definition key_set (df : list row) : list string :=
  nodup string_dec (map create_position_key df).

(** [a - b] *)
Definition set_minus (a b : list string) : list string :=
  filter (fun k => negb (existsb (String.eqb k) b)) a.

(** [new_buys = q1_positions - q4_positions] and
    [new_sells = q4_positions - q1_positions] *)
Definition new_buys_set (q1_2025 q4_2024 : list row) : list string :=
  set_minus (key_set q1_2025) (key_set q4_2024).

Definition new_sells_set (q1_2025 q4_2024 : list row) : list string :=
  set_minus (key_set q4_2024) (key_set q1_2025).

End KeySets.

(** ** [perform_enhanced_overall_analysis] of [create_final_enhanced_master.py] *)

Module Overall.
Import Classifier Summary.

(** [f"{holding['company']} ({holding['ticker']})" if holding['ticker']
    else holding['company']] *)
Definition company_key (holding : row) : string :=
  if String.eqb (r_ticker holding) "" then r_company holding
  else r_company holding ++ " (" ++ r_ticker holding ++ ")".

(** The dict appended to ['positions']. *)
Record sample : Type := mkSample {
  s_fund : string;
  s_value : Q;
  s_shares : Q;
  s_ticker : string;
  s_industry : string
}.

Definition sample_of (holding : row) : sample :=
  {| s_fund := r_fund_name holding;
     s_value := r_value holding;
     s_shares := r_shares holding;
     s_ticker := r_ticker holding;
     s_industry := r_industry holding |}.

(** The value of the [defaultdict]: ['funds'] is a set, held as a list
    without repetition of which only membership and size are read before
    it is sorted. *)
Record company_data : Type := mkData {
  c_funds : list string;
  c_total_value : Q;
  c_positions : list sample
}.

(** [lambda: {'funds': set(), 'total_value': 0, 'positions': []}] *)
Definition fresh : company_data :=
  {| c_funds := []; c_total_value := 0; c_positions := [] |}.

(** [s.add(x)] *)
Definition set_add (x : string) (s : list string) : list string :=
  if existsb (String.eqb x) s then s else s ++ [x].

(** The three updates of the loop body on one entry. *)
Definition updated (holding : row) (data : company_data) : company_data :=
  {| c_funds := set_add (r_fund_name holding) (c_funds data);
     c_total_value := c_total_value data + r_value holding;
     c_positions := c_positions data ++ [sample_of holding] |}.

Fixpoint add_holding (holding : row) (d : dict string company_data)
  : dict string company_data :=
  match d with
  | [] => [(company_key holding, updated holding fresh)]
  | (k, data) :: d' =>
      if String.eqb (company_key holding) k then (k, updated holding data) :: d'
      else (k, data) :: add_holding holding d'
  end.

Definition company_to_funds (df : list row) : dict string company_data :=
  fold_left (fun d holding => add_holding holding d) df [].

Record frequent : Type := mkFrequent {
  f_company : string;
  f_ticker : string;
  f_fund_count : nat;
  f_fund_list : list string;
  f_fund_names : string;
  f_total_value : Q;
  f_avg_position_size : Q;
  f_industry : string
}.

Definition frequent_of (item : string * company_data) : frequent :=
  let '(company, data) := item in
  let fund_count := List.length (c_funds data) in
  let fund_list := sort_asc String.ltb (c_funds data) in
  {| f_company := company;
     f_ticker := match c_positions data with
                 | [] => ""
                 | sample_position :: _ => s_ticker sample_position
                 end;
     f_fund_count := fund_count;
     f_fund_list := fund_list;
     f_fund_names := String.concat ", " fund_list;
     f_total_value := c_total_value data;
     f_avg_position_size :=
       if Nat.ltb 0 fund_count then c_total_value data / len (c_funds data)
       else 0;
     f_industry := match c_positions data with
                   | [] => ""
                   | sample_position :: _ => s_industry sample_position
                   end |}.

(** [lambda x: (x['fund_count'], x['total_value'])] *)
Definition frequent_key (x : frequent) : nat * Q :=
  (f_fund_count x, f_total_value x).

Definition frequent_lt (a b : frequent) : bool :=
  tuple_lt (frequent_key a) (frequent_key b).

(** [lambda x: x['total_value']] *)
Definition value_lt (a b : frequent) : bool :=
  ltb (f_total_value a) (f_total_value b).

(** [a / b] with the total of a pandas column as [b], a numpy number: a
    zero divisor gives a warning and a value that is not finite instead
    of an exception.  [None] stands for such a value; multiplied by 100
    or by a fund count, which is at least one, it stays one. *)
Definition np_div (a b : Q) : option Q :=
  if Qeq_bool b 0 then None else Some (a / b).

(** An entry of ['weight_analysis']: the fields of the holding and the
    two figures added. *)
Record weighted : Type := mkWeighted {
  w_holding : frequent;
  w_weight_percent : option Q;
  w_consensus_score : option Q
}.

Definition weighted_of (total_value_all : Q) (holding : frequent) : weighted :=
  let weight_percent :=
    option_map (fun q => q * 100) (np_div (f_total_value holding) total_value_all) in
  {| w_holding := holding;
     w_weight_percent := weight_percent;
     w_consensus_score :=
       option_map (fun w => w * inject_Z (Z.of_nat (f_fund_count holding)))
         weight_percent |}.

Record overall : Type := mkOverall {
  o_top_frequent : list frequent;
  o_top_values : list frequent;
  o_weight_analysis : list weighted;
  o_total_value : Q
}.

(** [total_value_all] is [df['value'].sum()]: the sum of the column as
    long as it stays below 2^63; beyond that a column of integers wraps
    around, which is not modelled.  The facts about the weights are stated
    below that bound; the lists and their order do not read the total. *)
Definition perform_enhanced_overall_analysis (df : list row) : overall :=
  let frequent_holdings :=
    sort_desc frequent_lt (map frequent_of (company_to_funds df)) in
  let value_holdings := firstn 25 (sort_desc value_lt frequent_holdings) in
  let total_value_all := py_sum (map r_value df) in
  {| o_top_frequent := firstn 25 frequent_holdings;
     o_top_values := value_holdings;
     o_weight_analysis := map (weighted_of total_value_all) value_holdings;
     o_total_value := total_value_all |}.

End Overall.

(** ** [perform_overall_analysis] of [create_master_analysis.py] *)

Module Master.
Import Classifier Summary Overall.

(** [stock_frequency[key] += 1] for every row, with the key of
    [company_key]: the same formatted string. *)
Definition stock_frequency (df : list row) : dict string nat :=
  fold_left (fun c holding => counter_incr (company_key holding) c) df [].

(** [value_totals[key] += v] on a [defaultdict(float)] *)
Fixpoint add_value (key : string) (v : Q) (d : dict string Q) : dict string Q :=
  match d with
  | [] => [(key, 0 + v)]
  | (k, t) :: d' =>
      if String.eqb key k then (k, t + v) :: d' else (k, t) :: add_value key v d'
  end.

Definition value_totals (df : list row) : dict string Q :=
  fold_left
    (fun d holding => add_value (company_key holding) (r_value holding) d)
    df [].

Record overall_analysis : Type := mkAnalysis {
  m_top_frequent : list (string * nat);
  m_top_values : list (string * Q);
  m_weight_analysis : list (string * option Q * Q);
  m_stock_frequency : dict string nat;
  m_total_value : Q
}.

(** [total_value_all] as in the enhanced workbook: the sum of the column
    below 2^63. *)
Definition perform_overall_analysis (df : list row) : overall_analysis :=
  let top_values :=
    firstn 25 (sort_desc (fun a b => ltb (snd a) (snd b)) (value_totals df)) in
  let total_value_all := py_sum (map r_value df) in
  {| m_top_frequent := most_common 25 (stock_frequency df);
     m_top_values := top_values;
     m_weight_analysis :=
       map (fun '(stock, total_value) =>
              (stock,
               option_map (fun q => q * 100) (np_div total_value total_value_all),
               total_value))
         top_values;
     m_stock_frequency := stock_frequency df;
     m_total_value := total_value_all |}.

End Master.

(** ** [create_detailed_analysis] on company cells that may be empty

    A holdings file is written with an empty company cell where the data
    source gave no name, and read back such a cell is the float NaN, not a
    text.  The comparison above is stated for rows whose company cells are
    texts; here the aggregation of [analyze_buys_sells_increases.py] is
    taken up again for position dicts whose company entry may be NaN, and
    with the [KeyError] of an entry that is not there. *)

Module Cells.
Import Classifier Summary.

(** A company entry: a text, or a NaN object.  [object] tells NaN
    objects apart; cells read from one file may well share one. *)
Inductive label : Type :=
| Text (s : string)
| NaN (object : nat).

(** [a == b]: NaN is equal to nothing, itself included. *)
Definition label_eqb (a b : label) : bool :=
  match a, b with
  | Text x, Text y => String.eqb x y
  | _, _ => false
  end.

(** The test of a dict or [Counter] lookup: [a is b or a == b]. *)
Definition same_key (a b : label) : bool :=
  match a, b with
  | Text x, Text y => String.eqb x y
  | NaN i, NaN j => Nat.eqb i j
  | _, _ => false
  end.

(** A position dict: its company entry and its other entries.  The
    company field of [l_entries] is not read. *)
Record labelled : Type := mkLabelled {
  l_company : label;
  l_entries : pos_dict
}.

(** A position dict whose company entry is the text it was stored with. *)
Definition of_text (pos : pos_dict) : labelled :=
  {| l_company := Text (company (pos_base pos)); l_entries := pos |}.

(** [pos['pct_change']] and [pos['dollar_change']] *)
Definition pct_change_of (pos : pos_dict) : result Q :=
  match pos with
  | Plain _ => Raise KeyError
  | Changed c => Ok (pct_change c)
  end.

Definition dollar_change_of (pos : pos_dict) : result Q :=
  match pos with
  | Plain _ => Raise KeyError
  | Changed c => Ok (dollar_change c)
  end.

(** [sum(f(pos) for pos in xs)] where [f(pos)] may raise *)
Definition sum_of {A : Type} (f : A -> result Q) (xs : list A) : result Q :=
  for_in xs (fun x acc => v <- f x ;; Ok (acc + v)) 0.

(** [Counter(pos['company'] for pos in positions)] *)
Fixpoint counter_incr (k : label) (c : dict label nat) : dict label nat :=
  match c with
  | [] => [(k, 1%nat)]
  | (k', n) :: c' =>
      if same_key k k' then (k', S n) :: c' else (k', n) :: counter_incr k c'
  end.

Definition Counter (positions : list labelled) : dict label nat :=
  fold_left (fun c pos => counter_incr (l_company pos) c) positions [].

(** [counter.most_common(n)] *)
Definition most_common (n : nat) (c : dict label nat) : list (label * nat) :=
  firstn n (sort_desc (fun a b => Nat.ltb (snd a) (snd b)) c).

Record aggregate : Type := mkAggregate {
  a_company : label;
  a_ticker : string;
  a_funds_count : nat;
  a_total_value : Q;
  a_avg_position_size : Q;
  a_industry : string;
  a_avg_pct_increase : option Q;
  a_total_dollar_increase : option Q
}.

(** The body of the loop over [company_counter.most_common(30)]. *)
Definition aggregate_of (positions : list labelled) (category_name : string)
  (entry : label * nat) : result aggregate :=
  let '(company_name, count) := entry in
  let company_positions :=
    filter (fun pos => label_eqb (l_company pos) company_name) positions in
  let total_value := py_sum (map (fun pos => value (pos_base (l_entries pos)))
                               company_positions) in
  let avg_value :=
    match company_positions with
    | [] => 0
    | _ :: _ => total_value / len company_positions
    end in
  let ticker :=
    match company_positions with
    | [] => ""
    | sample_pos :: _ => ticker (pos_base (l_entries sample_pos))
    end in
  let industry :=
    match company_positions with
    | [] => ""
    | sample_pos :: _ => industry (pos_base (l_entries sample_pos))
    end in
  if String.eqb category_name "increases" &&
     match company_positions with
     | [] => false
     | sample_pos :: _ => has_pct_change (l_entries sample_pos)
     end
  then
    pct_total <- sum_of (fun pos => pct_change_of (l_entries pos))
                   company_positions ;;
    total_dollar_change <- sum_of (fun pos => dollar_change_of (l_entries pos))
                             company_positions ;;
    Ok {| a_company := company_name;
          a_ticker := ticker;
          a_funds_count := count;
          a_total_value := total_value;
          a_avg_position_size := avg_value;
          a_industry := industry;
          a_avg_pct_increase := Some (pct_total / len company_positions);
          a_total_dollar_increase := Some total_dollar_change |}
  else
    Ok {| a_company := company_name;
          a_ticker := ticker;
          a_funds_count := count;
          a_total_value := total_value;
          a_avg_position_size := avg_value;
          a_industry := industry;
          a_avg_pct_increase := None;
          a_total_dollar_increase := None |}.

Definition create_detailed_analysis (positions : list labelled)
  (company_counter : dict label nat) (category_name : string)
  : result (list aggregate) :=
  for_in (most_common 30 company_counter)
    (fun entry detailed =>
       detail <- aggregate_of positions category_name entry ;;
       Ok (detailed ++ [detail]))
    [].

(** Each list is counted with [Counter] over itself. *)
Definition detailed (positions : list labelled) (category_name : string)
  : result (list aggregate) :=
  create_detailed_analysis positions (Counter positions) category_name.

(** The figures of the summary sheet of [create_comprehensive_excel]:
    [len([b for b in new_buys if b['funds_count'] > 0])] and
    [sum(b['total_value'] for b in new_buys)]. *)
Definition count_with_funds (details : list aggregate) : nat :=
  List.length (filter (fun b => Nat.ltb 0 (a_funds_count b)) details).

Definition total_value_of (details : list aggregate) : Q :=
  py_sum (map a_total_value details).

End Cells.

(** * Facts *)

(** ** Loops and dictionaries *)

Section LoopFacts.
Context {A B : Type}.

(** A loop whose body only appends is a [flat_map]. *)
Lemma for_in_append (f : A -> list B) (body : A -> list B -> result (list B))
  (xs : list A) :
  (forall x acc, In x xs -> body x acc = Ok (acc ++ f x)) ->
  forall acc, for_in xs body acc = Ok (acc ++ flat_map f xs).
Proof.
  induction xs as [|x xs IH]; intros Hbody acc; simpl.
  - now rewrite app_nil_r.
  - rewrite Hbody by now left. simpl.
    rewrite IH by (intros; apply Hbody; now right).
    now rewrite app_assoc.
Qed.

Lemma for_in_append2 {C : Type} (f : A -> list B) (g : A -> list C)
  (body : A -> list B * list C -> result (list B * list C)) (xs : list A) :
  (forall x a b, In x xs -> body x (a, b) = Ok (a ++ f x, b ++ g x)) ->
  forall a b,
    for_in xs body (a, b) = Ok (a ++ flat_map f xs, b ++ flat_map g xs).
Proof.
  induction xs as [|x xs IH]; intros Hbody a b; simpl.
  - now rewrite !app_nil_r.
  - rewrite Hbody by now left. simpl.
    rewrite IH by (intros; apply Hbody; now right).
    now rewrite !app_assoc.
Qed.
End LoopFacts.

#[export] Instance EqKeyLaws_string : EqKeyLaws string := String.eqb_eq.

#[export] Instance EqKeyLaws_pair : EqKeyLaws (string * string).
Proof.
  intros [a1 a2] [b1 b2]. unfold keqb, EqKey_pair. simpl.
  rewrite andb_true_iff, !String.eqb_eq. split.
  - intros [-> ->]. reflexivity.
  - intros Heq. inversion Heq. auto.
Qed.

Section DictFacts.
Context {K V : Type} `{EqKeyLaws K}.
Implicit Types (d : dict K V) (k : K) (v : V).

Lemma keqb_refl k : keqb k k = true.
Proof. now apply keqb_eq. Qed.

Lemma keqb_neq k k' : k <> k' -> keqb k k' = false.
Proof.
  intros Hne. destruct (keqb k k') eqn:E; [|reflexivity].
  apply keqb_eq in E. contradiction.
Qed.

Lemma keqb_false k k' : keqb k k' = false -> k <> k'.
Proof.
  intros E ->. rewrite keqb_refl in E. discriminate.
Qed.

Lemma dict_contains_In k d :
  dict_contains k d = true <-> In k (dict_keys d).
Proof.
  induction d as [|[k' v'] d IH]; simpl.
  - split; [discriminate | tauto].
  - destruct (keqb k k') eqn:E.
    + apply keqb_eq in E. subst. tauto.
    + apply keqb_false in E. rewrite IH. split; [tauto|].
      intros [Heq|Hin]; [congruence | assumption].
Qed.

Lemma dict_contains_false k d :
  dict_contains k d = false <-> ~ In k (dict_keys d).
Proof.
  rewrite <- dict_contains_In. destruct (dict_contains k d); split;
    congruence.
Qed.

Lemma dict_getitem_In d k v : dict_getitem d k = Ok v -> In (k, v) d.
Proof.
  induction d as [|[k' v'] d IH]; simpl; [discriminate|].
  destruct (keqb k k') eqn:E.
  - apply keqb_eq in E. subst. intros [= ->]. now left.
  - intros Hg. right. now apply IH.
Qed.

Lemma dict_getitem_contains d k v :
  dict_getitem d k = Ok v -> dict_contains k d = true.
Proof.
  intros Hg. apply dict_contains_In. apply dict_getitem_In in Hg.
  unfold dict_keys. now apply (in_map fst) in Hg.
Qed.

Lemma dict_contains_getitem d k :
  dict_contains k d = true -> exists v, dict_getitem d k = Ok v.
Proof.
  induction d as [|[k' v'] d IH]; simpl; [discriminate|].
  destruct (keqb k k'); eauto.
Qed.

Lemma dict_getitem_absent d k :
  dict_contains k d = false -> dict_getitem d k = Raise KeyError.
Proof.
  induction d as [|[k' v'] d IH]; simpl; [reflexivity|].
  destruct (keqb k k'); [discriminate | assumption].
Qed.

Lemma dict_getitem_NoDup d k v :
  NoDup (dict_keys d) -> In (k, v) d -> dict_getitem d k = Ok v.
Proof.
  induction d as [|[k' v'] d IH]; simpl; [tauto|].
  intros Hnd [Heq|Hin].
  - injection Heq as -> ->. now rewrite keqb_refl.
  - inversion Hnd as [|? ? Hnotin Hnd']; subst.
    rewrite keqb_neq; [now apply IH|].
    intros ->. apply Hnotin. unfold dict_keys.
    now apply (in_map fst) in Hin.
Qed.

Lemma dict_keys_setitem k v d :
  dict_keys (dict_setitem k v d) =
  if dict_contains k d then dict_keys d else dict_keys d ++ [k].
Proof.
  induction d as [|[k' v'] d IH]; simpl; [reflexivity|].
  destruct (keqb k k') eqn:E; simpl; [reflexivity|].
  rewrite IH. now destruct (dict_contains k d).
Qed.

Lemma dict_setitem_NoDup k v d :
  NoDup (dict_keys d) -> NoDup (dict_keys (dict_setitem k v d)).
Proof.
  intros Hnd. rewrite dict_keys_setitem.
  destruct (dict_contains k d) eqn:E; [assumption|].
  apply dict_contains_false in E.
  apply NoDup_app; [assumption | repeat constructor; simpl; tauto |].
  intros a Ha [<-|[]]. contradiction.
Qed.

Lemma dict_getitem_setitem_same k v d :
  dict_getitem (dict_setitem k v d) k = Ok v.
Proof.
  induction d as [|[k' v'] d IH]; simpl.
  - now rewrite keqb_refl.
  - destruct (keqb k k') eqn:E; simpl; rewrite E; [reflexivity | exact IH].
Qed.

Lemma dict_getitem_setitem_other k k' v d :
  k <> k' -> dict_getitem (dict_setitem k v d) k' = dict_getitem d k'.
Proof.
  intros Hne. induction d as [|[k0 v0] d IH]; simpl.
  - rewrite keqb_neq; [reflexivity | congruence].
  - destruct (keqb k k0) eqn:E; simpl.
    + apply keqb_eq in E. subst k0.
      rewrite keqb_neq by congruence. reflexivity.
    + now rewrite IH.
Qed.

(** Setting a fresh key appends the entry. *)
Lemma dict_setitem_fresh k v d :
  dict_contains k d = false -> dict_setitem k v d = d ++ [(k, v)].
Proof.
  induction d as [|[k' v'] d IH]; simpl; [reflexivity|].
  destruct (keqb k k'); [discriminate|].
  intros Hc. now rewrite IH.
Qed.
End DictFacts.

(** ** The comparison of two quarters *)

Module ClassifierFacts.
Import Classifier.

Lemma row_of_position_of_row (r : row) :
  row_of_position (position_of_row r) = r.
Proof. now destruct r. Qed.

Lemma gtb_lt (a b : Q) : gtb a b = true <-> b < a.
Proof.
  unfold gtb. rewrite negb_true_iff. split.
  - intros E. apply Qnot_le_lt. intros Hle.
    apply Qle_bool_iff in Hle. congruence.
  - intros Hlt. destruct (Qle_bool a b) eqn:E; [|reflexivity].
    apply Qle_bool_iff in E. exfalso. exact (Qlt_not_le _ _ Hlt E).
Qed.

Lemma ltb_lt (a b : Q) : ltb a b = true <-> a < b.
Proof. unfold ltb. apply (gtb_lt b a). Qed.

(** Under the guard [q4_value > 0] the division goes through. *)
Lemma py_div_guarded (a b : Q) : gtb b 0 = true -> py_div a b = Ok (a / b).
Proof.
  intros Hg. apply gtb_lt in Hg. unfold py_div.
  destruct (Qeq_bool b 0) eqn:E; [|reflexivity].
  apply Qeq_bool_iff in E. rewrite E in Hg. now apply Qlt_irrefl in Hg.
Qed.

(** What one key contributes to each list. *)
Section Contributions.
Context {K : Type} `{EqKey K}.
Variable threshold : Q.
Variables q1_positions q4_positions : dict K position.

Definition change_of (p1 p4 b : position) : change :=
  {| base := b;
     q4_value := value p4;
     q1_value := value p1;
     pct_change := (value p1 - value p4) / value p4;
     dollar_change := value p1 - value p4 |}.

Definition is_increase (p1 p4 : position) : bool :=
  gtb (value p4) 0 && gtb ((value p1 - value p4) / value p4) threshold.

Definition is_decrease (p1 p4 : position) : bool :=
  gtb (value p4) 0 &&
  negb (gtb ((value p1 - value p4) / value p4) threshold) &&
  ltb ((value p1 - value p4) / value p4) (- threshold).

Definition inc_of (k : K) : list change :=
  match dict_getitem q1_positions k, dict_getitem q4_positions k with
  | Ok p1, Ok p4 => if is_increase p1 p4 then [change_of p1 p4 p1] else []
  | _, _ => []
  end.

Definition dec_of (k : K) : list change :=
  match dict_getitem q1_positions k, dict_getitem q4_positions k with
  | Ok p1, Ok p4 => if is_decrease p1 p4 then [change_of p1 p4 p4] else []
  | _, _ => []
  end.
End Contributions.

Definition only_in {K : Type} `{EqKey K} (here there : dict K position) (k : K)
  : list position :=
  if dict_contains k there then []
  else match dict_getitem here k with
       | Ok p => [p]
       | Raise _ => []
       end.

Section Passes.
Context {K : Type} `{EqKeyLaws K}.
Variable key_of : row -> K.
Variable threshold : Q.
Implicit Types (d : dict K position) (k : K).

Lemma new_buys_pass_eq (q1 q4 : dict K position) :
  new_buys_pass q1 q4 = Ok (flat_map (only_in q1 q4) (dict_keys q1)).
Proof.
  unfold new_buys_pass.
  rewrite (for_in_append (only_in q1 q4)); [reflexivity|].
  intros k acc Hin. unfold only_in.
  destruct (dict_contains k q4); simpl; [now rewrite app_nil_r|].
  apply dict_contains_In, dict_contains_getitem in Hin as [p Hp].
  now rewrite Hp.
Qed.

Lemma exits_pass_eq (q1 q4 : dict K position) :
  exits_pass q1 q4 = Ok (flat_map (only_in q4 q1) (dict_keys q4)).
Proof. exact (new_buys_pass_eq q4 q1). Qed.

Lemma changes_body_eq (q1 q4 : dict K position) k a b :
  In k (dict_keys q1) ->
  changes_body threshold q1 q4 k (a, b) =
  Ok (a ++ inc_of threshold q1 q4 k, b ++ dec_of threshold q1 q4 k).
Proof.
  intros Hin. unfold changes_body, inc_of, dec_of, is_increase, is_decrease.
  apply dict_contains_In, dict_contains_getitem in Hin as [p1 Hp1].
  rewrite Hp1. simpl.
  destruct (dict_contains k q4) eqn:Hc.
  - destruct (dict_contains_getitem _ _ Hc) as [p4 Hp4]. rewrite Hp4. simpl.
    destruct (gtb (value p4) 0) eqn:Hg; simpl.
    + rewrite (py_div_guarded _ _ Hg). simpl.
      destruct (gtb _ threshold); simpl.
      * now rewrite app_nil_r.
      * destruct (ltb _ (- threshold)); simpl; now rewrite !app_nil_r.
    + now rewrite !app_nil_r.
  - rewrite (dict_getitem_absent _ _ Hc). now rewrite !app_nil_r.
Qed.

Lemma changes_pass_eq (q1 q4 : dict K position) :
  changes_pass threshold q1 q4 =
  Ok (flat_map (inc_of threshold q1 q4) (dict_keys q1),
      flat_map (dec_of threshold q1 q4) (dict_keys q1)).
Proof.
  unfold changes_pass.
  rewrite (for_in_append2 (inc_of threshold q1 q4) (dec_of threshold q1 q4));
    [reflexivity|].
  intros k a b Hin. now apply changes_body_eq.
Qed.

(** The comparison never raises: its outcome in closed form. *)
Definition outcome (q1 q4 : dict K position) : analysis :=
  {| new_buys := flat_map (only_in q1 q4) (dict_keys q1);
     position_exits := flat_map (only_in q4 q1) (dict_keys q4);
     position_increases := flat_map (inc_of threshold q1 q4) (dict_keys q1);
     position_decreases := flat_map (dec_of threshold q1 q4) (dict_keys q1) |}.

Lemma analyze_eq (q1_2025 q4_2024 : list row) :
  analyze key_of threshold q1_2025 q4_2024 =
  Ok (outcome (index_rows key_of q1_2025) (index_rows key_of q4_2024)).
Proof.
  unfold analyze.
  rewrite new_buys_pass_eq, exits_pass_eq, changes_pass_eq. reflexivity.
Qed.

(** *** The index *)

Definition keyed d : Prop :=
  Forall (fun e => fst e = key_of_position key_of (snd e)) d.

Lemma dict_setitem_keyed d (r : row) :
  keyed d -> keyed (dict_setitem (key_of r) (position_of_row r) d).
Proof.
  unfold keyed.
  induction d as [|[k p] d IH]; simpl; intros Hk.
  - constructor; [|constructor]. simpl. unfold key_of_position.
    now rewrite row_of_position_of_row.
  - inversion Hk as [|? ? Hhd Htl]; subst.
    destruct (keqb (key_of r) k) eqn:E.
    + constructor; [|assumption]. simpl. apply keqb_eq in E. subst k.
      unfold key_of_position. now rewrite row_of_position_of_row.
    + constructor; [assumption | now apply IH].
Qed.

Lemma index_from_inv (df : list row) d :
  keyed d -> NoDup (dict_keys d) ->
  let d' := fold_left
              (fun positions r =>
                 dict_setitem (key_of r) (position_of_row r) positions) df d in
  keyed d' /\ NoDup (dict_keys d').
Proof.
  revert d. induction df as [|r df IH]; intros d Hk Hnd; simpl.
  - now split.
  - apply IH; [now apply dict_setitem_keyed | now apply dict_setitem_NoDup].
Qed.

Lemma index_rows_keyed df : keyed (index_rows key_of df).
Proof. apply (index_from_inv df []); constructor. Qed.

Lemma index_rows_NoDup df : NoDup (dict_keys (index_rows key_of df)).
Proof. apply (index_from_inv df []); constructor. Qed.

Lemma keyed_getitem d k p :
  keyed d -> dict_getitem d k = Ok p -> key_of_position key_of p = k.
Proof.
  intros Hk Hg. apply dict_getitem_In in Hg.
  unfold keyed in Hk. rewrite Forall_forall in Hk.
  symmetry. exact (Hk _ Hg).
Qed.

(** The keys that enter the index are those of the rows. *)
Lemma index_from_keys (df : list row) d k :
  In k (dict_keys
          (fold_left
             (fun positions r =>
                dict_setitem (key_of r) (position_of_row r) positions) df d))
  <-> In k (dict_keys d) \/ In k (map key_of df).
Proof.
  revert d. induction df as [|r df IH]; intros d; simpl.
  - tauto.
  - rewrite IH, dict_keys_setitem.
    destruct (dict_contains (key_of r) d) eqn:E.
    + apply dict_contains_In in E. split; [tauto|].
      intros [Hd|[<-|Hr]]; tauto.
    + rewrite in_app_iff. simpl. tauto.
Qed.

Lemma index_rows_keys df k :
  In k (dict_keys (index_rows key_of df)) <-> In k (map key_of df).
Proof.
  unfold index_rows. rewrite index_from_keys. simpl. tauto.
Qed.

(** Rows with pairwise distinct keys are indexed in their order. *)
Lemma index_from_distinct (df : list row) d :
  NoDup (dict_keys d ++ map key_of df) ->
  fold_left
    (fun positions r => dict_setitem (key_of r) (position_of_row r) positions)
    df d
  = d ++ map (fun r => (key_of r, position_of_row r)) df.
Proof.
  revert d. induction df as [|r df IH]; intros d Hnd; simpl.
  - now rewrite app_nil_r.
  - assert (Hfresh : dict_contains (key_of r) d = false).
    { apply dict_contains_false. intros Hin.
      apply NoDup_remove_2 in Hnd. apply Hnd.
      apply in_or_app. now left. }
    rewrite (dict_setitem_fresh _ _ _ Hfresh).
    rewrite IH.
    + now rewrite <- app_assoc.
    + unfold dict_keys. rewrite map_app. simpl.
      rewrite <- app_assoc. exact Hnd.
Qed.

Lemma index_rows_distinct df :
  NoDup (map key_of df) ->
  index_rows key_of df = map (fun r => (key_of r, position_of_row r)) df.
Proof.
  intros Hnd. unfold index_rows. now rewrite index_from_distinct.
Qed.

End Passes.

(** *** The emitted keys as filters of the indexed keys *)

Section EmittedKeys.
Context {K : Type} `{EqKeyLaws K}.
Variable key_of : row -> K.
Variable threshold : Q.
Variables q1 q4 : dict K position.
Hypothesis q1_keyed : keyed key_of q1.
Hypothesis q4_keyed : keyed key_of q4.

Definition inc_test (k : K) : bool :=
  match dict_getitem q1 k, dict_getitem q4 k with
  | Ok p1, Ok p4 => is_increase threshold p1 p4
  | _, _ => false
  end.

Definition dec_test (k : K) : bool :=
  match dict_getitem q1 k, dict_getitem q4 k with
  | Ok p1, Ok p4 => is_decrease threshold p1 p4
  | _, _ => false
  end.

Lemma only_in_keys (here there : dict K position) (ks : list K) :
  keyed key_of here -> incl ks (dict_keys here) ->
  map (key_of_position key_of) (flat_map (only_in here there) ks)
  = filter (fun k => negb (dict_contains k there)) ks.
Proof.
  intros Hk. induction ks as [|k ks IH]; intros Hincl; simpl; [reflexivity|].
  rewrite map_app, IH by (intros x Hx; apply Hincl; now right).
  unfold only_in at 1.
  destruct (dict_contains k there); simpl; [reflexivity|].
  assert (Hin : In k (dict_keys here)) by (apply Hincl; now left).
  apply dict_contains_In, dict_contains_getitem in Hin as [p Hp].
  rewrite Hp. simpl. now rewrite (keyed_getitem key_of _ _ _ Hk Hp).
Qed.

Lemma inc_of_keys (ks : list K) :
  map (fun c => key_of_position key_of (base c))
    (flat_map (inc_of threshold q1 q4) ks)
  = filter inc_test ks.
Proof.
  induction ks as [|k ks IH]; simpl; [reflexivity|].
  rewrite map_app, IH. unfold inc_of at 1, inc_test at 2.
  destruct (dict_getitem q1 k) as [p1|] eqn:Hp1; [|reflexivity].
  destruct (dict_getitem q4 k) as [p4|] eqn:Hp4; [|reflexivity].
  destruct (is_increase threshold p1 p4); [|reflexivity].
  simpl. now rewrite (keyed_getitem key_of _ _ _ q1_keyed Hp1).
Qed.

Lemma dec_of_keys (ks : list K) :
  map (fun c => key_of_position key_of (base c))
    (flat_map (dec_of threshold q1 q4) ks)
  = filter dec_test ks.
Proof.
  induction ks as [|k ks IH]; simpl; [reflexivity|].
  rewrite map_app, IH. unfold dec_of at 1, dec_test at 2.
  destruct (dict_getitem q1 k) as [p1|] eqn:Hp1; [|reflexivity].
  destruct (dict_getitem q4 k) as [p4|] eqn:Hp4; [|reflexivity].
  destruct (is_decrease threshold p1 p4); [|reflexivity].
  simpl. now rewrite (keyed_getitem key_of _ _ _ q4_keyed Hp4).
Qed.

Lemma emitted_keys_outcome :
  emitted_keys key_of (outcome threshold q1 q4)
  = filter (fun k => negb (dict_contains k q4)) (dict_keys q1)
    ++ filter (fun k => negb (dict_contains k q1)) (dict_keys q4)
    ++ filter inc_test (dict_keys q1)
    ++ filter dec_test (dict_keys q1).
Proof.
  unfold emitted_keys, opened_keys, closed_keys, increased_keys,
    decreased_keys, outcome. simpl.
  rewrite !only_in_keys by (assumption || apply incl_refl).
  now rewrite inc_of_keys, dec_of_keys.
Qed.

Lemma inc_test_both (k : K) :
  inc_test k = true -> dict_contains k q4 = true.
Proof.
  unfold inc_test.
  destruct (dict_getitem q1 k); [|discriminate].
  destruct (dict_getitem q4 k) eqn:E; [|discriminate].
  intros _. exact (dict_getitem_contains _ _ _ E).
Qed.

Lemma dec_test_both (k : K) :
  dec_test k = true -> dict_contains k q4 = true.
Proof.
  unfold dec_test.
  destruct (dict_getitem q1 k); [|discriminate].
  destruct (dict_getitem q4 k) eqn:E; [|discriminate].
  intros _. exact (dict_getitem_contains _ _ _ E).
Qed.

(** The [if]/[elif] chain keeps the two change lists apart. *)
Lemma inc_dec_exclusive (k : K) :
  inc_test k = true -> dec_test k = true -> False.
Proof.
  unfold inc_test, dec_test, is_increase, is_decrease.
  destruct (dict_getitem q1 k); [|discriminate].
  destruct (dict_getitem q4 k); [|discriminate].
  destruct (gtb (value a0) 0); simpl; [|discriminate].
  destruct (gtb _ threshold); simpl; discriminate.
Qed.

Lemma emitted_keys_NoDup :
  NoDup (dict_keys q1) -> NoDup (dict_keys q4) ->
  NoDup (emitted_keys key_of (outcome threshold q1 q4)).
Proof.
  intros Hn1 Hn4. rewrite emitted_keys_outcome.
  apply NoDup_app; [now apply NoDup_filter | |].
  - apply NoDup_app; [now apply NoDup_filter | |].
    + apply NoDup_app; try now apply NoDup_filter.
      intros k Hi Hd. apply filter_In in Hi as [_ Hi].
      apply filter_In in Hd as [_ Hd]. exact (inc_dec_exclusive k Hi Hd).
    + intros k Hc Hrest. apply filter_In in Hc as [_ Hc].
      apply negb_true_iff, dict_contains_false in Hc. apply Hc.
      apply in_app_or in Hrest as [Hr|Hr]; now apply filter_In in Hr.
  - intros k Ho Hrest. apply filter_In in Ho as [_ Ho].
    apply negb_true_iff in Ho.
    apply in_app_or in Hrest as [Hr|Hr].
    + apply filter_In in Hr as [Hr _].
      apply dict_contains_In in Hr. congruence.
    + apply in_app_or in Hr as [Hr|Hr]; apply filter_In in Hr as [_ Hr].
      * apply inc_test_both in Hr. congruence.
      * apply dec_test_both in Hr. congruence.
Qed.

Lemma emitted_keys_incl :
  incl (emitted_keys key_of (outcome threshold q1 q4))
       (dict_keys q1 ++ dict_keys q4).
Proof.
  rewrite emitted_keys_outcome. intros k Hin.
  repeat (apply in_app_or in Hin as [Hin|Hin]);
    apply filter_In in Hin as [Hin _]; apply in_or_app; tauto.
Qed.
End EmittedKeys.

(** Four lists without a common or repeated element give every key exactly
    one of five places. *)
Ltac in_app :=
  first [ assumption
        | apply in_or_app; first [ left; assumption | right; in_app ] ].

Section ExactlyOne.
Context {K : Type} `{EqKeyLaws K}.
Variable key_of : row -> K.

Lemma key_eq_dec (a b : K) : {a = b} + {a <> b}.
Proof.
  destruct (keqb a b) eqn:E.
  - left. now apply keqb_eq.
  - right. now apply keqb_false.
Qed.

Lemma NoDup_app_disjoint (l l' : list K) (k : K) :
  NoDup (l ++ l') -> In k l -> In k l' -> False.
Proof.
  induction l as [|x l IH]; simpl; intros Hnd Hl Hl'; [contradiction|].
  inversion Hnd as [|? ? Hnotin Hnd']; subst.
  destruct Hl as [->|Hl].
  - apply Hnotin. apply in_or_app. now right.
  - now apply IH.
Qed.

Lemma assigned_exactly_one (q1_2025 q4_2024 : list row) (a : analysis)
  (k : K) :
  NoDup (emitted_keys key_of a) ->
  In k (emitted_keys key_of a) \/
  (In k (map key_of q1_2025) /\ In k (map key_of q4_2024)) ->
  exists! c, assigned key_of q1_2025 q4_2024 a k c.
Proof.
  unfold emitted_keys. intros Hnd Hcov.
  assert (Hnd2 := NoDup_app_remove_l _ _ Hnd).
  assert (Hnd3 := NoDup_app_remove_l _ _ Hnd2).
  destruct (in_dec key_eq_dec k (opened_keys key_of a)) as [Ho|Ho].
  { exists Opened. split; [exact Ho|].
    intros [] Hx; simpl in Hx; try reflexivity; exfalso;
      try (apply (NoDup_app_disjoint _ _ k Hnd Ho); in_app).
    destruct Hx as [_ [_ Hx]]. apply Hx. unfold emitted_keys. in_app. }
  destruct (in_dec key_eq_dec k (closed_keys key_of a)) as [Hc|Hc].
  { exists Closed. split; [exact Hc|].
    intros [] Hx; simpl in Hx; try reflexivity; exfalso;
      try contradiction;
      try (apply (NoDup_app_disjoint _ _ k Hnd2 Hc); in_app).
    destruct Hx as [_ [_ Hx]]. apply Hx. unfold emitted_keys. in_app. }
  destruct (in_dec key_eq_dec k (increased_keys key_of a)) as [Hi|Hi].
  { exists Increased. split; [exact Hi|].
    intros [] Hx; simpl in Hx; try reflexivity; exfalso;
      try contradiction;
      try (apply (NoDup_app_disjoint _ _ k Hnd3 Hi); in_app).
    destruct Hx as [_ [_ Hx]]. apply Hx. unfold emitted_keys. in_app. }
  destruct (in_dec key_eq_dec k (decreased_keys key_of a)) as [Hd|Hd].
  { exists Decreased. split; [exact Hd|].
    intros [] Hx; simpl in Hx; try reflexivity; exfalso; try contradiction.
    destruct Hx as [_ [_ Hx]]. apply Hx. unfold emitted_keys. in_app. }
  assert (Hout : ~ In k (opened_keys key_of a ++ closed_keys key_of a ++
                         increased_keys key_of a ++ decreased_keys key_of a)).
  { intros Hin.
    repeat (apply in_app_or in Hin as [Hin|Hin]); contradiction. }
  exists Neither. split.
  - simpl. unfold emitted_keys. destruct Hcov as [Hin|[H1 H4]];
      [contradiction | repeat split; assumption].
  - intros [] Hx; simpl in Hx; try reflexivity; contradiction.
Qed.
End ExactlyOne.

(** *** Properties of the comparison, for any key function *)

Section Properties.
Context {K : Type} `{EqKeyLaws K}.
Variable key_of : row -> K.
Variable threshold : Q.

Lemma opened_iff (q1_2025 q4_2024 : list row) (k : K) :
  In k (opened_keys key_of
          (outcome threshold (index_rows key_of q1_2025)
             (index_rows key_of q4_2024)))
  <-> In k (map key_of q1_2025) /\ ~ In k (map key_of q4_2024).
Proof.
  unfold opened_keys, outcome. simpl.
  rewrite only_in_keys by (apply index_rows_keyed || apply incl_refl).
  rewrite filter_In, negb_true_iff, dict_contains_false.
  now rewrite !index_rows_keys.
Qed.

Lemma closed_iff (q1_2025 q4_2024 : list row) (k : K) :
  In k (closed_keys key_of
          (outcome threshold (index_rows key_of q1_2025)
             (index_rows key_of q4_2024)))
  <-> In k (map key_of q4_2024) /\ ~ In k (map key_of q1_2025).
Proof.
  unfold closed_keys, outcome. simpl.
  rewrite only_in_keys by (apply index_rows_keyed || apply incl_refl).
  rewrite filter_In, negb_true_iff, dict_contains_false.
  now rewrite !index_rows_keys.
Qed.

Lemma partition_keyed (q1_2025 q4_2024 : list row) :
  let a := outcome threshold (index_rows key_of q1_2025)
             (index_rows key_of q4_2024) in
  NoDup (emitted_keys key_of a) /\
  incl (emitted_keys key_of a) (map key_of q1_2025 ++ map key_of q4_2024) /\
  (forall k, In k (map key_of q1_2025 ++ map key_of q4_2024) ->
     exists! c, assigned key_of q1_2025 q4_2024 a k c) /\
  (forall k, In k (map key_of q1_2025) -> ~ In k (map key_of q4_2024) ->
     assigned key_of q1_2025 q4_2024 a k Opened) /\
  (forall k, In k (map key_of q4_2024) -> ~ In k (map key_of q1_2025) ->
     assigned key_of q1_2025 q4_2024 a k Closed) /\
  (forall k, In k (map key_of q1_2025) -> In k (map key_of q4_2024) ->
     ~ assigned key_of q1_2025 q4_2024 a k Opened /\
     ~ assigned key_of q1_2025 q4_2024 a k Closed).
Proof.
  intros a.
  assert (Hnd : NoDup (emitted_keys key_of a)).
  { apply emitted_keys_NoDup;
      auto using index_rows_keyed, index_rows_NoDup. }
  split; [exact Hnd|]. split; [|split; [|split; [|split]]].
  - intros k Hk.
    apply emitted_keys_incl in Hk; auto using index_rows_keyed.
    apply in_app_or in Hk. apply in_or_app.
    rewrite <- !(index_rows_keys key_of). exact Hk.
  - intros k Hk. apply assigned_exactly_one; [exact Hnd|].
    destruct (in_dec key_eq_dec k (map key_of q1_2025)) as [H1|H1];
      destruct (in_dec key_eq_dec k (map key_of q4_2024)) as [H4|H4].
    + right. now split.
    + left. unfold emitted_keys. apply in_or_app. left.
      apply opened_iff. now split.
    + left. unfold emitted_keys. apply in_or_app. right.
      apply in_or_app. left. apply closed_iff. now split.
    + apply in_app_or in Hk. tauto.
  - intros k H1 H4. simpl. apply opened_iff. now split.
  - intros k H4 H1. simpl. apply closed_iff. now split.
  - intros k H1 H4. simpl. subst a. rewrite opened_iff, closed_iff. tauto.
Qed.

(** A key of both snapshots, by the two tests of the loop. *)
Lemma changed_keyed (q1_2025 q4_2024 : list row) (k : K) (p1 p4 : position) :
  let a := outcome threshold (index_rows key_of q1_2025)
             (index_rows key_of q4_2024) in
  dict_getitem (index_rows key_of q1_2025) k = Ok p1 ->
  dict_getitem (index_rows key_of q4_2024) k = Ok p4 ->
  (In k (increased_keys key_of a)
   <-> 0 < value p4 /\ threshold < (value p1 - value p4) / value p4) /\
  (In k (decreased_keys key_of a)
   <-> 0 < value p4 /\ ~ threshold < (value p1 - value p4) / value p4 /\
       (value p1 - value p4) / value p4 < - threshold).
Proof.
  intros a H1 H4. subst a.
  assert (Hinc : In k (filter
                         (inc_test threshold (index_rows key_of q1_2025)
                            (index_rows key_of q4_2024))
                         (dict_keys (index_rows key_of q1_2025)))
                 <-> is_increase threshold p1 p4 = true).
  { rewrite filter_In. unfold inc_test. rewrite H1, H4. split; [tauto|].
    intros Hi. split; [|exact Hi].
    apply dict_contains_In. exact (dict_getitem_contains _ _ _ H1). }
  assert (Hdec : In k (filter
                         (dec_test threshold (index_rows key_of q1_2025)
                            (index_rows key_of q4_2024))
                         (dict_keys (index_rows key_of q1_2025)))
                 <-> is_decrease threshold p1 p4 = true).
  { rewrite filter_In. unfold dec_test. rewrite H1, H4. split; [tauto|].
    intros Hi. split; [|exact Hi].
    apply dict_contains_In. exact (dict_getitem_contains _ _ _ H1). }
  unfold increased_keys, decreased_keys, outcome. simpl.
  rewrite inc_of_keys, dec_of_keys by apply index_rows_keyed.
  rewrite Hinc, Hdec. unfold is_increase, is_decrease.
  rewrite !andb_true_iff, negb_true_iff, ltb_lt, !gtb_lt.
  split; [tauto|]. split.
  - intros [[Hv Hn] Hl]. repeat split; try assumption.
    intros Hlt. apply gtb_lt in Hlt. congruence.
  - intros [Hv [Hn Hl]]. repeat split; try assumption.
    destruct (gtb ((value p1 - value p4) / value p4) threshold) eqn:E;
      [|reflexivity].
    apply gtb_lt in E. contradiction.
Qed.

Lemma flat_map_nil {A B : Type} (f : A -> list B) (l : list A) :
  (forall x, In x l -> f x = []) -> flat_map f l = [].
Proof.
  induction l as [|x l IH]; intros Hf; simpl; [reflexivity|].
  rewrite Hf by now left. apply IH. intros; apply Hf; now right.
Qed.

Definition tag (r : row) : K * position := (key_of r, position_of_row r).

Lemma dict_keys_tag (rows : list row) :
  dict_keys (map tag rows) = map key_of rows.
Proof. unfold dict_keys. rewrite map_map. reflexivity. Qed.

Lemma only_in_tagged (rows : list row) (there : dict K position) :
  NoDup (map key_of rows) ->
  (forall k, In k (map key_of rows) -> dict_contains k there = false) ->
  flat_map (only_in (map tag rows) there) (map key_of rows)
  = map position_of_row rows.
Proof.
  intros Hnd Hout.
  assert (Hgen : forall l, incl l rows ->
            flat_map (only_in (map tag rows) there) (map key_of l)
            = map position_of_row l).
  { induction l as [|r l IH]; intros Hincl; simpl; [reflexivity|].
    rewrite IH by (intros x Hx; apply Hincl; now right).
    assert (Hr : In r rows) by (apply Hincl; now left).
    unfold only_in. rewrite Hout by now apply in_map.
    rewrite (dict_getitem_NoDup _ _ (position_of_row r)).
    - reflexivity.
    - now rewrite dict_keys_tag.
    - now apply (in_map tag) in Hr. }
  apply Hgen, incl_refl.
Qed.

Lemma inc_of_absent (q1 q4 : dict K position) (k : K) :
  dict_contains k q4 = false -> inc_of threshold q1 q4 k = [].
Proof.
  intros Hc. unfold inc_of. rewrite (dict_getitem_absent _ _ Hc).
  now destruct (dict_getitem q1 k).
Qed.

Lemma dec_of_absent (q1 q4 : dict K position) (k : K) :
  dict_contains k q4 = false -> dec_of threshold q1 q4 k = [].
Proof.
  intros Hc. unfold dec_of. rewrite (dict_getitem_absent _ _ Hc).
  now destruct (dict_getitem q1 k).
Qed.

(** Snapshots without a common key: everything current is opened,
    everything prior is closed. *)
Lemma disjoint_keyed (A B : list row) :
  NoDup (map key_of A) -> NoDup (map key_of B) ->
  (forall k, In k (map key_of A) -> ~ In k (map key_of B)) ->
  analyze key_of threshold B A =
  Ok {| new_buys := map position_of_row B;
        position_exits := map position_of_row A;
        position_increases := [];
        position_decreases := [] |}.
Proof.
  intros HA HB Hdisj. rewrite analyze_eq.
  rewrite !index_rows_distinct by assumption.
  fold tag. unfold outcome. rewrite !dict_keys_tag.
  assert (HBA : forall k, In k (map key_of B) ->
                 dict_contains k (map tag A) = false).
  { intros k Hk. apply dict_contains_false. rewrite dict_keys_tag.
    intros HkA. exact (Hdisj k HkA Hk). }
  assert (HAB : forall k, In k (map key_of A) ->
                 dict_contains k (map tag B) = false).
  { intros k Hk. apply dict_contains_false. rewrite dict_keys_tag.
    now apply Hdisj. }
  rewrite !only_in_tagged by assumption.
  rewrite (flat_map_nil (inc_of _ _ _))
    by (intros k Hk; apply inc_of_absent; now apply HBA).
  rewrite (flat_map_nil (dec_of _ _ _))
    by (intros k Hk; apply dec_of_absent; now apply HBA).
  reflexivity.
Qed.

Lemma gtb_zero (v : Q) : v == 0 -> gtb v 0 = false.
Proof.
  intros Hv. unfold gtb. apply negb_false_iff, Qle_bool_iff.
  rewrite Hv. apply Qle_refl.
Qed.

(** A key held in both quarters at a prior value of zero is emitted by no
    pass. *)
Lemma zero_prior_keyed (q1_2025 q4_2024 : list row) (k : K) (p4 : position) :
  In k (dict_keys (index_rows key_of q1_2025)) ->
  dict_getitem (index_rows key_of q4_2024) k = Ok p4 ->
  value p4 == 0 ->
  ~ In k (emitted_keys key_of
            (outcome threshold (index_rows key_of q1_2025)
               (index_rows key_of q4_2024))).
Proof.
  intros Hin1 Hp4 Hzero.
  rewrite emitted_keys_outcome by auto using index_rows_keyed.
  assert (Hc4 := dict_getitem_contains _ _ _ Hp4).
  assert (Hc1 : dict_contains k (index_rows key_of q1_2025) = true)
    by now apply dict_contains_In.
  intros Hin.
  repeat (apply in_app_or in Hin as [Hin|Hin]);
    apply filter_In in Hin as [_ Hin].
  - rewrite Hc4 in Hin. discriminate.
  - rewrite Hc1 in Hin. discriminate.
  - unfold inc_test in Hin. rewrite Hp4 in Hin.
    destruct (dict_getitem (index_rows key_of q1_2025) k); [|discriminate].
    unfold is_increase in Hin. rewrite (gtb_zero _ Hzero) in Hin.
    simpl in Hin. discriminate.
  - unfold dec_test in Hin. rewrite Hp4 in Hin.
    destruct (dict_getitem (index_rows key_of q1_2025) k); [|discriminate].
    unfold is_decrease in Hin. rewrite (gtb_zero _ Hzero) in Hin.
    simpl in Hin. discriminate.
Qed.

(** The two change lists, read at one key held in both quarters. *)
Section AtKey.
Variables q1 q4 : dict K position.
Hypothesis q1_keyed : keyed key_of q1.
Hypothesis q4_keyed : keyed key_of q4.
Variable k : K.
Variables p1 p4 : position.
Hypothesis at_q1 : dict_getitem q1 k = Ok p1.
Hypothesis at_q4 : dict_getitem q4 k = Ok p4.

Lemma increased_at :
  In k (increased_keys key_of (outcome threshold q1 q4))
  <-> is_increase threshold p1 p4 = true.
Proof.
  unfold increased_keys, outcome. simpl.
  rewrite inc_of_keys by assumption. rewrite filter_In.
  unfold inc_test. rewrite at_q1, at_q4. split; [tauto|].
  intros Hi. split; [|exact Hi].
  apply dict_contains_In. exact (dict_getitem_contains _ _ _ at_q1).
Qed.

Lemma decreased_at :
  In k (decreased_keys key_of (outcome threshold q1 q4))
  <-> is_decrease threshold p1 p4 = true.
Proof.
  unfold decreased_keys, outcome. simpl.
  rewrite dec_of_keys by assumption. rewrite filter_In.
  unfold dec_test. rewrite at_q1, at_q4. split; [tauto|].
  intros Hi. split; [|exact Hi].
  apply dict_contains_In. exact (dict_getitem_contains _ _ _ at_q1).
Qed.

Lemma increase_record (c : change) :
  In c (position_increases (outcome threshold q1 q4)) ->
  key_of_position key_of (base c) = k ->
  c = change_of p1 p4 p1.
Proof.
  unfold outcome. simpl. intros Hin Hkey.
  apply in_flat_map in Hin as [k' [_ Hin]]. unfold inc_of in Hin.
  destruct (dict_getitem q1 k') as [p1'|] eqn:E1; [|contradiction].
  destruct (dict_getitem q4 k') as [p4'|] eqn:E4; [|contradiction].
  destruct (is_increase threshold p1' p4'); [|contradiction].
  destruct Hin as [<-|[]]. simpl in Hkey.
  rewrite (keyed_getitem key_of _ _ _ q1_keyed E1) in Hkey. subst k'.
  congruence.
Qed.

Lemma decrease_record (c : change) :
  In c (position_decreases (outcome threshold q1 q4)) ->
  key_of_position key_of (base c) = k ->
  c = change_of p1 p4 p4.
Proof.
  unfold outcome. simpl. intros Hin Hkey.
  apply in_flat_map in Hin as [k' [_ Hin]]. unfold dec_of in Hin.
  destruct (dict_getitem q1 k') as [p1'|] eqn:E1; [|contradiction].
  destruct (dict_getitem q4 k') as [p4'|] eqn:E4; [|contradiction].
  destruct (is_decrease threshold p1' p4'); [|contradiction].
  destruct Hin as [<-|[]]. simpl in Hkey.
  rewrite (keyed_getitem key_of _ _ _ q4_keyed E4) in Hkey. subst k'.
  congruence.
Qed.
End AtKey.

Lemma is_increase_iff (p1 p4 : position) :
  0 < value p4 ->
  is_increase threshold p1 p4 = true
  <-> threshold < (value p1 - value p4) / value p4.
Proof.
  intros Hpos. unfold is_increase.
  rewrite andb_true_iff, !gtb_lt. tauto.
Qed.

Lemma is_decrease_iff (p1 p4 : position) :
  0 <= threshold -> 0 < value p4 ->
  is_decrease threshold p1 p4 = true
  <-> (value p1 - value p4) / value p4 < - threshold.
Proof.
  intros Ht Hpos. unfold is_decrease.
  rewrite !andb_true_iff, negb_true_iff, ltb_lt, gtb_lt. split; [tauto|].
  intros Hlt. repeat split; try assumption.
  destruct (gtb _ threshold) eqn:E; [|reflexivity].
  apply gtb_lt in E. lra.
Qed.
End Properties.

(** *** The comparison of [create_final_enhanced_master.py] *)

Lemma increases_body_eq (q1 q4 : dict string position) (k : string)
  (acc : list change) :
  In k (dict_keys q1) ->
  Enhanced.increases_body q1 q4 k acc = Ok (acc ++ inc_of (1 # 2) q1 q4 k).
Proof.
  intros Hin. unfold Enhanced.increases_body, inc_of, is_increase.
  apply dict_contains_In, dict_contains_getitem in Hin as [p1 Hp1].
  rewrite Hp1. simpl.
  destruct (dict_contains k q4) eqn:Hc.
  - destruct (dict_contains_getitem _ _ Hc) as [p4 Hp4]. rewrite Hp4. simpl.
    destruct (gtb (value p4) 0) eqn:Hg; simpl.
    + rewrite (py_div_guarded _ _ Hg). simpl.
      destruct (gtb _ (1 # 2)); simpl; [reflexivity | now rewrite app_nil_r].
    + now rewrite app_nil_r.
  - rewrite (dict_getitem_absent _ _ Hc). now rewrite app_nil_r.
Qed.

Lemma position_changes_eq (q1_2025 q4_2024 : list row) :
  let a := outcome (1 # 2) (index_rows create_position_key q1_2025)
             (index_rows create_position_key q4_2024) in
  Enhanced.position_changes q1_2025 q4_2024 =
  Ok {| Enhanced.e_new_buys := new_buys a;
        Enhanced.e_position_exits := position_exits a;
        Enhanced.e_position_increases := position_increases a |}.
Proof.
  intros a. unfold Enhanced.position_changes.
  rewrite new_buys_pass_eq, exits_pass_eq. simpl.
  unfold Enhanced.increases_pass.
  rewrite (for_in_append (inc_of (1 # 2) _ _))
    by (intros; now apply increases_body_eq).
  reflexivity.
Qed.

(** *** The claims about the comparison *)

Definition holding_row (fund company : string) (v : Q) : row :=
  {| r_fund_name := fund; r_company := company; r_ticker := company;
     r_shares := 1; r_value := v; r_industry := "Biotechnology" |}.

(** C1. Partition: whatever the two snapshots and the threshold, the
    comparison returns, and every key of either snapshot has exactly one
    of the places Opened, Closed, Increased, Decreased, Neither.  A key of
    the current snapshot only is Opened, a key of the prior snapshot only
    is Closed, and a key of both is neither of these: it is Increased when
    the prior value is above zero and the relative change is above the
    threshold, Decreased when the prior value is above zero and the change
    is not above the threshold and below its negative, and Neither
    otherwise.  No key is emitted twice or into two lists, and every key
    emitted is a key of a snapshot. *)
Theorem classification_partitions_keys
  (threshold : Q) (q1_2025 q4_2024 : list row) :
  exists a,
    analyze create_position_key threshold q1_2025 q4_2024 = Ok a /\
    NoDup (emitted_keys create_position_key a) /\
    incl (emitted_keys create_position_key a)
         (map create_position_key q1_2025 ++ map create_position_key q4_2024) /\
    (forall k,
       In k (map create_position_key q1_2025
             ++ map create_position_key q4_2024) ->
       exists! c, assigned create_position_key q1_2025 q4_2024 a k c) /\
    (forall k,
       In k (map create_position_key q1_2025) ->
       ~ In k (map create_position_key q4_2024) ->
       assigned create_position_key q1_2025 q4_2024 a k Opened) /\
    (forall k,
       In k (map create_position_key q4_2024) ->
       ~ In k (map create_position_key q1_2025) ->
       assigned create_position_key q1_2025 q4_2024 a k Closed) /\
    (forall k,
       In k (map create_position_key q1_2025) ->
       In k (map create_position_key q4_2024) ->
       ~ assigned create_position_key q1_2025 q4_2024 a k Opened /\
       ~ assigned create_position_key q1_2025 q4_2024 a k Closed) /\
    (forall k p1 p4,
       dict_getitem (index_rows create_position_key q1_2025) k = Ok p1 ->
       dict_getitem (index_rows create_position_key q4_2024) k = Ok p4 ->
       (assigned create_position_key q1_2025 q4_2024 a k Increased
        <-> 0 < value p4 /\
            threshold < (value p1 - value p4) / value p4) /\
       (assigned create_position_key q1_2025 q4_2024 a k Decreased
        <-> 0 < value p4 /\
            ~ threshold < (value p1 - value p4) / value p4 /\
            (value p1 - value p4) / value p4 < - threshold)).
Proof.
  eexists. split; [apply analyze_eq|].
  destruct (partition_keyed create_position_key threshold q1_2025 q4_2024)
    as [Hnd [Hincl [Hone [Hopen [Hclose Hboth]]]]].
  repeat (split; [assumption|]).
  intros k p1 p4 H1 H4. simpl.
  exact (changed_keyed create_position_key threshold _ _ k p1 p4 H1 H4).
Qed.

(** A key of the current quarter only is opened, one of the prior quarter
    only is closed, and a key held at the same value in both is in neither
    list. *)
Example three_keys_three_places :
  let q1 := [holding_row "FundA" "Kept" 100; holding_row "FundA" "New" 50] in
  let q4 := [holding_row "FundA" "Kept" 100; holding_row "FundA" "Old" 70] in
  exists a,
    analyze_buys_sells_increases q1 q4 = Ok a /\
    assigned create_position_key q1 q4 a "FundA||New" Opened /\
    assigned create_position_key q1 q4 a "FundA||Old" Closed /\
    assigned create_position_key q1 q4 a "FundA||Kept" Neither.
Proof.
  eexists. split; [reflexivity|]. simpl. repeat split; try tauto.
  intros [H|[H|[]]]; discriminate.
Qed.

(** C2. Threshold strictness: for a key indexed in both quarters with a
    prior value above zero, the key is among the increases exactly when
    (q1 - q4) / q4 exceeds 0.5 and among the decreases exactly when it is
    below -0.5; a change of exactly 0.5 is no increase; the emitted record
    carries both values, the percentage and the dollar change q1 - q4; the
    enhanced report has the same increases. *)
Theorem threshold_is_strict
  (q1_2025 q4_2024 : list row) (k : string) (p1 p4 : position) :
  dict_getitem (index_rows create_position_key q1_2025) k = Ok p1 ->
  dict_getitem (index_rows create_position_key q4_2024) k = Ok p4 ->
  0 < value p4 ->
  exists a e,
    analyze_buys_sells_increases q1_2025 q4_2024 = Ok a /\
    Enhanced.position_changes q1_2025 q4_2024 = Ok e /\
    (In k (increased_keys create_position_key a)
     <-> 1 # 2 < (value p1 - value p4) / value p4) /\
    (In k (decreased_keys create_position_key a)
     <-> (value p1 - value p4) / value p4 < - (1 # 2)) /\
    ((value p1 - value p4) / value p4 == 1 # 2 ->
     ~ In k (increased_keys create_position_key a)) /\
    (forall c,
       In c (position_increases a ++ position_decreases a) ->
       key_of_position create_position_key (base c) = k ->
       q4_value c = value p4 /\ q1_value c = value p1 /\
       pct_change c = (value p1 - value p4) / value p4 /\
       dollar_change c = value p1 - value p4) /\
    Enhanced.e_position_increases e = position_increases a.
Proof.
  intros Hp1 Hp4 Hpos.
  pose proof (index_rows_keyed create_position_key q1_2025) as Hk1.
  pose proof (index_rows_keyed create_position_key q4_2024) as Hk4.
  eexists. eexists.
  split; [apply analyze_eq|]. split; [apply position_changes_eq|].
  assert (Hinc := increased_at create_position_key (1 # 2) _ _ Hk1 k _ _ Hp1 Hp4).
  assert (Hdec := decreased_at create_position_key (1 # 2) _ _ Hk4 k _ _ Hp1 Hp4).
  rewrite (is_increase_iff (1 # 2) p1 p4 Hpos) in Hinc.
  rewrite (is_decrease_iff (1 # 2) p1 p4) in Hdec by (assumption || lra).
  split; [exact Hinc|]. split; [exact Hdec|]. split.
  - intros Heq Hin. apply Hinc in Hin. rewrite Heq in Hin.
    now apply Qlt_irrefl in Hin.
  - split; [|reflexivity].
    intros c Hc Hkey. apply in_app_or in Hc as [Hc|Hc].
    + rewrite (increase_record create_position_key (1 # 2) _ _ Hk1 k _ _
                 Hp1 Hp4 c Hc Hkey).
      repeat split.
    + rewrite (decrease_record create_position_key (1 # 2) _ _ Hk4 k _ _
                 Hp1 Hp4 c Hc Hkey).
      repeat split.
Qed.

(** The scenario of the claim: 100 before, 160 now. *)
Lemma threshold_is_strict_witness :
  exists a e,
    analyze_buys_sells_increases
      [holding_row "FundA" "AAPL" 160] [holding_row "FundA" "AAPL" 100] = Ok a /\
    Enhanced.position_changes
      [holding_row "FundA" "AAPL" 160] [holding_row "FundA" "AAPL" 100] = Ok e /\
    (In "FundA||AAPL" (increased_keys create_position_key a)
     <-> 1 # 2 < (160 - 100) / 100) /\
    (In "FundA||AAPL" (decreased_keys create_position_key a)
     <-> (160 - 100) / 100 < - (1 # 2)) /\
    ((160 - 100) / 100 == 1 # 2 ->
     ~ In "FundA||AAPL" (increased_keys create_position_key a)) /\
    (forall c,
       In c (position_increases a ++ position_decreases a) ->
       key_of_position create_position_key (base c) = "FundA||AAPL" ->
       q4_value c = 100 /\ q1_value c = 160 /\
       pct_change c = (160 - 100) / 100 /\
       dollar_change c = 160 - 100) /\
    Enhanced.e_position_increases e = position_increases a.
Proof.
  apply (threshold_is_strict
           [holding_row "FundA" "AAPL" 160] [holding_row "FundA" "AAPL" 100]
           "FundA||AAPL"
           (position_of_row (holding_row "FundA" "AAPL" 160))
           (position_of_row (holding_row "FundA" "AAPL" 100)));
    reflexivity.
Defined.

(** The same scenario, run: one increase, with a dollar change of 60. *)
Example scenario_100_to_160 :
  analyze_buys_sells_increases
    [holding_row "FundA" "AAPL" 160] [holding_row "FundA" "AAPL" 100]
  = Ok {| new_buys := [];
          position_exits := [];
          position_increases :=
            [ {| base := position_of_row (holding_row "FundA" "AAPL" 160);
                 q4_value := 100;
                 q1_value := 160;
                 pct_change := 60 # 100;
                 dollar_change := 60 |} ];
          position_decreases := [] |}.
Proof. reflexivity. Qed.

(** C3. Snapshots without a common key: with A the prior and B the current
    snapshot, each a list of rows with pairwise distinct keys, the
    comparison returns the positions of B as opened and those of A as
    closed, each with its own market value, and no change; this covers an
    empty A and an empty B. *)
Theorem disjoint_snapshots_open_and_close
  (threshold : Q) (A B : list row) :
  NoDup (map create_position_key A) ->
  NoDup (map create_position_key B) ->
  (forall k, In k (map create_position_key A) ->
             ~ In k (map create_position_key B)) ->
  exists a,
    analyze create_position_key threshold B A = Ok a /\
    new_buys a = map position_of_row B /\
    position_exits a = map position_of_row A /\
    position_increases a = [] /\
    position_decreases a = [] /\
    map value (new_buys a) = map r_value B /\
    map value (position_exits a) = map r_value A /\
    List.length (new_buys a) = List.length B /\
    List.length (position_exits a) = List.length A.
Proof.
  intros HA HB Hdisj. eexists.
  split; [now apply disjoint_keyed|]. simpl.
  rewrite !map_map, !length_map. simpl. repeat split.
Qed.

Lemma disjoint_snapshots_open_and_close_witness :
  exists a,
    analyze create_position_key (1 # 2)
      [holding_row "FundB" "NEW" 50] [holding_row "FundA" "XYZ" 100] = Ok a /\
    new_buys a = map position_of_row [holding_row "FundB" "NEW" 50] /\
    position_exits a = map position_of_row [holding_row "FundA" "XYZ" 100] /\
    position_increases a = [] /\
    position_decreases a = [] /\
    map value (new_buys a) = map r_value [holding_row "FundB" "NEW" 50] /\
    map value (position_exits a) = map r_value [holding_row "FundA" "XYZ" 100] /\
    List.length (new_buys a) = 1%nat /\
    List.length (position_exits a) = 1%nat.
Proof.
  apply (disjoint_snapshots_open_and_close (1 # 2)
           [holding_row "FundA" "XYZ" 100] [holding_row "FundB" "NEW" 50]).
  - repeat constructor. simpl. tauto.
  - repeat constructor. simpl. tauto.
  - simpl. intros k [<-|[]] [Heq|[]]. discriminate Heq.
Defined.

(** An empty prior or current snapshot is compared like any other. *)
Example first_quarter_observed :
  analyze_buys_sells_increases [holding_row "FundB" "NEW" 50] []
  = Ok {| new_buys := [position_of_row (holding_row "FundB" "NEW" 50)];
          position_exits := [];
          position_increases := [];
          position_decreases := [] |}.
Proof. reflexivity. Qed.

Example last_quarter_observed :
  analyze_buys_sells_increases [] [holding_row "FundA" "XYZ" 100]
  = Ok {| new_buys := [];
          position_exits := [position_of_row (holding_row "FundA" "XYZ" 100)];
          position_increases := [];
          position_decreases := [] |}.
Proof. reflexivity. Qed.

(** C5. Zero-prior guard: a key of the current snapshot whose indexed prior
    value is zero is emitted by no pass, and the comparison never ends in a
    division by zero. *)
Theorem zero_prior_value_is_skipped
  (threshold : Q) (q1_2025 q4_2024 : list row) (k : string) (p4 : position) :
  In k (map create_position_key q1_2025) ->
  dict_getitem (index_rows create_position_key q4_2024) k = Ok p4 ->
  value p4 == 0 ->
  exists a,
    analyze create_position_key threshold q1_2025 q4_2024 = Ok a /\
    ~ In k (emitted_keys create_position_key a) /\
    forall rows1 rows4,
      analyze create_position_key threshold rows1 rows4
      <> Raise ZeroDivisionError.
Proof.
  intros Hin Hp4 Hzero. eexists.
  split; [apply analyze_eq|]. split.
  - apply zero_prior_keyed with (p4 := p4); try assumption.
    now apply index_rows_keys.
  - intros rows1 rows4. rewrite analyze_eq. discriminate.
Qed.

Lemma zero_prior_value_is_skipped_witness :
  exists a,
    analyze create_position_key (1 # 2)
      [holding_row "FundA" "AAPL" 160] [holding_row "FundA" "AAPL" 0] = Ok a /\
    ~ In "FundA||AAPL" (emitted_keys create_position_key a) /\
    forall rows1 rows4,
      analyze create_position_key (1 # 2) rows1 rows4
      <> Raise ZeroDivisionError.
Proof.
  apply (zero_prior_value_is_skipped (1 # 2)
           [holding_row "FundA" "AAPL" 160] [holding_row "FundA" "AAPL" 0]
           "FundA||AAPL" (position_of_row (holding_row "FundA" "AAPL" 0)));
    [simpl; tauto | reflexivity | reflexivity].
Defined.

End ClassifierFacts.

(** ** Rows that share a key *)

Module IndexFacts.
Import Classifier ClassifierFacts.

Section LastWins.
Context {K : Type} `{EqKeyLaws K}.
Variable key_of : row -> K.

Lemma find_snoc {A : Type} (f : A -> bool) (l : list A) (x : A) :
  find f (l ++ [x]) =
  match find f l with
  | Some y => Some y
  | None => if f x then Some x else None
  end.
Proof.
  induction l as [|y l IH]; simpl; [reflexivity|].
  destruct (f y); [reflexivity | exact IH].
Qed.

Lemma getitem_index_from (df : list row) (d : dict K position) (k : K) :
  dict_getitem
    (fold_left
       (fun positions r => dict_setitem (key_of r) (position_of_row r) positions)
       df d) k
  = match last_row_of key_of k df with
    | Some r => Ok (position_of_row r)
    | None => dict_getitem d k
    end.
Proof.
  revert d. induction df as [|r df IH]; intros d; simpl; [reflexivity|].
  rewrite IH. unfold last_row_of. simpl. rewrite find_snoc.
  destruct (find _ (rev df)); [reflexivity|].
  destruct (keqb k (key_of r)) eqn:E.
  - apply keqb_eq in E. subst k. apply dict_getitem_setitem_same.
  - apply keqb_false in E. apply dict_getitem_setitem_other. congruence.
Qed.

Lemma getitem_index_rows (df : list row) (k : K) :
  dict_getitem (index_rows key_of df) k
  = match last_row_of key_of k df with
    | Some r => Ok (position_of_row r)
    | None => Raise KeyError
    end.
Proof. apply getitem_index_from. Qed.
End LastWins.

Definition twice_held : list row :=
  [ holding_row "FundA" "AAPL" 100; holding_row "FundA" "AAPL" 250 ].

(** C4, as stated, fails: on a snapshot that lists one key twice the
    specified index is [DuplicateKeyError], while the script's index is
    built and holds the later row. *)
Lemma duplicate_key_is_not_an_error :
  has_duplicate (map create_position_key twice_held) = true /\
  checked_index create_position_key twice_held = inl DuplicateKeyError /\
  inr (index_rows create_position_key twice_held)
    <> checked_index create_position_key twice_held /\
  index_rows create_position_key twice_held
    = [("FundA||AAPL", position_of_row (holding_row "FundA" "AAPL" 250))].
Proof.
  repeat split. discriminate.
Qed.

(** C4, amended. Building the index never fails: whatever the rows, it
    has one entry per key that occurs, and the entry of a key holds the
    data of the last row carrying that key. *)
Theorem duplicate_rows_last_wins (df : list row) :
  NoDup (dict_keys (index_rows create_position_key df)) /\
  (forall k,
     In k (dict_keys (index_rows create_position_key df))
     <-> In k (map create_position_key df)) /\
  (forall k,
     dict_getitem (index_rows create_position_key df) k
     = match last_row_of create_position_key k df with
       | Some r => Ok (position_of_row r)
       | None => Raise KeyError
       end).
Proof.
  split; [apply index_rows_NoDup|]. split.
  - intros k. apply index_rows_keys.
  - intros k. apply getitem_index_rows.
Qed.

End IndexFacts.

(** ** Python strings and the literals of [float] *)

Module PyStrFacts.
Import PyStr.

Lemma append_nil_r (s : string) : (s ++ "")%string = s.
Proof. induction s as [|c s IH]; simpl; [reflexivity | now rewrite IH]. Qed.

Lemma append_assoc (s t u : string) :
  ((s ++ t) ++ u)%string = (s ++ (t ++ u))%string.
Proof. induction s as [|c s IH]; simpl; [reflexivity | now rewrite IH]. Qed.

Lemma remove_char_app (c : ascii) (s t : string) :
  remove_char c (s ++ t) = (remove_char c s ++ remove_char c t)%string.
Proof.
  induction s as [|a s IH]; simpl; [reflexivity|].
  destruct (Ascii.eqb a c); simpl; now rewrite IH.
Qed.

Lemma upper_app (s t : string) : upper (s ++ t) = (upper s ++ upper t)%string.
Proof. induction s as [|a s IH]; simpl; [reflexivity | now rewrite IH]. Qed.

Lemma contains_char_app (c : ascii) (s t : string) :
  contains_char c (s ++ t) = contains_char c s || contains_char c t.
Proof.
  induction s as [|a s IH]; simpl; [reflexivity|].
  rewrite IH. now rewrite orb_assoc.
Qed.

Lemma remove_char_absent (c : ascii) (s : string) :
  contains_char c s = false -> remove_char c s = s.
Proof.
  induction s as [|a s IH]; simpl; [reflexivity|].
  intros Hc. apply orb_false_iff in Hc as [Ha Hs].
  rewrite Ha. now rewrite IH.
Qed.

Lemma is_space_upper (c : ascii) : is_space (upper_ascii c) = is_space c.
Proof. destruct c as [[] [] [] [] [] [] [] []]; reflexivity. Qed.

Lemma upper_ascii_idem (c : ascii) :
  upper_ascii (upper_ascii c) = upper_ascii c.
Proof. destruct c as [[] [] [] [] [] [] [] []]; reflexivity. Qed.

Lemma upper_idem (s : string) : upper (upper s) = upper s.
Proof.
  induction s as [|a s IH]; simpl; [reflexivity|].
  now rewrite upper_ascii_idem, IH.
Qed.

Lemma lstrip_upper (s : string) : lstrip (upper s) = upper (lstrip s).
Proof.
  induction s as [|a s IH]; simpl; [reflexivity|].
  rewrite is_space_upper. now destruct (is_space a).
Qed.

Lemma rstrip_upper (s : string) : rstrip (upper s) = upper (rstrip s).
Proof.
  induction s as [|a s IH]; simpl; [reflexivity|].
  rewrite IH, is_space_upper.
  destruct (rstrip s); simpl; [now destruct (is_space a) | reflexivity].
Qed.

Lemma strip_upper (s : string) : strip (upper s) = upper (strip s).
Proof. unfold strip. now rewrite lstrip_upper, rstrip_upper. Qed.

(** [float] reads its argument without regard to case. *)
Lemma py_float_upper (s : string) : py_float (upper s) = py_float s.
Proof. unfold py_float. now rewrite strip_upper, upper_idem. Qed.

(** *** The characters of an accepted literal *)

Definition literal_char (a : ascii) : bool :=
  is_space a || in_range 48 57 a ||
  existsb (Ascii.eqb a) ["_"; "."; "E"; "+"; "-"; "I"; "N"; "F"; "T"; "Y"; "A"]%char.

Fixpoint all_chars (P : ascii -> bool) (s : string) : bool :=
  match s with
  | EmptyString => true
  | String a s' => P a && all_chars P s'
  end.

Lemma all_chars_lstrip (P : ascii -> bool) (s : string) :
  (forall a, is_space a = true -> P a = true) ->
  all_chars P (lstrip s) = true -> all_chars P s = true.
Proof.
  intros Hsp. induction s as [|a s IH]; simpl; [reflexivity|].
  destruct (is_space a) eqn:E; simpl; [|tauto].
  intros Hs. rewrite (Hsp a E). now apply IH.
Qed.

Lemma all_chars_rstrip (P : ascii -> bool) (s : string) :
  (forall a, is_space a = true -> P a = true) ->
  all_chars P (rstrip s) = true -> all_chars P s = true.
Proof.
  intros Hsp. induction s as [|a s IH]; simpl; [reflexivity|].
  destruct (rstrip s) as [|b t] eqn:Er.
  - destruct (is_space a) eqn:E; simpl; intros Hs.
    + rewrite (Hsp a E). now apply IH.
    + apply andb_true_iff in Hs as [-> _]. now apply IH.
  - simpl. intros Hs. apply andb_true_iff in Hs as [-> Hs]. now apply IH.
Qed.

Lemma all_chars_contains (P : ascii -> bool) (c : ascii) (s : string) :
  all_chars P s = true -> P c = false -> contains_char c s = false.
Proof.
  intros Hall Hc. induction s as [|a s IH]; simpl; [reflexivity|].
  simpl in Hall. apply andb_true_iff in Hall as [Ha Hs].
  rewrite (IH Hs), orb_false_r.
  destruct (Ascii.eqb a c) eqn:E; [|reflexivity].
  apply Ascii.eqb_eq in E. congruence.
Qed.

Lemma space_is_literal (a : ascii) : is_space a = true -> literal_char a = true.
Proof. unfold literal_char. now intros ->. Qed.

Lemma digit_is_literal (a : ascii) (d : Z) :
  digit_of a = Some d -> literal_char a = true.
Proof.
  unfold digit_of, literal_char.
  destruct (in_range 48 57 a); [|discriminate].
  intros _. now rewrite orb_true_r.
Qed.

Lemma digits_tail_literal (n : nat) :
  forall s ds r,
    (String.length s <= n)%nat ->
    digits_tail s = (ds, r) ->
    all_chars literal_char r = true -> all_chars literal_char s = true.
Proof.
  induction n as [|n IH]; intros [|c s] ds r Hlen; simpl in *;
    try (intros [= <- <-]; tauto); try lia.
  destruct (digit_of c) as [d|] eqn:Ed.
  - destruct (digits_tail s) as [ds' r'] eqn:Et. intros [= <- <-] Hr.
    rewrite (digit_is_literal _ _ Ed). simpl.
    apply (IH s ds' r'); [lia | exact Et | exact Hr].
  - destruct (Ascii.eqb c "_") eqn:Eu; [|intros [= <- <-]; tauto].
    destruct s as [|c2 s]; [intros [= <- <-]; tauto|].
    destruct (digit_of c2) as [d|] eqn:Ed2; [|intros [= <- <-]; tauto].
    destruct (digits_tail s) as [ds' r'] eqn:Et. intros [= <- <-] Hr.
    apply Ascii.eqb_eq in Eu. subst c. simpl.
    rewrite (digit_is_literal _ _ Ed2). simpl.
    simpl in Hlen. apply (IH s ds' r'); [lia | exact Et | exact Hr].
Qed.

Lemma digitpart_literal (s : string) (ds : list Z) (r : string) :
  digitpart s = Some (ds, r) ->
  all_chars literal_char r = true -> all_chars literal_char s = true.
Proof.
  destruct s as [|c s]; simpl; [discriminate|].
  destruct (digit_of c) as [d|] eqn:Ed; [|discriminate].
  destruct (digits_tail s) as [ds' r'] eqn:Et. intros [= <- <-] Hr.
  rewrite (digit_is_literal _ _ Ed). simpl.
  exact (digits_tail_literal _ s ds' r' (le_n _) Et Hr).
Qed.

Lemma fraction_literal (s : string) (fp : list Z) (r : string) :
  fraction s = Some (fp, r) ->
  all_chars literal_char r = true -> all_chars literal_char s = true.
Proof.
  destruct s as [|c s]; simpl; [discriminate|].
  destruct (Ascii.eqb c ".") eqn:Ec; [|discriminate].
  apply Ascii.eqb_eq in Ec. subst c. simpl.
  destruct (digitpart s) as [[fp' r']|] eqn:Ed; intros [= <- <-] Hr.
  - exact (digitpart_literal _ _ _ Ed Hr).
  - exact Hr.
Qed.

Lemma parse_sign_literal (s r : string) (neg : bool) :
  parse_sign s = (neg, r) ->
  all_chars literal_char r = true -> all_chars literal_char s = true.
Proof.
  destruct s as [|c s]; simpl; [intros [= <- <-]; tauto|].
  destruct (Ascii.eqb c "-") eqn:Em.
  { apply Ascii.eqb_eq in Em. subst c. intros [= <- <-]. tauto. }
  destruct (Ascii.eqb c "+") eqn:Ep.
  { apply Ascii.eqb_eq in Ep. subst c. intros [= <- <-]. tauto. }
  intros [= <- <-]. tauto.
Qed.

Lemma parse_exponent_literal (s : string) (e : Z) :
  parse_exponent s = Some e -> all_chars literal_char s = true.
Proof.
  destruct s as [|c s]; simpl; [reflexivity|].
  destruct (Ascii.eqb c "E") eqn:Ec; [|discriminate].
  apply Ascii.eqb_eq in Ec. subst c. simpl.
  destruct (parse_sign s) as [neg r] eqn:Es.
  destruct (digitpart r) as [[ds [|c r']]|] eqn:Ed; try discriminate.
  intros _. apply (parse_sign_literal _ _ _ Es).
  now apply (digitpart_literal _ _ _ Ed).
Qed.

Lemma parse_number_literal (s : string) (q : Q) :
  parse_number s = Some q -> all_chars literal_char s = true.
Proof.
  unfold parse_number.
  destruct (digitpart s) as [[ip r]|] eqn:Ei.
  - destruct (fraction r) as [[fp r2]|] eqn:Ef.
    + destruct (parse_exponent r2) as [e|] eqn:Ee; [|discriminate].
      intros _. apply (digitpart_literal _ _ _ Ei).
      apply (fraction_literal _ _ _ Ef).
      exact (parse_exponent_literal _ _ Ee).
    + destruct (parse_exponent r) as [e|] eqn:Ee; [|discriminate].
      intros _. apply (digitpart_literal _ _ _ Ei).
      exact (parse_exponent_literal _ _ Ee).
  - destruct (fraction s) as [[[|d fp] r2]|] eqn:Ef; try discriminate.
    destruct (parse_exponent r2) as [e|] eqn:Ee; [|discriminate].
    intros _. apply (fraction_literal _ _ _ Ef).
    exact (parse_exponent_literal _ _ Ee).
Qed.

(** Whatever [float] accepts consists, in upper case, of blanks, digits,
    and the few signs and letters of the grammar. *)
Lemma py_float_literal (s : string) (x : pyfloat) :
  py_float s = Some x -> all_chars literal_char (upper s) = true.
Proof.
  unfold py_float. intros Hf.
  apply (all_chars_lstrip _ _ space_is_literal).
  apply (all_chars_rstrip _ _ space_is_literal).
  fold (strip (upper s)). rewrite strip_upper.
  destruct (parse_sign (upper (strip s))) as [neg body] eqn:Es.
  apply (parse_sign_literal _ _ _ Es).
  destruct (String.eqb body "INF" || String.eqb body "INFINITY") eqn:Einf.
  { apply orb_true_iff in Einf as [E|E]; apply String.eqb_eq in E;
      subst body; reflexivity. }
  destruct (String.eqb body "NAN") eqn:Enan.
  { apply String.eqb_eq in Enan. subst body. reflexivity. }
  destruct (parse_number body) as [q|] eqn:En; [|discriminate].
  exact (parse_number_literal _ _ En).
Qed.

(** No accepted literal holds one of the letters read as a multiplier. *)
Lemma py_float_no_suffix_letter (s : string) (x : pyfloat) :
  py_float s = Some x ->
  contains_char "K" (upper s) = false /\
  contains_char "M" (upper s) = false /\
  contains_char "B" (upper s) = false.
Proof.
  intros Hf. apply py_float_literal in Hf.
  repeat split; now apply (all_chars_contains literal_char).
Qed.

End PyStrFacts.

(** ** The string key and the pair it encodes *)

Module KeyFacts.
Import Classifier ClassifierFacts NewBuysSells PyStrFacts.

Lemma has_sep_tail (c : ascii) (s : string) :
  has_sep (String c s) = false -> has_sep s = false.
Proof.
  destruct s as [|c2 s]; [reflexivity|].
  change (has_sep (String c (String c2 s)))
    with (Ascii.eqb c "|" && Ascii.eqb c2 "|" || has_sep (String c2 s)).
  intros Hs. now apply orb_false_iff in Hs.
Qed.

Lemma has_sep_head (c c2 : ascii) (s : string) :
  has_sep (String c (String c2 s)) = false ->
  Ascii.eqb c "|" && Ascii.eqb c2 "|" = false.
Proof.
  change (has_sep (String c (String c2 s)))
    with (Ascii.eqb c "|" && Ascii.eqb c2 "|" || has_sep (String c2 s)).
  intros Hs. now apply orb_false_iff in Hs.
Qed.

Lemma ends_bar_tail (c : ascii) (s : string) :
  ends_bar (String c s) = false -> ends_bar s = false.
Proof. destruct s; [reflexivity | auto]. Qed.

(** A separator that starts where a longer fund name is still running
    shows in that name: as a bar at its end or as a separator inside. *)
Lemma overlap_shows (c1 c2 f : string) (a : ascii) :
  ("||" ++ c1)%string = (String a f ++ "||" ++ c2)%string ->
  has_sep (String a f) = true \/ ends_bar (String a f) = true.
Proof.
  simpl. intros Heq. injection Heq as <- Heq.
  destruct f as [|b f]; simpl in Heq.
  - right. reflexivity.
  - left. injection Heq as <- _. reflexivity.
Qed.

Lemma key_injective (f1 f2 c1 c2 : string) :
  has_sep f1 = false -> ends_bar f1 = false ->
  has_sep f2 = false -> ends_bar f2 = false ->
  (f1 ++ "||" ++ c1)%string = (f2 ++ "||" ++ c2)%string ->
  f1 = f2 /\ c1 = c2.
Proof.
  revert f2. induction f1 as [|a f1 IH]; intros [|b f2] Hs1 He1 Hs2 He2 Heq.
  - simpl in Heq. injection Heq as ->. now split.
  - apply overlap_shows in Heq as [Hx|Hx]; congruence.
  - symmetry in Heq. apply overlap_shows in Heq as [Hx|Hx]; congruence.
  - simpl in Heq. injection Heq as -> Heq.
    destruct (IH f2) as [-> ->];
      eauto using has_sep_tail, ends_bar_tail.
Qed.

Lemma split_bars_plain (s : string) :
  has_sep s = false -> forall cur, split_bars s cur = [(cur ++ s)%string].
Proof.
  induction s as [|c s IH]; intros Hs cur.
  - simpl. now rewrite append_nil_r.
  - destruct s as [|c2 s].
    + reflexivity.
    + change (split_bars (String c (String c2 s)) cur)
        with (if Ascii.eqb c "|" && Ascii.eqb c2 "|"
              then cur :: split_bars s EmptyString
              else split_bars (String c2 s) (cur ++ String c EmptyString)).
      rewrite (has_sep_head _ _ _ Hs).
      rewrite IH by exact (has_sep_tail _ _ Hs).
      now rewrite append_assoc.
Qed.

Lemma split_bars_key (f c : string) :
  has_sep f = false -> ends_bar f = false -> has_sep c = false ->
  forall cur,
    split_bars (f ++ "||" ++ c) cur = [(cur ++ f)%string; c].
Proof.
  intros Hf He Hc. induction f as [|a f IH]; intros cur.
  - simpl. rewrite (split_bars_plain c Hc). now rewrite append_nil_r.
  - specialize (IH (has_sep_tail _ _ Hf) (ends_bar_tail _ _ He)).
    destruct f as [|b f].
    + simpl in He.
      change (split_bars (String a "" ++ "||" ++ c) cur)
        with (if Ascii.eqb a "|" && Ascii.eqb "|" "|"
              then cur :: split_bars (String "|" c) EmptyString
              else split_bars ("" ++ "||" ++ c) (cur ++ String a EmptyString)).
      rewrite He. simpl andb. cbv iota.
      rewrite IH. now rewrite append_nil_r.
    + change (split_bars (String a (String b f) ++ "||" ++ c) cur)
        with (if Ascii.eqb a "|" && Ascii.eqb b "|"
              then cur :: split_bars (f ++ "||" ++ c) EmptyString
              else split_bars (String b f ++ "||" ++ c)
                     (cur ++ String a EmptyString)).
      rewrite (has_sep_head _ _ _ Hf). rewrite IH.
      now rewrite append_assoc.
Qed.

Lemma split_position_key_round_trip (f c : string) :
  has_sep f = false -> ends_bar f = false -> has_sep c = false ->
  split_position_key (f ++ "||" ++ c) = Ok (f, c).
Proof.
  intros Hf He Hc. unfold split_position_key.
  now rewrite split_bars_key.
Qed.

(** *** Two key functions that identify the same rows *)

Section SameIdentification.
Context {K1 K2 : Type} `{EqKeyLaws K1} `{EqKeyLaws K2}.
Variable key1 : row -> K1.
Variable key2 : row -> K2.
Variable threshold : Q.
Variable universe : list row.
Hypothesis agree :
  forall r r', In r universe -> In r' universe ->
    (key1 r = key1 r' <-> key2 r = key2 r').

Lemma keqb_agree (r r' : row) :
  In r universe -> In r' universe ->
  keqb (key1 r) (key1 r') = keqb (key2 r) (key2 r').
Proof.
  intros Hr Hr'. specialize (agree r r' Hr Hr').
  destruct (keqb (key1 r) (key1 r')) eqn:E1,
           (keqb (key2 r) (key2 r')) eqn:E2; try reflexivity.
  - apply keqb_eq in E1. apply agree in E1. apply keqb_eq in E1. congruence.
  - apply keqb_eq in E2. apply agree in E2. apply keqb_eq in E2. congruence.
Qed.

(** Two dicts holding the same rows in the same order, each under its own
    key. *)
Definition same_rows (d1 : dict K1 position) (d2 : dict K2 position) : Prop :=
  exists rs, incl rs universe /\ d1 = map (tag key1) rs /\ d2 = map (tag key2) rs.

Lemma same_rows_setitem d1 d2 (r : row) :
  same_rows d1 d2 -> In r universe ->
  same_rows (dict_setitem (key1 r) (position_of_row r) d1)
            (dict_setitem (key2 r) (position_of_row r) d2).
Proof.
  intros [rs [Hincl [-> ->]]] Hr.
  induction rs as [|r0 rs IH]; simpl.
  - exists [r]. repeat split. intros x [<-|[]]. exact Hr.
  - assert (Hr0 : In r0 universe) by (apply Hincl; now left).
    rewrite <- (keqb_agree r r0 Hr Hr0).
    destruct (keqb (key1 r) (key1 r0)) eqn:E.
    + exists (r :: rs). split.
      * intros x [<-|Hx]; [exact Hr | apply Hincl; now right].
      * unfold tag at 1 3. simpl.
        apply keqb_eq in E. rewrite <- E.
        rewrite <- (proj1 (agree r r0 Hr Hr0) E). now split.
    + destruct IH as [rs' [Hincl' [E1 E2]]].
      { intros x Hx. apply Hincl. now right. }
      exists (r0 :: rs'). split.
      * intros x [<-|Hx]; [exact Hr0 | now apply Hincl'].
      * simpl. rewrite E1, E2. now split.
Qed.

Lemma same_rows_index_from (df : list row) d1 d2 :
  incl df universe -> same_rows d1 d2 ->
  same_rows
    (fold_left (fun positions r =>
                  dict_setitem (key1 r) (position_of_row r) positions) df d1)
    (fold_left (fun positions r =>
                  dict_setitem (key2 r) (position_of_row r) positions) df d2).
Proof.
  revert d1 d2. induction df as [|r df IH]; intros d1 d2 Hincl Hs; simpl.
  - exact Hs.
  - apply IH; [intros x Hx; apply Hincl; now right|].
    apply same_rows_setitem; [exact Hs | apply Hincl; now left].
Qed.

Lemma same_rows_index (df : list row) :
  incl df universe -> same_rows (index_rows key1 df) (index_rows key2 df).
Proof.
  intros Hincl. apply same_rows_index_from; [exact Hincl|].
  exists []. repeat split. intros x [].
Qed.

Lemma same_rows_contains d1 d2 (r : row) :
  same_rows d1 d2 -> In r universe ->
  dict_contains (key1 r) d1 = dict_contains (key2 r) d2.
Proof.
  intros [rs [Hincl [-> ->]]] Hr.
  induction rs as [|r0 rs IH]; simpl; [reflexivity|].
  rewrite <- (keqb_agree r r0 Hr) by (apply Hincl; now left).
  rewrite IH by (intros x Hx; apply Hincl; now right). reflexivity.
Qed.

Lemma same_rows_getitem d1 d2 (r : row) :
  same_rows d1 d2 -> In r universe ->
  dict_getitem d1 (key1 r) = dict_getitem d2 (key2 r).
Proof.
  intros [rs [Hincl [-> ->]]] Hr.
  induction rs as [|r0 rs IH]; simpl; [reflexivity|].
  rewrite <- (keqb_agree r r0 Hr) by (apply Hincl; now left).
  rewrite IH by (intros x Hx; apply Hincl; now right). reflexivity.
Qed.

Lemma flat_map_keys {B : Type} (f1 : K1 -> list B) (f2 : K2 -> list B)
  (rs : list row) :
  (forall r, In r rs -> f1 (key1 r) = f2 (key2 r)) ->
  flat_map f1 (dict_keys (map (tag key1) rs))
  = flat_map f2 (dict_keys (map (tag key2) rs)).
Proof.
  induction rs as [|r rs IH]; intros Hf; simpl; [reflexivity|].
  rewrite Hf by now left.
  f_equal. apply IH. intros; apply Hf; now right.
Qed.

Lemma same_rows_outcome q1 q1' q4 q4' :
  same_rows q1 q1' -> same_rows q4 q4' ->
  outcome threshold q1 q4 = outcome threshold q1' q4'.
Proof.
  intros Hq1 Hq4.
  assert (Hc4 := fun r => same_rows_contains q4 q4' r Hq4).
  assert (Hc1 := fun r => same_rows_contains q1 q1' r Hq1).
  assert (Hg4 := fun r => same_rows_getitem q4 q4' r Hq4).
  assert (Hg1 := fun r => same_rows_getitem q1 q1' r Hq1).
  destruct Hq1 as [rs1 [Hi1 [E1 E1']]], Hq4 as [rs4 [Hi4 [E4 E4']]].
  unfold outcome. f_equal.
  - rewrite E1 at 2. rewrite E1' at 2. apply flat_map_keys.
    intros r Hr. unfold only_in.
    now rewrite Hc4, Hg1 by (apply Hi1; exact Hr).
  - rewrite E4 at 2. rewrite E4' at 2. apply flat_map_keys.
    intros r Hr. unfold only_in.
    now rewrite Hc1, Hg4 by (apply Hi4; exact Hr).
  - rewrite E1 at 2. rewrite E1' at 2. apply flat_map_keys.
    intros r Hr. unfold inc_of.
    now rewrite Hg1, Hg4 by (apply Hi1; exact Hr).
  - rewrite E1 at 2. rewrite E1' at 2. apply flat_map_keys.
    intros r Hr. unfold dec_of.
    now rewrite Hg1, Hg4 by (apply Hi1; exact Hr).
Qed.
End SameIdentification.

Lemma analyze_same_identification
  {K1 K2 : Type} `{EqKeyLaws K1} `{EqKeyLaws K2}
  (key1 : row -> K1) (key2 : row -> K2) (threshold : Q)
  (q1_2025 q4_2024 : list row) :
  (forall r r', In r (q1_2025 ++ q4_2024) -> In r' (q1_2025 ++ q4_2024) ->
     (key1 r = key1 r' <-> key2 r = key2 r')) ->
  analyze key1 threshold q1_2025 q4_2024
  = analyze key2 threshold q1_2025 q4_2024.
Proof.
  intros Hagree. rewrite !analyze_eq. f_equal.
  apply (same_rows_outcome key1 key2 threshold _ Hagree).
  - apply same_rows_index; [exact Hagree|].
    intros x Hx. apply in_or_app. now left.
  - apply same_rows_index; [exact Hagree|].
    intros x Hx. apply in_or_app. now right.
Qed.

(** *** The claim about the key encoding *)

Definition bar_row_left : row := holding_row "A|" "B" 10.
Definition bar_row_right : row := holding_row "A" "|B" 20.

(** C10, as stated, fails: neither name and neither company below contains
    the separator, the pairs differ, and yet the keys are equal, so the
    string-keyed comparison sees one position where the pair-keyed one
    sees two, and the key splits back into the wrong pair. *)
Lemma single_bar_collision :
  has_sep (r_fund_name bar_row_left) = false /\
  has_sep (r_company bar_row_left) = false /\
  has_sep (r_fund_name bar_row_right) = false /\
  has_sep (r_company bar_row_right) = false /\
  pair_key bar_row_left <> pair_key bar_row_right /\
  create_position_key bar_row_left = create_position_key bar_row_right /\
  analyze create_position_key (1 # 2) [bar_row_left; bar_row_right] []
    <> analyze pair_key (1 # 2) [bar_row_left; bar_row_right] [] /\
  split_position_key (create_position_key bar_row_left) = Ok ("A", "|B")%string.
Proof.
  repeat split; discriminate.
Qed.

(** C10, amended. For rows whose fund names and companies contain no
    ["||"] and whose fund names do not end in ["|"], rows with equal keys
    have equal pairs, the string-keyed comparison is the pair-keyed one,
    and every key splits back into its pair; without the precondition
    distinct pairs can share a key, and a key can fail to split. *)
Theorem key_encoding_refines_pairs
  (threshold : Q) (q1_2025 q4_2024 : list row) :
  (forall r, In r (q1_2025 ++ q4_2024) ->
     has_sep (r_fund_name r) = false /\
     has_sep (r_company r) = false /\
     ends_bar (r_fund_name r) = false) ->
  (forall r r', In r (q1_2025 ++ q4_2024) -> In r' (q1_2025 ++ q4_2024) ->
     create_position_key r = create_position_key r' ->
     pair_key r = pair_key r') /\
  analyze create_position_key threshold q1_2025 q4_2024
    = analyze pair_key threshold q1_2025 q4_2024 /\
  (forall r, In r (q1_2025 ++ q4_2024) ->
     split_position_key (create_position_key r)
     = Ok (r_fund_name r, r_company r)) /\
  (exists r r', pair_key r <> pair_key r' /\
                create_position_key r = create_position_key r') /\
  (exists r, split_position_key (create_position_key r) = Raise ValueError).
Proof.
  intros Hclean.
  assert (Hinj : forall r r',
            In r (q1_2025 ++ q4_2024) -> In r' (q1_2025 ++ q4_2024) ->
            create_position_key r = create_position_key r' ->
            pair_key r = pair_key r').
  { intros r r' Hr Hr' Heq.
    destruct (Hclean r Hr) as [Hf [_ He]].
    destruct (Hclean r' Hr') as [Hf' [_ He']].
    unfold create_position_key in Heq.
    destruct (key_injective _ _ _ _ Hf He Hf' He' Heq) as [E1 E2].
    unfold pair_key. now rewrite E1, E2. }
  split; [exact Hinj|]. split; [|split; [|split]].
  - apply analyze_same_identification. intros r r' Hr Hr'. split.
    + now apply Hinj.
    + unfold pair_key, create_position_key. intros [= -> ->]. reflexivity.
  - intros r Hr. destruct (Hclean r Hr) as [Hf [Hc He]].
    now apply split_position_key_round_trip.
  - exists bar_row_left, bar_row_right. split; [discriminate | reflexivity].
  - exists (holding_row "A||B" "C" 10). reflexivity.
Qed.

Lemma key_encoding_refines_pairs_witness :
  analyze create_position_key (1 # 2)
    [holding_row "FundA" "AAPL" 160; holding_row "FundB" "NEW" 50]
    [holding_row "FundA" "AAPL" 100; holding_row "FundA" "XYZ" 100]
  = analyze pair_key (1 # 2)
      [holding_row "FundA" "AAPL" 160; holding_row "FundB" "NEW" 50]
      [holding_row "FundA" "AAPL" 100; holding_row "FundA" "XYZ" 100].
Proof.
  refine (proj1 (proj2 (key_encoding_refines_pairs (1 # 2)
           [holding_row "FundA" "AAPL" 160; holding_row "FundB" "NEW" 50]
           [holding_row "FundA" "AAPL" 100; holding_row "FundA" "XYZ" 100]
           _))).
  simpl. intros r [<-|[<-|[<-|[<-|[]]]]]; repeat split.
Defined.

End KeyFacts.

(** ** The row loader *)

Module LoaderFacts.
Import PyStr Loader.

Lemma parse_rows_from (fund_name : string) (df : list raw_row)
  (holdings_data : list holding) (n : nat) :
  fold_left (row_step fund_name) df (holdings_data, n)
  = (holdings_data ++ flat_map (kept_of fund_name) df,
     (n + List.length (flat_map (kept_of fund_name) df))%nat).
Proof.
  revert holdings_data n.
  induction df as [|r df IH]; intros holdings_data n; simpl.
  - now rewrite app_nil_r, Nat.add_0_r.
  - unfold kept_of at 1 3.
    destruct (process_row fund_name r) as [[h|]|e]; simpl; rewrite IH.
    + rewrite <- app_assoc. simpl. f_equal. lia.
    + reflexivity.
    + reflexivity.
Qed.

(** The loop always completes; each row adds what it adds on its own. *)
Lemma parse_rows_eq (fund_name : string) (df : list raw_row)
  (holdings_data : list holding) :
  parse_rows fund_name df holdings_data
  = (holdings_data ++ flat_map (kept_of fund_name) df,
     List.length (flat_map (kept_of fund_name) df)).
Proof. unfold parse_rows. now rewrite parse_rows_from. Qed.

Lemma kept_of_not_text (fund_name : string) (r : raw_row) :
  (exists x, company_cell r = CNum x) \/ (exists x, ticker_cell r = CNum x) ->
  kept_of fund_name r = [].
Proof.
  unfold kept_of, process_row.
  intros [[x Hx]|[x Hx]]; rewrite Hx; simpl; [reflexivity|].
  now destruct (company_cell r).
Qed.

Definition company_text (r : raw_row) : string :=
  match company_cell r with
  | CStr s => strip s
  | CNum _ => EmptyString
  end.

Lemma kept_of_text (fund_name : string) (r : raw_row) (t : string) :
  ticker_cell r = CStr t ->
  kept_of fund_name r =
  if spec_accepts r then
    [ {| h_fund_name := fund_name;
         h_company := company_text r;
         h_ticker := strip t;
         h_shares := parse_shares (shares_cell r);
         h_value := parse_value (value_cell r) |} ]
  else [].
Proof.
  intros Ht. unfold kept_of, process_row, spec_accepts, company_text.
  rewrite Ht. destruct (company_cell r) as [c|x]; simpl; [|reflexivity].
  rewrite (orb_comm (gt0 (parse_shares _))).
  now destruct (nonempty (strip c) && _).
Qed.

(** *** Rows that fail to parse *)

Definition fund : string := "Sample Fund".

Definition unreadable_value_row : raw_row :=
  {| company_cell := CStr "Acme Corp";
     ticker_cell := CStr "ACME";
     value_cell := CStr "n/a";
     shares_cell := CStr "1,500" |}.

(** C6, as stated, fails: the value of this row cannot be interpreted, yet
    the row enters the snapshot, with a value of 0; and the number handed
    back, 1 here, counts the rows kept, not the rows dropped. *)
Lemma unreadable_value_is_kept :
  unreadable_value unreadable_value_row = true /\
  parse_rows fund [unreadable_value_row] []
  = ([ {| h_fund_name := fund;
          h_company := "Acme Corp";
          h_ticker := "ACME";
          h_shares := Fin 1500;
          h_value := Fin 0 |} ],
     1%nat).
Proof. split; reflexivity. Qed.

(** C6, amended. The loop over the rows always completes, whatever the
    rows: every row adds to the holdings what it adds on its own, a row
    whose company or ticker is not text adds nothing, and the returned
    number is the number of holdings added (there is no count of dropped
    rows); a value or a share count that cannot be read as a number is
    taken as 0 and does not by itself drop the row. *)
Theorem bad_rows_are_skipped
  (fund_name : string) (df : list raw_row) (holdings_data : list holding) :
  parse_rows fund_name df holdings_data
    = (holdings_data ++ flat_map (kept_of fund_name) df,
       List.length (flat_map (kept_of fund_name) df)) /\
  (forall r,
     (exists x, company_cell r = CNum x) \/ (exists x, ticker_cell r = CNum x) ->
     kept_of fund_name r = []) /\
  (forall r, unreadable_value r = true ->
     parse_value (value_cell r) = Fin 0) /\
  (forall s, py_float (remove_char "," s) = None ->
     parse_shares (CStr s) = Fin 0) /\
  (exists r h, unreadable_value r = true /\ kept_of fund_name r = [h]).
Proof.
  split; [apply parse_rows_eq|].
  split; [intros r; apply kept_of_not_text|].
  split; [|split].
  - intros r. unfold unreadable_value, parse_value.
    destruct (value_cell r) as [s|x]; [|discriminate].
    destruct (scaled (strip_symbols s)) as [literal multiplier]. simpl.
    unfold float_or_zero. now destruct (py_float literal).
  - intros s Hs. unfold parse_shares. now rewrite Hs.
  - exists unreadable_value_row. eexists. split; reflexivity.
Qed.

(** *** The acceptance of a row *)

Definition missing_ticker_row : raw_row :=
  {| company_cell := CStr "Apple Inc";
     ticker_cell := CNum NaN;
     value_cell := CNum (Fin 100);
     shares_cell := CNum (Fin 5) |}.

(** C7. The acceptance test of the loader is the claimed one, a company
    that is not blank and a value or a share count above zero, but a row is
    tested only after [.strip()] went through on its ticker cell: this row
    names its company and has a value and a share count above zero, its
    ticker cell is empty in the file (read as NaN), and it is dropped. *)
Theorem missing_ticker_is_dropped :
  spec_accepts missing_ticker_row = true /\
  process_row fund missing_ticker_row = Raise AttributeError /\
  parse_rows fund [missing_ticker_row] [] = ([], 0%nat).
Proof. repeat split. Qed.

(** What the loader makes of a row. A row whose ticker cell is text is
    accepted exactly when its company cell is text that is not blank and
    its parsed value or parsed share count is above zero, and the holding
    then carries the stripped texts and the parsed numbers; a row whose
    ticker cell is not text is dropped; no case raises an error, and the
    snapshot grows by the accepted rows only. *)
Theorem row_is_accepted_iff (fund_name : string) (r : raw_row) :
  kept_of fund_name r =
    match ticker_cell r with
    | CStr t =>
        if spec_accepts r then
          [ {| h_fund_name := fund_name;
               h_company := company_text r;
               h_ticker := strip t;
               h_shares := parse_shares (shares_cell r);
               h_value := parse_value (value_cell r) |} ]
        else []
    | CNum _ => []
    end
  /\ (forall df holdings_data,
        fst (parse_rows fund_name df holdings_data)
        = holdings_data ++ flat_map (kept_of fund_name) df).
Proof.
  split.
  - destruct (ticker_cell r) as [t|x] eqn:Ht.
    + now apply kept_of_text.
    + apply kept_of_not_text. right. now exists x.
  - intros df holdings_data. now rewrite parse_rows_eq.
Qed.

(** *** The text of a market value *)

Import PyStrFacts.

Lemma strip_symbols_app (s t : string) :
  strip_symbols (s ++ t) = (strip_symbols s ++ strip_symbols t)%string.
Proof. unfold strip_symbols. now rewrite !remove_char_app. Qed.

(** The text of a number followed by one letter: what [scaled] makes of it
    when the letter is the first of K, M, B that occurs. *)
Lemma scaled_number (literal : string) (x : pyfloat) :
  py_float literal = Some x ->
  scaled literal = (literal, 1) /\
  scaled (literal ++ "K") = (upper literal, 1000) /\
  scaled (literal ++ "M") = (upper literal, 1000000) /\
  scaled (literal ++ "B") = (upper literal, 1000000000).
Proof.
  intros Hf. destruct (py_float_no_suffix_letter _ _ Hf) as [HK [HM HB]].
  unfold scaled. rewrite !upper_app, !contains_char_app, !remove_char_app.
  rewrite HK, HM, HB. simpl.
  rewrite !append_nil_r.
  rewrite (remove_char_absent _ _ HK), (remove_char_absent _ _ HM),
    (remove_char_absent _ _ HB).
  repeat split.
Qed.

(** C8. Value parsing: the dollar sign and the comma are dropped wherever
    they stand, and a text that reads as the number x once these symbols
    are removed is parsed as x, and as x times 1e3, 1e6 or 1e9 when K, M
    or B follows it. *)
Theorem value_text_is_scaled (body : string) (x : pyfloat) :
  py_float (strip_symbols body) = Some x ->
  parse_value (CStr body) = fmul x 1 /\
  parse_value (CStr (body ++ "K")) = fmul x 1000 /\
  parse_value (CStr (body ++ "M")) = fmul x 1000000 /\
  parse_value (CStr (body ++ "B")) = fmul x 1000000000 /\
  (forall s1 s2 : string,
     parse_value (CStr (s1 ++ "$" ++ s2)) = parse_value (CStr (s1 ++ s2))) /\
  (forall s1 s2 : string,
     parse_value (CStr (s1 ++ "," ++ s2)) = parse_value (CStr (s1 ++ s2))).
Proof.
  intros Hf.
  destruct (scaled_number _ _ Hf) as [H1 [HK [HM HB]]].
  assert (Hup : py_float (upper (strip_symbols body)) = Some x)
    by now rewrite py_float_upper.
  unfold parse_value. rewrite !strip_symbols_app.
  change (strip_symbols "K") with "K"%string.
  change (strip_symbols "M") with "M"%string.
  change (strip_symbols "B") with "B"%string.
  rewrite H1, HK, HM, HB. unfold float_or_zero. rewrite Hf, Hup.
  repeat split.
  - intros s1 s2. unfold strip_symbols.
    repeat (rewrite !remove_char_app; simpl). reflexivity.
  - intros s1 s2. unfold strip_symbols.
    repeat (rewrite !remove_char_app; simpl). reflexivity.
Qed.

(** The scenario of the specification: ["$1,200K"] is 1,200,000. *)
Lemma value_text_is_scaled_witness :
  parse_value (CStr "$1,200K") = Fin 1200000.
Proof.
  exact (proj1 (proj2 (value_text_is_scaled "$1,200" (Fin 1200) eq_refl))).
Defined.

Example value_in_millions : parse_value (CStr "2.5M") = Fin (25000000 # 10).
Proof. reflexivity. Qed.

End LoaderFacts.

(** ** The order of the aggregates *)

Module SummaryFacts.
Import Classifier ClassifierFacts Summary.

Section SortFacts.
Context {A : Type}.
Variable lt : A -> A -> bool.
Hypothesis lt_asym : forall a b, lt a b = true -> lt b a = false.
Hypothesis ge_trans :
  forall a b c, lt a b = false -> lt b c = false -> lt a c = false.

Let ge (a b : A) : Prop := lt a b = false.

Lemma insert_desc_Forall (P : A -> Prop) (x : A) (l : list A) :
  P x -> Forall P l -> Forall P (insert_desc lt x l).
Proof.
  intros Hx Hl. induction Hl as [|y l Hy Hl IH]; simpl.
  - now constructor.
  - destruct (lt x y); repeat constructor; assumption.
Qed.

Lemma insert_desc_sorted (x : A) (l : list A) :
  StronglySorted ge l -> StronglySorted ge (insert_desc lt x l).
Proof.
  induction 1 as [|y l Hs IH Hy]; simpl.
  - repeat constructor.
  - destruct (lt x y) eqn:E.
    + constructor; [exact IH|].
      apply insert_desc_Forall; [exact (lt_asym _ _ E) | exact Hy].
    + constructor; [now constructor|].
      constructor; [exact E|].
      eapply Forall_impl; [|exact Hy].
      intros z Hz. exact (ge_trans _ _ _ E Hz).
Qed.

Lemma sort_desc_sorted (l : list A) : StronglySorted ge (sort_desc lt l).
Proof.
  induction l as [|x l IH]; simpl; [constructor|].
  now apply insert_desc_sorted.
Qed.
End SortFacts.

Lemma Forall_firstn {A : Type} (P : A -> Prop) (n : nat) (l : list A) :
  Forall P l -> Forall P (firstn n l).
Proof.
  revert l. induction n as [|n IH]; intros l Hl; simpl; [constructor|].
  destruct Hl; constructor; auto.
Qed.

Lemma StronglySorted_firstn {A : Type} (R : A -> A -> Prop) (n : nat)
  (l : list A) :
  StronglySorted R l -> StronglySorted R (firstn n l).
Proof.
  revert l. induction n as [|n IH]; intros l Hl; simpl; [constructor|].
  destruct Hl as [|a l Hl Ha]; constructor; auto using Forall_firstn.
Qed.

Lemma StronglySorted_map {A B : Type} (R : B -> B -> Prop) (f : A -> B)
  (l : list A) :
  StronglySorted (fun a b => R (f a) (f b)) l -> StronglySorted R (map f l).
Proof.
  induction 1 as [|a l Hl IH Ha]; simpl; constructor; [exact IH|].
  apply Forall_map. exact Ha.
Qed.

Lemma StronglySorted_impl {A : Type} (R R' : A -> A -> Prop) (l : list A) :
  (forall a b, R a b -> R' a b) ->
  StronglySorted R l -> StronglySorted R' l.
Proof.
  intros Himpl. induction 1 as [|a l Hl IH Ha]; constructor; [exact IH|].
  eapply Forall_impl; [|exact Ha]. auto.
Qed.

(** The tuple comparison of the sort is the claimed order. *)
Lemma tuple_lt_false (a b : nat * Q) : tuple_lt a b = false <-> key_ge a b.
Proof.
  destruct a as [n x], b as [m y]. unfold tuple_lt, key_ge. simpl.
  destruct (Nat.eqb_spec n m) as [->|Hne].
  - unfold ltb. rewrite negb_false_iff, Qle_bool_iff. split.
    + intros Hle. right. now split.
    + intros [Hlt|[_ Hle]]; [lia | exact Hle].
  - rewrite Nat.ltb_ge. split.
    + intros Hle. left. lia.
    + intros [Hlt|[Heq _]]; lia.
Qed.

Lemma tuple_lt_asym (a b : nat * Q) :
  tuple_lt a b = true -> tuple_lt b a = false.
Proof.
  destruct a as [n x], b as [m y]. unfold tuple_lt. simpl.
  rewrite (Nat.eqb_sym m n).
  destruct (Nat.eqb_spec n m) as [->|Hne].
  - unfold ltb. rewrite negb_true_iff, negb_false_iff.
    intros Hn. apply Qle_bool_iff.
    destruct (Qle_bool y x) eqn:E; [discriminate|].
    apply Qlt_le_weak, Qnot_le_lt. intros Hle.
    apply Qle_bool_iff in Hle. congruence.
  - rewrite Nat.ltb_lt, Nat.ltb_ge. lia.
Qed.

Lemma key_ge_trans (a b c : nat * Q) : key_ge a b -> key_ge b c -> key_ge a c.
Proof.
  unfold key_ge.
  intros [Hab|[Eab Hab]] [Hbc|[Ebc Hbc]].
  - left. lia.
  - left. lia.
  - left. lia.
  - right. split; [congruence | exact (Qle_trans _ _ _ Hbc Hab)].
Qed.

Lemma nat_ltb_asym (a b : string * nat) :
  Nat.ltb (snd a) (snd b) = true -> Nat.ltb (snd b) (snd a) = false.
Proof. rewrite Nat.ltb_lt, Nat.ltb_ge. lia. Qed.

Lemma nat_ge_trans (a b c : string * nat) :
  Nat.ltb (snd a) (snd b) = false -> Nat.ltb (snd b) (snd c) = false ->
  Nat.ltb (snd a) (snd c) = false.
Proof. rewrite !Nat.ltb_ge. lia. Qed.

(** [most_common] lists the larger counts first. *)
Lemma most_common_sorted (n : nat) (c : dict string nat) :
  StronglySorted (fun a b => (snd b <= snd a)%nat) (most_common n c).
Proof.
  unfold most_common. apply StronglySorted_firstn.
  eapply StronglySorted_impl;
    [|exact (sort_desc_sorted _ nat_ltb_asym nat_ge_trans c)].
  intros a b. simpl. now rewrite Nat.ltb_ge.
Qed.

Lemma detail_of_count (positions : list pos_dict) (category_name : string)
  (entry : string * nat) :
  d_funds_count (detail_of positions category_name entry) = snd entry.
Proof. now destruct entry. Qed.

(** *** The claim about the order *)

Definition one_buy (fund company : string) (v : Q) : pos_dict :=
  Plain (position_of_row (holding_row fund company v)).

Definition two_buys : list pos_dict :=
  [ one_buy "FundA" "Alpha" 1; one_buy "FundB" "Beta" 2 ].

(** C9, as stated, fails for the lists of [create_detailed_analysis]: two
    companies bought by one fund each come out in the order met, the
    smaller total first. *)
Lemma detailed_analysis_ignores_totals :
  map detail_key (create_detailed_analysis two_buys (Counter two_buys) "new_buys")
    = [(1%nat, 1); (1%nat, 2)] /\
  ~ StronglySorted (fun a b => key_ge (detail_key a) (detail_key b))
      (create_detailed_analysis two_buys (Counter two_buys) "new_buys").
Proof.
  split; [reflexivity|].
  intros Hs. apply StronglySorted_inv in Hs as [_ Hs].
  apply Forall_inv in Hs. unfold key_ge in Hs. simpl in Hs.
  destruct Hs as [Hlt|[_ Hle]]; [lia|].
  apply Qle_bool_iff in Hle. discriminate.
Qed.

(** C9, amended. The aggregates of [create_enhanced_summary] are in
    descending order of (holder count, total value): more holders first,
    and among equal holder counts the larger total first. Those of
    [create_detailed_analysis] are in descending order of holder count
    only. *)
Theorem aggregates_are_ordered
  (positions : list pos_dict) (company_counter : dict string nat)
  (category_name : string) :
  StronglySorted (fun a b => key_ge (sort_key a) (sort_key b))
    (create_enhanced_summary positions category_name) /\
  StronglySorted (fun a b => (d_funds_count b <= d_funds_count a)%nat)
    (create_detailed_analysis positions company_counter category_name).
Proof.
  split.
  - unfold create_enhanced_summary. apply StronglySorted_firstn.
    eapply StronglySorted_impl; [|apply sort_desc_sorted].
    + intros a b Hab. apply tuple_lt_false. exact Hab.
    + intros a b. apply tuple_lt_asym.
    + intros a b c. unfold sort_key_lt. rewrite !tuple_lt_false.
      apply key_ge_trans.
  - unfold create_detailed_analysis.
    apply StronglySorted_map.
    eapply StronglySorted_impl; [|apply most_common_sorted].
    intros a b Hab. now rewrite !detail_of_count.
Qed.

(** Two companies with one holder each: the larger total comes first. *)
Example enhanced_summary_breaks_ties :
  map sort_key (create_enhanced_summary two_buys "new_buys")
  = [(1%nat, 2); (1%nat, 1)].
Proof. reflexivity. Qed.

End SummaryFacts.

(** ** More on the comparison of two quarters *)

Module ComparisonFacts.
Import Classifier ClassifierFacts.

(** *** Arithmetic of the percentage *)

Lemma div_times (d v : Q) : 0 < v -> d / v * v == d.
Proof.
  intros Hv. field. intros E. rewrite E in Hv. now apply Qlt_irrefl in Hv.
Qed.

Lemma lt_div_iff (c d v : Q) : 0 < v -> (c < d / v <-> c * v < d).
Proof.
  intros Hv. split.
  - intros Hlt. rewrite <- (div_times d v Hv).
    now apply Qmult_lt_compat_r.
  - now apply Qlt_shift_div_l.
Qed.

Lemma div_lt_iff (c d v : Q) : 0 < v -> (d / v < c <-> d < c * v).
Proof.
  intros Hv. split.
  - intros Hlt. rewrite <- (div_times d v Hv).
    now apply Qmult_lt_compat_r.
  - now apply Qlt_shift_div_r.
Qed.

Lemma is_increase_half (p1 p4 : position) :
  is_increase (1 # 2) p1 p4 = true
  <-> 0 < value p4 /\ (1 # 2) * value p4 < value p1 - value p4.
Proof.
  unfold is_increase. rewrite andb_true_iff, !gtb_lt. split.
  - intros [Hv Hp]. split; [exact Hv|]. now apply lt_div_iff.
  - intros [Hv Hp]. split; [exact Hv|]. now apply lt_div_iff.
Qed.

Lemma is_decrease_half (p1 p4 : position) :
  is_decrease (1 # 2) p1 p4 = true
  <-> 0 < value p4 /\ value p1 - value p4 < - (1 # 2) * value p4.
Proof.
  split.
  - intros Hd.
    assert (Hv : 0 < value p4).
    { unfold is_decrease in Hd. apply andb_true_iff in Hd as [Hd _].
      apply andb_true_iff in Hd as [Hd _]. now apply gtb_lt. }
    split; [exact Hv|].
    apply (is_decrease_iff (1 # 2)) in Hd; [|lra|exact Hv].
    now apply div_lt_iff in Hd.
  - intros [Hv Hp]. apply (is_decrease_iff (1 # 2)); [lra | exact Hv |].
    now apply div_lt_iff.
Qed.

(** *** A snapshot compared with itself *)

Section Unchanged.
Context {K : Type} `{EqKeyLaws K}.
Variable threshold : Q.
Hypothesis threshold_nonneg : 0 <= threshold.

Lemma no_change_no_increase (p : position) : is_increase threshold p p = false.
Proof.
  unfold is_increase. destruct (gtb (value p) 0) eqn:Hg; [|reflexivity].
  apply gtb_lt in Hg. simpl.
  destruct (gtb _ threshold) eqn:E; [|reflexivity].
  apply gtb_lt, lt_div_iff in E; [|exact Hg]. nra.
Qed.

Lemma no_change_no_decrease (p : position) : is_decrease threshold p p = false.
Proof.
  destruct (is_decrease threshold p p) eqn:E; [|reflexivity].
  assert (Hg : 0 < value p).
  { unfold is_decrease in E. apply andb_true_iff in E as [E _].
    apply andb_true_iff in E as [E _]. now apply gtb_lt. }
  apply is_decrease_iff in E; [|assumption|assumption].
  apply div_lt_iff in E; [|exact Hg]. nra.
Qed.

Lemma outcome_same (q : dict K position) :
  outcome threshold q q =
  {| new_buys := []; position_exits := [];
     position_increases := []; position_decreases := [] |}.
Proof.
  unfold outcome.
  assert (Honly : forall k, In k (dict_keys q) -> only_in q q k = []).
  { intros k Hk. unfold only_in.
    apply dict_contains_In in Hk. now rewrite Hk. }
  rewrite !(flat_map_nil (only_in q q)) by exact Honly.
  rewrite (flat_map_nil (inc_of threshold q q)).
  2:{ intros k _. unfold inc_of. destruct (dict_getitem q k); [|reflexivity].
      now rewrite no_change_no_increase. }
  rewrite (flat_map_nil (dec_of threshold q q)).
  2:{ intros k _. unfold dec_of. destruct (dict_getitem q k); [|reflexivity].
      now rewrite no_change_no_decrease. }
  reflexivity.
Qed.
End Unchanged.

Definition two_funds : list row :=
  [ holding_row "FundA" "AAPL" 160; holding_row "FundB" "NEW" 50 ].

(** X1. A snapshot compared with itself, rows repeating a key or not,
    reports nothing: no new buy, no exit, no increase, no decrease, for
    any threshold that is not negative. *)
Theorem same_snapshot_reports_nothing (threshold : Q) (snapshot : list row) :
  0 <= threshold ->
  analyze create_position_key threshold snapshot snapshot
  = Ok {| new_buys := []; position_exits := [];
          position_increases := []; position_decreases := [] |}.
Proof.
  intros Ht. rewrite analyze_eq. f_equal. now apply outcome_same.
Qed.

Lemma same_snapshot_reports_nothing_witness :
  analyze_buys_sells_increases two_funds two_funds
  = Ok {| new_buys := []; position_exits := [];
          position_increases := []; position_decreases := [] |}.
Proof.
  apply (same_snapshot_reports_nothing (1 # 2) two_funds). discriminate.
Defined.

(** *** The two quarters exchanged *)

(** X2. Exchanging the two quarters exchanges new buys and exits, and a
    reported decrease whose current value is above zero is reported as an
    increase in the other direction. *)
Theorem exchanged_quarters (q1_2025 q4_2024 : list row) :
  exists a b,
    analyze_buys_sells_increases q1_2025 q4_2024 = Ok a /\
    analyze_buys_sells_increases q4_2024 q1_2025 = Ok b /\
    new_buys a = position_exits b /\
    position_exits a = new_buys b /\
    forall k p1,
      dict_getitem (index_rows create_position_key q1_2025) k = Ok p1 ->
      0 < value p1 ->
      In k (decreased_keys create_position_key a) ->
      In k (increased_keys create_position_key b).
Proof.
  pose proof (index_rows_keyed create_position_key q1_2025) as Hk1.
  pose proof (index_rows_keyed create_position_key q4_2024) as Hk4.
  eexists. eexists.
  split; [apply analyze_eq|]. split; [apply analyze_eq|].
  split; [reflexivity|]. split; [reflexivity|].
  intros k p1 Hp1 Hpos Hdec.
  assert (Hc4 : dict_contains k (index_rows create_position_key q4_2024) = true).
  { unfold decreased_keys, outcome in Hdec. simpl in Hdec.
    rewrite dec_of_keys in Hdec by assumption.
    apply filter_In in Hdec as [_ Hdec].
    exact (dec_test_both _ _ _ _ Hdec). }
  destruct (dict_contains_getitem _ _ Hc4) as [p4 Hp4].
  apply (decreased_at create_position_key (1 # 2) _ _ Hk4 k p1 p4 Hp1 Hp4)
    in Hdec.
  apply (increased_at create_position_key (1 # 2) _ _ Hk4 k p4 p1 Hp4 Hp1).
  apply is_decrease_half in Hdec as [Hv4 Hd].
  apply is_increase_half. split; [exact Hpos | lra].
Qed.

(** An increase between 50% and 100% is no decrease the other way round. *)
Example increase_is_not_undone :
  analyze_buys_sells_increases
    [holding_row "FundA" "AAPL" 100] [holding_row "FundA" "AAPL" 160]
  = Ok {| new_buys := []; position_exits := [];
          position_increases := []; position_decreases := [] |}.
Proof. reflexivity. Qed.

(** *** Counting positions *)

Section Counting.
Context {K : Type} `{EqKeyLaws K}.
Variable key_of : row -> K.
Variable threshold : Q.

Lemma only_in_length (here there : dict K position) :
  keyed key_of here ->
  List.length (flat_map (only_in here there) (dict_keys here))
  = List.length
      (filter (fun k => negb (dict_contains k there)) (dict_keys here)).
Proof.
  intros Hk.
  rewrite <- (only_in_keys key_of here there (dict_keys here) Hk (incl_refl _)).
  now rewrite length_map.
Qed.

(** The keys two dicts share are as many seen from either side. *)
Lemma common_keys_length (q1 q4 : dict K position) :
  NoDup (dict_keys q1) -> NoDup (dict_keys q4) ->
  List.length (filter (fun k => dict_contains k q4) (dict_keys q1))
  = List.length (filter (fun k => dict_contains k q1) (dict_keys q4)).
Proof.
  intros Hn1 Hn4. apply Permutation_length.
  apply NoDup_Permutation; try now apply NoDup_filter.
  intros k. rewrite !filter_In, !dict_contains_In. tauto.
Qed.

Lemma filter_split_length {A : Type} (f : A -> bool) (l : list A) :
  List.length l
  = (List.length (filter (fun x => negb (f x)) l)
     + List.length (filter f l))%nat.
Proof. rewrite <- (filter_length f l). lia. Qed.

Lemma position_counts (q1 q4 : dict K position) :
  keyed key_of q1 -> keyed key_of q4 ->
  NoDup (dict_keys q1) -> NoDup (dict_keys q4) ->
  (List.length (new_buys (outcome threshold q1 q4)) + List.length q4
   = List.length (position_exits (outcome threshold q1 q4)) + List.length q1)%nat.
Proof.
  intros Hk1 Hk4 Hn1 Hn4. unfold outcome. simpl.
  rewrite !only_in_length by assumption.
  assert (E1 : List.length q1 = List.length (dict_keys q1))
    by (unfold dict_keys; now rewrite length_map).
  assert (E4 : List.length q4 = List.length (dict_keys q4))
    by (unfold dict_keys; now rewrite length_map).
  rewrite E1, E4.
  pose proof (filter_split_length (fun k => dict_contains k q4) (dict_keys q1))
    as S1.
  pose proof (filter_split_length (fun k => dict_contains k q1) (dict_keys q4))
    as S4.
  pose proof (common_keys_length q1 q4 Hn1 Hn4) as C.
  lia.
Qed.
End Counting.

(** X3. The positions reconcile: with rows of pairwise distinct keys in
    each file, the number of new buys plus the number of prior rows equals
    the number of exits plus the number of current rows. *)
Theorem positions_reconcile (threshold : Q) (q1_2025 q4_2024 : list row) :
  NoDup (map create_position_key q1_2025) ->
  NoDup (map create_position_key q4_2024) ->
  exists a,
    analyze create_position_key threshold q1_2025 q4_2024 = Ok a /\
    (List.length (new_buys a) + List.length q4_2024
     = List.length (position_exits a) + List.length q1_2025)%nat.
Proof.
  intros Hn1 Hn4. eexists. split; [apply analyze_eq|].
  pose proof (position_counts create_position_key threshold
                (index_rows create_position_key q1_2025)
                (index_rows create_position_key q4_2024)
                (index_rows_keyed _ _) (index_rows_keyed _ _)
                (index_rows_NoDup _ _) (index_rows_NoDup _ _)) as P.
  rewrite (index_rows_distinct _ q1_2025 Hn1) in P |- *.
  rewrite (index_rows_distinct _ q4_2024 Hn4) in P |- *.
  rewrite !length_map in P. exact P.
Qed.

Lemma positions_reconcile_witness :
  exists a,
    analyze create_position_key (1 # 2) two_funds
      [holding_row "FundA" "AAPL" 100; holding_row "FundA" "XYZ" 100;
       holding_row "FundC" "OLD" 7] = Ok a /\
    (List.length (new_buys a) + 3 = List.length (position_exits a) + 2)%nat.
Proof.
  apply (positions_reconcile (1 # 2) two_funds
           [holding_row "FundA" "AAPL" 100; holding_row "FundA" "XYZ" 100;
            holding_row "FundC" "OLD" 7]).
  - repeat constructor; simpl; intuition discriminate.
  - repeat constructor; simpl; intuition discriminate.
Defined.

(** *** What the change records hold *)

Definition sound_increase (c : change) : Prop :=
  0 < q4_value c /\
  1 # 2 < pct_change c /\
  0 < dollar_change c /\
  dollar_change c = q1_value c - q4_value c /\
  pct_change c = dollar_change c / q4_value c /\
  value (base c) = q1_value c.

Definition sound_decrease (c : change) : Prop :=
  0 < q4_value c /\
  pct_change c < - (1 # 2) /\
  dollar_change c < 0 /\
  dollar_change c = q1_value c - q4_value c /\
  pct_change c = dollar_change c / q4_value c /\
  value (base c) = q4_value c.

Lemma sound_records_of_outcome (q1_2025 q4_2024 : list row) :
  let a := outcome (1 # 2) (index_rows create_position_key q1_2025)
             (index_rows create_position_key q4_2024) in
  Forall sound_increase (position_increases a) /\
  Forall sound_decrease (position_decreases a).
Proof.
  unfold outcome. simpl. split.
  - apply Forall_forall. intros c Hc.
    apply in_flat_map in Hc as [k [_ Hc]]. unfold inc_of in Hc.
    destruct (dict_getitem _ k) as [p1|]; [|contradiction].
    destruct (dict_getitem _ k) as [p4|]; [|contradiction].
    destruct (is_increase (1 # 2) p1 p4) eqn:E; [|contradiction].
    destruct Hc as [<-|[]]. apply is_increase_half in E as [Hv Hp].
    unfold sound_increase, change_of. simpl. repeat split; try assumption.
    + apply lt_div_iff; assumption.
    + lra.
  - apply Forall_forall. intros c Hc.
    apply in_flat_map in Hc as [k [_ Hc]]. unfold dec_of in Hc.
    destruct (dict_getitem _ k) as [p1|]; [|contradiction].
    destruct (dict_getitem _ k) as [p4|]; [|contradiction].
    destruct (is_decrease (1 # 2) p1 p4) eqn:E; [|contradiction].
    destruct Hc as [<-|[]]. apply is_decrease_half in E as [Hv Hp].
    unfold sound_decrease, change_of. simpl. repeat split; try assumption.
    + apply div_lt_iff; assumption.
    + lra.
Qed.

(** X4. Every reported increase has a prior value above zero, a
    percentage above 0.5 and a dollar change above zero; every reported
    decrease has a prior value above zero, a percentage below -0.5 and a
    dollar change below zero; in both the dollar change is the difference
    of the two values and the percentage is its ratio to the prior value.
    An increase carries the current position, a decrease the prior one. *)
Theorem change_records_are_sound (q1_2025 q4_2024 : list row) :
  exists a,
    analyze_buys_sells_increases q1_2025 q4_2024 = Ok a /\
    Forall sound_increase (position_increases a) /\
    Forall sound_decrease (position_decreases a).
Proof.
  eexists. split; [apply analyze_eq|].
  apply sound_records_of_outcome.
Qed.

(** *** The comparison of the enhanced report *)

(** X5. The comparison of the enhanced master report returns the new
    buys, the exits and the increases of the comprehensive comparison, in
    the same order; it keeps no decreases. *)
Theorem enhanced_report_agrees (q1_2025 q4_2024 : list row) :
  exists a e,
    analyze_buys_sells_increases q1_2025 q4_2024 = Ok a /\
    Enhanced.position_changes q1_2025 q4_2024 = Ok e /\
    Enhanced.e_new_buys e = new_buys a /\
    Enhanced.e_position_exits e = position_exits a /\
    Enhanced.e_position_increases e = position_increases a.
Proof.
  eexists. eexists. split; [apply analyze_eq|].
  split; [apply position_changes_eq|]. repeat split.
Qed.

(** *** The order of the rows *)

Section RowOrder.
Context {K : Type} `{EqKeyLaws K}.
Variable key_of : row -> K.
Variable threshold : Q.

Lemma tagged_contains_perm (rows rows' : list row) (k : K) :
  Permutation rows rows' ->
  dict_contains k (map (tag key_of) rows)
  = dict_contains k (map (tag key_of) rows').
Proof.
  intros Hp.
  destruct (dict_contains k (map (tag key_of) rows)) eqn:E1,
           (dict_contains k (map (tag key_of) rows')) eqn:E2;
    try reflexivity; exfalso.
  - apply dict_contains_In in E1. apply dict_contains_false in E2.
    rewrite dict_keys_tag in E1, E2. apply E2.
    eapply Permutation_in; [apply Permutation_map; exact Hp | exact E1].
  - apply dict_contains_In in E2. apply dict_contains_false in E1.
    rewrite dict_keys_tag in E1, E2. apply E1.
    eapply Permutation_in;
      [apply Permutation_map, Permutation_sym; exact Hp | exact E2].
Qed.

Lemma tagged_getitem_perm (rows rows' : list row) (k : K) :
  NoDup (map key_of rows) -> Permutation rows rows' ->
  dict_getitem (map (tag key_of) rows) k
  = dict_getitem (map (tag key_of) rows') k.
Proof.
  intros Hnd Hp.
  destruct (dict_contains k (map (tag key_of) rows)) eqn:E.
  - destruct (dict_contains_getitem _ _ E) as [v Hv]. rewrite Hv.
    symmetry. apply dict_getitem_NoDup.
    + rewrite dict_keys_tag.
      eapply Permutation_NoDup; [apply Permutation_map; exact Hp | exact Hnd].
    + eapply Permutation_in; [apply Permutation_map; exact Hp|].
      now apply dict_getitem_In.
  - rewrite (dict_getitem_absent _ _ E).
    rewrite (tagged_contains_perm rows rows' k Hp) in E.
    now rewrite (dict_getitem_absent _ _ E).
Qed.

Lemma outcome_perm (q1 q1' q4 q4' : list row) :
  NoDup (map key_of q1) -> NoDup (map key_of q4) ->
  Permutation q1 q1' -> Permutation q4 q4' ->
  let a := outcome threshold (map (tag key_of) q1) (map (tag key_of) q4) in
  let a' := outcome threshold (map (tag key_of) q1') (map (tag key_of) q4') in
  Permutation (new_buys a) (new_buys a') /\
  Permutation (position_exits a) (position_exits a') /\
  Permutation (position_increases a) (position_increases a') /\
  Permutation (position_decreases a) (position_decreases a').
Proof.
  intros Hn1 Hn4 Hp1 Hp4. simpl. rewrite !dict_keys_tag.
  assert (Hk1 : Permutation (map key_of q1) (map key_of q1'))
    by now apply Permutation_map.
  assert (Hk4 : Permutation (map key_of q4) (map key_of q4'))
    by now apply Permutation_map.
  repeat split.
  - rewrite Hk1. erewrite flat_map_ext; [reflexivity|].
    intros k. unfold only_in.
    now rewrite (tagged_contains_perm q4 q4' k Hp4),
      (tagged_getitem_perm q1 q1' k Hn1 Hp1).
  - rewrite Hk4. erewrite flat_map_ext; [reflexivity|].
    intros k. unfold only_in.
    now rewrite (tagged_contains_perm q1 q1' k Hp1),
      (tagged_getitem_perm q4 q4' k Hn4 Hp4).
  - rewrite Hk1. erewrite flat_map_ext; [reflexivity|].
    intros k. unfold inc_of.
    now rewrite (tagged_getitem_perm q1 q1' k Hn1 Hp1),
      (tagged_getitem_perm q4 q4' k Hn4 Hp4).
  - rewrite Hk1. erewrite flat_map_ext; [reflexivity|].
    intros k. unfold dec_of.
    now rewrite (tagged_getitem_perm q1 q1' k Hn1 Hp1),
      (tagged_getitem_perm q4 q4' k Hn4 Hp4).
Qed.
End RowOrder.

(** X6. The order of the rows does not matter: when no key repeats within
    a file, reordering the rows of either file reorders the four lists and
    changes nothing else. *)
Theorem row_order_is_irrelevant
  (threshold : Q) (q1_2025 q1_reordered q4_2024 q4_reordered : list row) :
  NoDup (map create_position_key q1_2025) ->
  NoDup (map create_position_key q4_2024) ->
  Permutation q1_2025 q1_reordered ->
  Permutation q4_2024 q4_reordered ->
  exists a a',
    analyze create_position_key threshold q1_2025 q4_2024 = Ok a /\
    analyze create_position_key threshold q1_reordered q4_reordered = Ok a' /\
    Permutation (new_buys a) (new_buys a') /\
    Permutation (position_exits a) (position_exits a') /\
    Permutation (position_increases a) (position_increases a') /\
    Permutation (position_decreases a) (position_decreases a').
Proof.
  intros Hn1 Hn4 Hp1 Hp4. eexists. eexists.
  split; [apply analyze_eq|]. split; [apply analyze_eq|].
  assert (Hn1' : NoDup (map create_position_key q1_reordered))
    by (eapply Permutation_NoDup; [apply Permutation_map; exact Hp1 | exact Hn1]).
  assert (Hn4' : NoDup (map create_position_key q4_reordered))
    by (eapply Permutation_NoDup; [apply Permutation_map; exact Hp4 | exact Hn4]).
  rewrite !index_rows_distinct by assumption.
  now apply outcome_perm.
Qed.

Lemma row_order_is_irrelevant_witness :
  exists a a',
    analyze create_position_key (1 # 2) two_funds
      [holding_row "FundA" "AAPL" 100; holding_row "FundA" "XYZ" 100] = Ok a /\
    analyze create_position_key (1 # 2) (rev two_funds)
      [holding_row "FundA" "XYZ" 100; holding_row "FundA" "AAPL" 100] = Ok a' /\
    Permutation (new_buys a) (new_buys a') /\
    Permutation (position_exits a) (position_exits a') /\
    Permutation (position_increases a) (position_increases a') /\
    Permutation (position_decreases a) (position_decreases a').
Proof.
  apply (row_order_is_irrelevant (1 # 2) two_funds (rev two_funds)
           [holding_row "FundA" "AAPL" 100; holding_row "FundA" "XYZ" 100]
           [holding_row "FundA" "XYZ" 100; holding_row "FundA" "AAPL" 100]).
  - repeat constructor; simpl; intuition discriminate.
  - repeat constructor; simpl; intuition discriminate.
  - apply perm_swap.
  - apply perm_swap.
Defined.

(** With a key repeated in a file the order does matter: the later row
    decides. *)
Example repeated_key_order_matters :
  analyze_buys_sells_increases
    [holding_row "FundA" "AAPL" 100; holding_row "FundA" "AAPL" 250] []
  <> analyze_buys_sells_increases
       [holding_row "FundA" "AAPL" 250; holding_row "FundA" "AAPL" 100] [].
Proof. discriminate. Qed.

End ComparisonFacts.

(** ** The aggregates handed to the reports *)

Module ReportFacts.
Import Classifier ClassifierFacts Summary SummaryFacts Reports ComparisonFacts.

(** *** Sums *)

Definition qsum (xs : list Q) : Q := fold_right Qplus 0 xs.

Lemma py_sum_from (xs : list Q) (a : Q) : fold_left Qplus xs a == a + qsum xs.
Proof.
  revert a. induction xs as [|x xs IH]; intros a; simpl.
  - ring.
  - rewrite IH. ring.
Qed.

Lemma py_sum_qsum (xs : list Q) : py_sum xs == qsum xs.
Proof. unfold py_sum. rewrite py_sum_from. ring. Qed.

Lemma qsum_ext {A : Type} (f g : A -> Q) (l : list A) :
  (forall x, In x l -> f x == g x) -> qsum (map f l) == qsum (map g l).
Proof.
  induction l as [|x l IH]; intros Hfg; simpl; [reflexivity|].
  rewrite (Hfg x) by now left.
  rewrite IH by (intros; apply Hfg; now right). reflexivity.
Qed.

Lemma qsum_plus {A : Type} (f g : A -> Q) (l : list A) :
  qsum (map (fun x => f x + g x) l) == qsum (map f l) + qsum (map g l).
Proof.
  induction l as [|x l IH]; simpl; [ring|]. rewrite IH. ring.
Qed.

Lemma qsum_zero {A : Type} (l : list A) : qsum (map (fun _ => 0) l) == 0.
Proof. induction l as [|x l IH]; simpl; [reflexivity|]. rewrite IH. ring. Qed.

Lemma qsum_perm (l l' : list Q) : Permutation l l' -> qsum l == qsum l'.
Proof.
  induction 1 as [|x l l' _ IH|x y l|l l' l'' _ IH1 _ IH2]; simpl.
  - reflexivity.
  - now rewrite IH.
  - ring.
  - now rewrite IH1.
Qed.

(** One key of a duplicate-free list picks itself out. *)
Lemma qsum_pick (c : string) (x : Q) (ks : list string) :
  NoDup ks -> In c ks ->
  qsum (map (fun k => if String.eqb c k then x else 0) ks) == x.
Proof.
  induction 1 as [|k ks Hk Hnd IH]; intros Hin; simpl; [contradiction|].
  destruct (String.eqb_spec c k) as [->|Hne].
  - rewrite (qsum_ext _ (fun _ => 0)).
    + rewrite qsum_zero. ring.
    + intros y Hy. destruct (String.eqb_spec k y) as [->|_];
        [contradiction | reflexivity].
  - destruct Hin as [E|Hin]; [congruence|]. rewrite IH by assumption. ring.
Qed.

Lemma nsum_pick (c : string) (ks : list string) :
  NoDup ks -> In c ks ->
  list_sum (map (fun k => if String.eqb c k then 1%nat else 0%nat) ks) = 1%nat.
Proof.
  induction 1 as [|k ks Hk Hnd IH]; intros Hin; simpl; [contradiction|].
  destruct (String.eqb_spec c k) as [->|Hne].
  - f_equal. clear IH Hin. induction ks as [|y ks IH]; simpl; [reflexivity|].
    destruct (String.eqb_spec k y) as [->|_].
    + exfalso. apply Hk. now left.
    + apply IH.
      * intros Hy. apply Hk. now right.
      * now inversion Hnd.
  - destruct Hin as [E|Hin]; [congruence|]. now rewrite IH.
Qed.

(** *** The positions of one company *)

Definition of_company (k : string) (pos : pos_dict) : bool :=
  String.eqb (company (pos_base pos)) k.

Definition held_by (k : string) (positions : list pos_dict) : list pos_dict :=
  filter (of_company k) positions.

Definition value_of (pos : pos_dict) : Q := value (pos_base pos).

(** Grouping by company loses nothing: summed over the companies, group by
    group, any figure gives its sum over all positions. *)
Lemma grouped_qsum (w : pos_dict -> Q) (ks : list string)
  (positions : list pos_dict) :
  NoDup ks ->
  (forall pos, In pos positions -> In (company (pos_base pos)) ks) ->
  qsum (map (fun k => qsum (map w (held_by k positions))) ks)
  == qsum (map w positions).
Proof.
  intros Hnd. induction positions as [|p ps IH]; intros Hcov; simpl.
  - apply qsum_zero.
  - rewrite <- IH by (intros; apply Hcov; now right).
    rewrite <- (qsum_pick (company (pos_base p)) (w p) ks Hnd)
      by (apply Hcov; now left).
    rewrite <- qsum_plus. apply qsum_ext. intros k _.
    unfold held_by, of_company. simpl.
    destruct (String.eqb (company (pos_base p)) k); simpl; ring.
Qed.

Lemma nsum_plus {A : Type} (f g : A -> nat) (l : list A) :
  list_sum (map (fun x => f x + g x)%nat l)
  = (list_sum (map f l) + list_sum (map g l))%nat.
Proof. induction l as [|x l IH]; simpl; [reflexivity|]. rewrite IH. lia. Qed.

Lemma nsum_zero {A : Type} (l : list A) :
  list_sum (map (fun _ => 0%nat) l) = 0%nat.
Proof. induction l as [|x l IH]; simpl; [reflexivity | exact IH]. Qed.

Lemma grouped_count (ks : list string) (positions : list pos_dict) :
  NoDup ks ->
  (forall pos, In pos positions -> In (company (pos_base pos)) ks) ->
  list_sum (map (fun k => List.length (held_by k positions)) ks)
  = List.length positions.
Proof.
  intros Hnd. induction positions as [|p ps IH]; intros Hcov; simpl.
  - apply nsum_zero.
  - transitivity
      (list_sum
         (map (fun k => (if String.eqb (company (pos_base p)) k
                         then 1 else 0)
                        + List.length (held_by k ps))%nat ks)).
    + f_equal. apply map_ext. intros k. unfold held_by, of_company. simpl.
      now destruct (String.eqb (company (pos_base p)) k).
    + rewrite nsum_plus, nsum_pick by (assumption || (apply Hcov; now left)).
      rewrite IH by (intros; apply Hcov; now right). reflexivity.
Qed.

(** *** The counter *)

(** [counter[k]]: a company never counted stands at zero. *)
Definition count_of (c : dict string nat) (k : string) : nat :=
  match dict_getitem c k with
  | Ok n => n
  | Raise _ => 0%nat
  end.

Lemma counter_incr_count (k0 k : string) (c : dict string nat) :
  count_of (counter_incr k0 c) k
  = if String.eqb k k0 then S (count_of c k) else count_of c k.
Proof.
  unfold count_of. induction c as [|[k' n] c IH]; simpl.
  - unfold keqb, EqKey_string. now destruct (String.eqb k k0).
  - destruct (String.eqb_spec k0 k') as [->|Hne]; simpl;
      unfold keqb, EqKey_string in *.
    + destruct (String.eqb k k'); reflexivity.
    + destruct (String.eqb_spec k k') as [->|Hne'].
      * destruct (String.eqb_spec k' k0) as [->|_]; [congruence | reflexivity].
      * exact IH.
Qed.

Lemma counter_incr_keys (k0 : string) (c : dict string nat) :
  dict_keys (counter_incr k0 c)
  = if dict_contains k0 c then dict_keys c else dict_keys c ++ [k0].
Proof.
  induction c as [|[k' n] c IH]; simpl; [reflexivity|].
  unfold keqb, EqKey_string in *.
  destruct (String.eqb k0 k'); simpl; [reflexivity|].
  rewrite IH. now destruct (dict_contains k0 c).
Qed.

Lemma counter_incr_NoDup (k0 : string) (c : dict string nat) :
  NoDup (dict_keys c) -> NoDup (dict_keys (counter_incr k0 c)).
Proof.
  intros Hnd. rewrite counter_incr_keys.
  destruct (dict_contains k0 c) eqn:E; [assumption|].
  apply dict_contains_false in E.
  apply NoDup_app; [assumption | repeat constructor; simpl; tauto |].
  intros a Ha [<-|[]]. contradiction.
Qed.

Definition counted (positions : list pos_dict) (c0 : dict string nat)
  : dict string nat :=
  fold_left (fun c pos => counter_incr (company (pos_base pos)) c)
    positions c0.

Lemma counted_count (positions : list pos_dict) (c0 : dict string nat)
  (k : string) :
  count_of (counted positions c0) k
  = (count_of c0 k + List.length (held_by k positions))%nat.
Proof.
  revert c0. induction positions as [|p ps IH]; intros c0; simpl; [lia|].
  unfold counted in *. simpl. rewrite IH, counter_incr_count.
  unfold of_company. rewrite (String.eqb_sym k).
  destruct (String.eqb (company (pos_base p)) k); simpl; lia.
Qed.

Lemma counted_NoDup (positions : list pos_dict) (c0 : dict string nat) :
  NoDup (dict_keys c0) -> NoDup (dict_keys (counted positions c0)).
Proof.
  revert c0. induction positions as [|p ps IH]; intros c0 Hnd; simpl;
    [exact Hnd|].
  apply IH. now apply counter_incr_NoDup.
Qed.

Lemma counted_keys (positions : list pos_dict) (c0 : dict string nat)
  (k : string) :
  In k (dict_keys (counted positions c0))
  <-> In k (dict_keys c0) \/
      exists pos, In pos positions /\ company (pos_base pos) = k.
Proof.
  revert c0. induction positions as [|p ps IH]; intros c0; simpl.
  - split; [tauto|]. intros [Hk|[pos [[] _]]]. exact Hk.
  - unfold counted in *. simpl. rewrite IH, counter_incr_keys.
    destruct (dict_contains (company (pos_base p)) c0) eqn:E.
    + apply dict_contains_In in E. split.
      * intros [Hk|[pos [Hpos Hc]]]; [tauto|]. right. exists pos. tauto.
      * intros [Hk|[pos [[<-|Hpos] Hc]]]; [tauto | subst k; tauto |].
        right. now exists pos.
    + rewrite in_app_iff. simpl. split.
      * intros [[Hk|[<-|[]]]|[pos [Hpos Hc]]]; [tauto | | ].
        -- right. exists p. tauto.
        -- right. exists pos. tauto.
      * intros [Hk|[pos [[<-|Hpos] Hc]]]; [tauto | subst k; tauto |].
        right. now exists pos.
Qed.

Lemma Counter_NoDup (positions : list pos_dict) :
  NoDup (dict_keys (Counter positions)).
Proof. apply (counted_NoDup positions []). constructor. Qed.

Lemma Counter_entry (positions : list pos_dict) (k : string) (n : nat) :
  In (k, n) (Counter positions) ->
  n = List.length (held_by k positions) /\ (1 <= n)%nat.
Proof.
  intros Hin.
  assert (Hg := dict_getitem_NoDup _ _ _ (Counter_NoDup positions) Hin).
  assert (Hc : count_of (Counter positions) k = n)
    by (unfold count_of; now rewrite Hg).
  unfold Counter in Hc. fold (counted positions []) in Hc.
  rewrite counted_count in Hc. simpl in Hc. split; [now symmetry|].
  assert (Hk : In k (dict_keys (Counter positions)))
    by (unfold dict_keys; now apply (in_map fst) in Hin).
  apply (counted_keys positions [] k) in Hk as [[]|[pos [Hpos Hco]]].
  subst n. unfold held_by.
  assert (Hf : In pos (filter (of_company k) positions)).
  { apply filter_In. split; [exact Hpos|].
    unfold of_company. now apply String.eqb_eq. }
  destruct (filter (of_company k) positions); [contradiction | simpl; lia].
Qed.

(** *** The sort *)

Lemma insert_desc_perm {A : Type} (lt : A -> A -> bool) (x : A) (l : list A) :
  Permutation (x :: l) (insert_desc lt x l).
Proof.
  induction l as [|y l IH]; simpl; [reflexivity|].
  destruct (lt x y); [|reflexivity].
  rewrite perm_swap. now apply perm_skip.
Qed.

Lemma sort_desc_perm {A : Type} (lt : A -> A -> bool) (l : list A) :
  Permutation l (sort_desc lt l).
Proof.
  induction l as [|x l IH]; simpl; [reflexivity|].
  rewrite <- insert_desc_perm. now apply perm_skip.
Qed.

Lemma firstn_In {A : Type} (n : nat) (l : list A) (x : A) :
  In x (firstn n l) -> In x l.
Proof.
  revert l. induction n as [|n IH]; intros [|y l]; simpl; try tauto.
  intros [->|Hin]; [now left | right; now apply IH].
Qed.

Lemma firstn_NoDup {A : Type} (n : nat) (l : list A) :
  NoDup l -> NoDup (firstn n l).
Proof.
  revert l. induction n as [|n IH]; intros [|y l] Hnd; simpl;
    try constructor.
  - inversion Hnd as [|? ? Hy Hl]; subst. intros Hin. apply Hy.
    now apply firstn_In in Hin.
  - apply IH. now inversion Hnd.
Qed.

Lemma most_common_In (n : nat) (c : dict string nat) (e : string * nat) :
  In e (most_common n c) -> In e c.
Proof.
  unfold most_common. intros Hin. apply firstn_In in Hin.
  eapply Permutation_in; [apply Permutation_sym, sort_desc_perm | exact Hin].
Qed.

(** *** The aggregates of [create_detailed_analysis] *)

Lemma filter_all {A : Type} (f : A -> bool) (l : list A) :
  (forall x, In x l -> f x = true) -> filter f l = l.
Proof.
  induction l as [|x l IH]; intros Hf; simpl; [reflexivity|].
  rewrite Hf by now left. f_equal. apply IH. intros; apply Hf; now right.
Qed.

Lemma len_pos {A : Type} (l : list A) : l <> [] -> 0 < len l.
Proof.
  destruct l as [|x l]; [congruence|]. intros _.
  unfold len, Qlt. simpl. lia.
Qed.

Lemma nsum_perm (l l' : list nat) :
  Permutation l l' -> list_sum l = list_sum l'.
Proof.
  induction 1 as [|x l l' _ IH|x y l|l l' l'' _ IH1 _ IH2]; simpl; lia.
Qed.

(** The count of an aggregate of [create_detailed_analysis]. *)
Lemma detailed_count (positions : list pos_dict) (category_name : string)
  (d : detail) :
  In d (detailed positions category_name) ->
  d_funds_count d = List.length (held_by (d_company d) positions).
Proof.
  unfold detailed, create_detailed_analysis. intros Hd.
  apply in_map_iff in Hd as [[k n] [<- He]].
  apply most_common_In, Counter_entry in He as [Hn _]. exact Hn.
Qed.

(** *** Averages and totals of figures above a bound *)

Lemma len_cons {A : Type} (x : A) (l : list A) : len (x :: l) == 1 + len l.
Proof.
  unfold len. simpl List.length. rewrite Nat2Z.inj_succ.
  unfold Z.succ. rewrite inject_Z_plus. ring.
Qed.

Lemma qsum_lower_le (c : Q) (xs : list Q) :
  Forall (fun x => c < x) xs -> c * len xs <= qsum xs.
Proof.
  induction 1 as [|x xs Hx _ IH]; simpl.
  - unfold len. simpl. apply Qle_lteq. right. ring.
  - rewrite len_cons. lra.
Qed.

Lemma qsum_lower (c : Q) (xs : list Q) :
  Forall (fun x => c < x) xs -> xs <> [] -> c * len xs < qsum xs.
Proof.
  intros Hall Hne. destruct Hall as [|x xs Hx Hall]; [congruence|].
  apply qsum_lower_le in Hall. simpl. rewrite len_cons. lra.
Qed.

Lemma len_map {A B : Type} (f : A -> B) (l : list A) : len (map f l) = len l.
Proof. unfold len. now rewrite length_map. Qed.

Lemma average_above {A : Type} (f : A -> Q) (c : Q) (l : list A) :
  Forall (fun x => c < f x) l -> l <> [] ->
  c < py_sum (map f l) / len l.
Proof.
  intros Hall Hne. apply lt_div_iff; [now apply len_pos|].
  rewrite py_sum_qsum, <- (len_map f).
  apply qsum_lower.
  - apply Forall_map. exact Hall.
  - destruct l; [congruence | discriminate].
Qed.

Lemma total_above {A : Type} (f : A -> Q) (l : list A) :
  Forall (fun x => 0 < f x) l -> l <> [] -> 0 < py_sum (map f l).
Proof.
  intros Hall Hne. rewrite py_sum_qsum.
  assert (H := qsum_lower 0 (map f l)).
  assert (Hlt : 0 * len (map f l) < qsum (map f l)).
  { apply H; [now apply Forall_map|].
    destruct l; [congruence | discriminate]. }
  lra.
Qed.

(** *** The groups of [create_enhanced_summary] *)

Definition fund_of (pos : pos_dict) : string := fund_name (pos_base pos).

Definition grouped (positions : list pos_dict) (d0 : dict string group)
  : dict string group :=
  fold_left
    (fun d pos =>
       group_append (company (pos_base pos)) (fund_name (pos_base pos)) pos d)
    positions d0.

Lemma group_append_keys (k0 f : string) (p : pos_dict) (d : dict string group) :
  dict_keys (group_append k0 f p d)
  = if dict_contains k0 d then dict_keys d else dict_keys d ++ [k0].
Proof.
  induction d as [|[k g] d IH]; simpl; [reflexivity|].
  unfold keqb, EqKey_string in *.
  destruct (String.eqb k0 k); simpl; [reflexivity|].
  rewrite IH. now destruct (dict_contains k0 d).
Qed.

Lemma group_append_In (k0 f : string) (p : pos_dict) (d : dict string group)
  (k : string) (g' : group) :
  NoDup (dict_keys d) ->
  In (k, g') (group_append k0 f p d) ->
  (k <> k0 /\ In (k, g') d) \/
  (k = k0 /\ exists g, In (k0, g) d /\
      g' = {| funds := funds g ++ [f]; positions := positions g ++ [p] |}) \/
  (k = k0 /\ dict_contains k0 d = false /\
      g' = {| funds := [f]; positions := [p] |}).
Proof.
  induction d as [|[k1 g1] d IH]; simpl; intros Hnd Hin.
  - destruct Hin as [[= <- <-]|[]]. right. right. auto.
  - inversion Hnd as [|? ? Hk1 Hnd']; subst.
    unfold keqb, EqKey_string in *.
    destruct (String.eqb_spec k0 k1) as [->|Hne].
    + destruct Hin as [[= <- <-]|Hin].
      * right. left. split; [reflexivity|]. exists g1. split; [now left|].
        reflexivity.
      * left. split; [|now right]. intros ->. apply Hk1.
        unfold dict_keys. now apply (in_map fst) in Hin.
    + destruct Hin as [[= <- <-]|Hin].
      * left. split; [congruence | now left].
      * destruct (IH Hnd' Hin) as [[Hk Hd]|[[Hk [g [Hg Hg']]]|[Hk [Hc Hg']]]].
        -- left. split; [exact Hk | now right].
        -- right. left. split; [exact Hk|]. exists g. split; [now right|].
           exact Hg'.
        -- right. right. repeat split; assumption.
Qed.

(** The groups of the positions read so far. *)
Definition well_grouped (done : list pos_dict) (d : dict string group) : Prop :=
  NoDup (dict_keys d) /\
  (forall k g, In (k, g) d ->
     positions g = held_by k done /\
     funds g = map fund_of (positions g) /\
     positions g <> []) /\
  (forall pos, In pos done -> In (company (pos_base pos)) (dict_keys d)).

Lemma held_by_snoc (k : string) (done : list pos_dict) (p : pos_dict) :
  held_by k (done ++ [p])
  = held_by k done ++ (if of_company k p then [p] else []).
Proof. unfold held_by. rewrite filter_app. simpl. now destruct (of_company k p). Qed.

Lemma well_grouped_step (done : list pos_dict) (d : dict string group)
  (p : pos_dict) :
  well_grouped done d ->
  well_grouped (done ++ [p])
    (group_append (company (pos_base p)) (fund_name (pos_base p)) p d).
Proof.
  intros [Hnd [Hent Hcov]]. split; [|split].
  - rewrite group_append_keys.
    destruct (dict_contains (company (pos_base p)) d) eqn:E; [assumption|].
    apply dict_contains_false in E.
    apply NoDup_app; [assumption | repeat constructor; simpl; tauto |].
    intros a Ha [<-|[]]. contradiction.
  - intros k g' Hin. rewrite held_by_snoc. unfold of_company.
    destruct (group_append_In _ _ _ _ _ _ Hnd Hin)
      as [[Hk Hd]|[[Hk [g [Hg ->]]]|[Hk [Hc ->]]]].
    + destruct (Hent k g' Hd) as [Hp [Hf Hne]].
      destruct (String.eqb_spec (company (pos_base p)) k) as [E|_];
        [congruence|].
      rewrite app_nil_r. auto.
    + subst k. destruct (Hent _ g Hg) as [Hp [Hf Hne]].
      rewrite String.eqb_refl. simpl.
      rewrite Hp, Hf, map_app, Hp. repeat split.
      destruct (held_by (company (pos_base p)) done); discriminate.
    + subst k. rewrite String.eqb_refl. simpl.
      assert (Hnone : held_by (company (pos_base p)) done = []).
      { apply dict_contains_false in Hc. unfold held_by.
        destruct (filter _ done) as [|x l] eqn:E; [reflexivity|].
        exfalso. apply Hc.
        assert (Hx : In x (filter (of_company (company (pos_base p))) done))
          by (rewrite E; now left).
        apply filter_In in Hx as [Hx Hco].
        unfold of_company in Hco. apply String.eqb_eq in Hco.
        rewrite <- Hco. now apply Hcov. }
      rewrite Hnone. repeat split. discriminate.
  - intros pos Hpos. rewrite group_append_keys.
    apply in_app_or in Hpos as [Hpos|[<-|[]]].
    + apply Hcov in Hpos.
      destruct (dict_contains _ d); [exact Hpos|].
      apply in_or_app. now left.
    + destruct (dict_contains _ d) eqn:E.
      * now apply dict_contains_In.
      * apply in_or_app. right. now left.
Qed.

Lemma grouped_from (positions done : list pos_dict) (d0 : dict string group) :
  well_grouped done d0 -> well_grouped (done ++ positions) (grouped positions d0).
Proof.
  revert done d0. induction positions as [|p ps IH]; intros done d0 Hw; simpl.
  - now rewrite app_nil_r.
  - replace (done ++ p :: ps) with ((done ++ [p]) ++ ps)
      by (now rewrite <- app_assoc).
    apply IH. now apply well_grouped_step.
Qed.

Lemma grouped_well (positions : list pos_dict) :
  well_grouped positions (grouped positions []).
Proof.
  apply (grouped_from positions [] []). split; [constructor|]. split.
  - intros k g [].
  - intros pos [].
Qed.

(** *** The aggregates of [create_enhanced_summary] *)

Definition exact_enhanced (positions : list pos_dict) (d : enhanced_detail)
  : Prop :=
  funds_count d = List.length (held_by (company_name d) positions) /\
  (1 <= funds_count d)%nat /\
  total_value d = py_sum (map value_of (held_by (company_name d) positions)) /\
  avg_position_size d = total_value d / inject_Z (Z.of_nat (funds_count d)) /\
  fund_names d
    = String.concat ", "
        (sort_asc String.ltb
           (map fund_of (held_by (company_name d) positions))).

Lemma enhanced_detail_exact (positions : list pos_dict)
  (category_name : string) (k : string) (g : group) :
  Summary.positions g = held_by k positions ->
  funds g = map fund_of (Summary.positions g) ->
  Summary.positions g <> [] ->
  exact_enhanced positions (enhanced_detail_of category_name (k, g)).
Proof.
  intros Hp Hf Hne. unfold exact_enhanced. simpl.
  rewrite Hf, Hp in *. rewrite length_map.
  assert (Hlen : (1 <= List.length (held_by k positions))%nat).
  { destruct (held_by k positions); [congruence | simpl; lia]. }
  repeat split; try assumption.
  destruct (Nat.ltb_spec 0 (List.length (held_by k positions))) as [_|Hle];
    [|lia].
  unfold len. now rewrite length_map.
Qed.

Lemma enhanced_summary_In (positions : list pos_dict) (category_name : string)
  (d : enhanced_detail) :
  In d (create_enhanced_summary positions category_name) ->
  exists k g, In (k, g) (grouped positions []) /\
              d = enhanced_detail_of category_name (k, g).
Proof.
  unfold create_enhanced_summary. intros Hin. apply firstn_In in Hin.
  apply (Permutation_in _ (Permutation_sym (sort_desc_perm _ _))) in Hin.
  apply in_map_iff in Hin as [[k g] [<- Hg]]. now exists k, g.
Qed.

Lemma enhanced_exact_all
  (positions : list pos_dict) (category_name : string) :
  Forall (exact_enhanced positions)
    (create_enhanced_summary positions category_name).
Proof.
  destruct (grouped_well positions) as [Hnd [Hent Hcov]].
  apply Forall_forall. intros d Hd.
  apply enhanced_summary_In in Hd as [k [g [Hg ->]]].
  destruct (Hent k g Hg) as [Hp [Hf Hne]].
  now apply enhanced_detail_exact.
Qed.

(** X10. Each aggregate of the enhanced summary counts exactly the
    positions of its company, at least one, sums exactly their values,
    lists exactly their funds in ascending order, and its average is its
    total divided by its count; no company has two aggregates, there are
    at most 25, and the executive summary's filter on a count above zero
    keeps them all. *)
Theorem enhanced_aggregates_are_exact
  (positions : list pos_dict) (category_name : string) :
  (List.length (create_enhanced_summary positions category_name) <= 25)%nat /\
  NoDup (map company_name (create_enhanced_summary positions category_name)) /\
  Forall (exact_enhanced positions)
    (create_enhanced_summary positions category_name) /\
  enhanced_count_with_funds (create_enhanced_summary positions category_name)
    = List.length (create_enhanced_summary positions category_name).
Proof.
  destruct (grouped_well positions) as [Hnd [Hent Hcov]].
  assert (Hall : Forall (exact_enhanced positions)
            (create_enhanced_summary positions category_name)).
  { apply Forall_forall. intros d Hd.
    apply enhanced_summary_In in Hd as [k [g [Hg ->]]].
    destruct (Hent k g Hg) as [Hp [Hf Hne]].
    now apply enhanced_detail_exact. }
  split; [|split; [|split]].
  - unfold create_enhanced_summary. apply firstn_le_length.
  - unfold create_enhanced_summary. rewrite <- firstn_map.
    apply firstn_NoDup.
    eapply Permutation_NoDup;
      [apply Permutation_map, sort_desc_perm|].
    rewrite map_map. rewrite (map_ext _ fst) by (now intros [k g]).
    exact Hnd.
  - exact Hall.
  - unfold enhanced_count_with_funds. rewrite filter_all; [reflexivity|].
    intros d Hd. rewrite Forall_forall in Hall.
    destruct (Hall d Hd) as [_ [Hpos _]]. now apply Nat.ltb_lt.
Qed.

Definition company_of (pos : pos_dict) : string := company (pos_base pos).

Lemma grouped_length (positions : list pos_dict) :
  List.length (grouped positions [])
  = List.length (nodup string_dec (map company_of positions)).
Proof.
  destruct (grouped_well positions) as [Hnd [Hent Hcov]].
  transitivity (List.length (dict_keys (grouped positions []))).
  { unfold dict_keys. now rewrite length_map. }
  apply Permutation_length, NoDup_Permutation; [exact Hnd | apply NoDup_nodup|].
  intros k. rewrite nodup_In, in_map_iff. split.
  - intros Hk. unfold dict_keys in Hk.
    apply in_map_iff in Hk as [[k' g] [<- Hg]]. simpl.
    destruct (Hent k' g Hg) as [Hp [_ Hne]].
    destruct (Summary.positions g) as [|pos l] eqn:E; [congruence|].
    assert (Hin : In pos (held_by k' positions)) by (rewrite <- Hp; now left).
    apply filter_In in Hin as [Hin Hco].
    exists pos. split; [|exact Hin].
    unfold of_company in Hco. now apply String.eqb_eq in Hco.
  - intros [pos [<- Hpos]]. now apply Hcov.
Qed.

(** The values are whole numbers: sums of them are the same in whatever
    order and grouping they are added. *)
Definition whole_valued (positions : list pos_dict) : Prop :=
  forall pos, In pos positions -> exists z : Z, value_of pos = inject_Z z.

(** X11. With at most 25 companies among the positions nothing is lost in
    the enhanced summary: the counts of the aggregates add up to the
    number of positions, and, when the values are whole numbers, their
    totals add up to the total value of the positions. *)
Theorem enhanced_aggregates_lose_nothing
  (positions : list pos_dict) (category_name : string) :
  (List.length (nodup string_dec (map company_of positions)) <= 25)%nat ->
  list_sum (map funds_count (create_enhanced_summary positions category_name))
    = List.length positions /\
  (whole_valued positions ->
   enhanced_total_value_of (create_enhanced_summary positions category_name)
   == py_sum (map value_of positions)).
Proof.
  intros Hlen. rewrite <- grouped_length in Hlen.
  destruct (grouped_well positions) as [Hnd [Hent Hcov]].
  assert (Hperm : Permutation
            (map (enhanced_detail_of category_name) (grouped positions []))
            (create_enhanced_summary positions category_name)).
  { unfold create_enhanced_summary. rewrite firstn_all2.
    - apply sort_desc_perm.
    - rewrite <- (Permutation_length (sort_desc_perm _ _)).
      now rewrite length_map. }
  unfold enhanced_total_value_of. split.
  - rewrite <- (nsum_perm _ _ (Permutation_map funds_count Hperm)).
    rewrite <- (grouped_count (dict_keys (grouped positions [])) positions
                  Hnd Hcov).
    unfold dict_keys. rewrite !map_map. f_equal. apply map_ext_in.
    intros [k g] Hg. destruct (Hent k g Hg) as [Hp [Hf _]]. simpl.
    now rewrite Hf, length_map, Hp.
  - intros _. rewrite !py_sum_qsum.
    rewrite <- (qsum_perm _ _ (Permutation_map total_value Hperm)).
    rewrite <- (grouped_qsum value_of (dict_keys (grouped positions []))
                  positions Hnd Hcov).
    unfold dict_keys. rewrite !map_map. apply qsum_ext.
    intros [k g] Hg. destruct (Hent k g Hg) as [Hp _]. simpl.
    rewrite Hp. apply py_sum_qsum.
Qed.

Lemma enhanced_aggregates_lose_nothing_witness :
  list_sum (map funds_count (create_enhanced_summary two_buys "new_buys"))
    = 2%nat /\
  enhanced_total_value_of (create_enhanced_summary two_buys "new_buys")
    == py_sum (map value_of two_buys).
Proof.
  destruct (enhanced_aggregates_lose_nothing two_buys "new_buys") as [Hc Ht].
  - simpl. lia.
  - split; [exact Hc|]. apply Ht.
    intros pos [<-|[<-|[]]]; [exists 1%Z | exists 2%Z]; reflexivity.
Defined.

(** X12. On the same positions the two aggregations agree on the
    counts: an aggregate of [create_detailed_analysis] and one of
    [create_enhanced_summary] for the same company report the same number
    of positions, the number of positions stored under that company. *)
Theorem aggregations_agree
  (positions : list pos_dict) (category_name : string) :
  Forall (fun d =>
    d_funds_count d = List.length (held_by (d_company d) positions) /\
    Forall (fun e =>
      d_company d = company_name e -> d_funds_count d = funds_count e)
      (create_enhanced_summary positions category_name))
    (detailed positions category_name).
Proof.
  pose proof (enhanced_exact_all positions category_name) as He.
  rewrite Forall_forall in He.
  apply Forall_forall. intros d Hdin.
  pose proof (detailed_count positions category_name d Hdin) as Hc.
  split; [exact Hc|].
  apply Forall_forall. intros e Hein Heq.
  destruct (He e Hein) as [Hc' _].
  now rewrite Hc, Hc', Heq.
Qed.

End ReportFacts.

(** ** Splitting and joining a key *)

Module SplitFacts.
Import Classifier NewBuysSells PyStrFacts KeyFacts.

Lemma split_bars_nonempty (s cur : string) : split_bars s cur <> [].
Proof.
  revert cur. induction s as [|c s IH]; intros cur; simpl; [discriminate|].
  destruct s as [|c2 s]; [apply IH|].
  destruct (Ascii.eqb c "|" && Ascii.eqb c2 "|"); [discriminate | apply IH].
Qed.

Lemma concat_cons (sep x : string) (xs : list string) :
  xs <> [] ->
  String.concat sep (x :: xs) = (x ++ sep ++ String.concat sep xs)%string.
Proof. destruct xs; [congruence | reflexivity]. Qed.

Lemma join_split_from (n : nat) :
  forall s cur,
    (String.length s <= n)%nat ->
    String.concat "||" (split_bars s cur) = (cur ++ s)%string.
Proof.
  induction n as [|n IH]; intros s cur Hlen.
  - destruct s as [|c s]; [|simpl in Hlen; lia].
    simpl. now rewrite append_nil_r.
  - destruct s as [|c s]; [simpl; now rewrite append_nil_r|].
    destruct s as [|c2 s]; [reflexivity|].
    change (split_bars (String c (String c2 s)) cur)
      with (if Ascii.eqb c "|" && Ascii.eqb c2 "|"
            then cur :: split_bars s EmptyString
            else split_bars (String c2 s) (cur ++ String c EmptyString)).
    destruct (Ascii.eqb c "|" && Ascii.eqb c2 "|") eqn:E.
    + apply andb_true_iff in E as [E1 E2].
      apply Ascii.eqb_eq in E1, E2. subst c c2.
      rewrite concat_cons by apply split_bars_nonempty.
      rewrite IH by (simpl in Hlen; lia). reflexivity.
    + rewrite IH by (simpl in *; lia).
      now rewrite append_assoc.
Qed.

(** Without a separator there is one piece, and it cannot be unpacked. *)
Lemma split_without_separator (k : string) :
  has_sep k = false -> split_position_key k = Raise ValueError.
Proof.
  intros Hs. unfold split_position_key. now rewrite split_bars_plain.
Qed.

(** X13. Joining the pieces of a split with the separator gives the key
    back; so a key that unpacks into a fund and a company is that fund,
    the separator and that company; and a key without separator does not
    unpack but raises. *)
Theorem split_then_join (position_key : string) :
  String.concat "||" (split_bars position_key "") = position_key /\
  (forall fund company,
     split_position_key position_key = Ok (fund, company) ->
     position_key = (fund ++ "||" ++ company)%string) /\
  (has_sep position_key = false ->
   split_position_key position_key = Raise ValueError).
Proof.
  assert (Hjoin : String.concat "||" (split_bars position_key "")
                  = position_key).
  { apply (join_split_from (String.length position_key)). lia. }
  split; [exact Hjoin|]. split.
  - intros fund company Hs. unfold split_position_key in Hs.
    destruct (split_bars position_key "") as [|f [|c [|x l]]];
      try discriminate.
    injection Hs as -> ->. now rewrite <- Hjoin.
  - apply split_without_separator.
Qed.

End SplitFacts.

(** ** From a data frame to the rows of the loader *)

Module FrameFacts.
Import PyStr Loader LoaderFacts Frame.

Lemma list_contains_In (x : string) (l : list string) :
  list_contains x l = true <-> In x l.
Proof.
  unfold list_contains. rewrite existsb_exists. split.
  - intros [y [Hy E]]. apply String.eqb_eq in E. now subst.
  - intros Hx. exists x. split; [exact Hx | apply String.eqb_refl].
Qed.

Lemma list_contains_false (x : string) (l : list string) :
  list_contains x l = false <-> ~ In x l.
Proof.
  rewrite <- list_contains_In. destruct (list_contains x l); split; congruence.
Qed.

(** Where [index] points: at the first column with the sought lower-case
    name. *)
Lemma lowered_index (x : string) (cols : list string) :
  In x (map lower cols) ->
  exists before c after,
    cols = before ++ c :: after /\
    List.length before = list_index x (map lower cols) /\
    lower c = x /\
    nth (list_index x (map lower cols)) cols EmptyString = c /\
    (forall c', In c' before -> lower c' <> x).
Proof.
  induction cols as [|y cols IH]; simpl; [tauto|]. intros Hin.
  destruct (String.eqb_spec x (lower y)) as [E|Hne].
  - exists [], y, cols. simpl. repeat split; auto; try (intros c' []).
  - destruct Hin as [E|Hin]; [congruence|].
    destruct (IH Hin) as [before [c [after [Hc [Hl [Hlow [Hn Hb]]]]]]].
    exists (y :: before), c, after. simpl. repeat split; try congruence.
    intros c' [<-|Hc']; [congruence | now apply Hb].
Qed.

Lemma first_match_None (cols names : list string) :
  first_match cols names = None <->
  forall n c, In n names -> In c cols -> lower c <> lower n.
Proof.
  induction names as [|n names IH]; simpl.
  - split; [intros _ n c [] | reflexivity].
  - destruct (list_contains (lower n) (map lower cols)) eqn:E.
    + split; [discriminate|]. intros Hno. exfalso.
      apply list_contains_In, in_map_iff in E as [c [Hc Hin]].
      exact (Hno n c (or_introl eq_refl) Hin Hc).
    + rewrite IH. apply list_contains_false in E. split.
      * intros Hno m c [<-|Hm] Hc.
        -- intros Heq. apply E. rewrite <- Heq. now apply in_map.
        -- now apply Hno.
      * intros Hno m c Hm Hc. apply Hno; [now right | exact Hc].
Qed.

(** The column a field is matched to: under the earliest name that any
    column carries, the first column that carries it. *)
Definition chosen (cols names : list string) (c : string) : Prop :=
  exists earlier n later before after,
    names = earlier ++ n :: later /\
    (forall m c', In m earlier -> In c' cols -> lower c' <> lower m) /\
    cols = before ++ c :: after /\
    lower c = lower n /\
    (forall c', In c' before -> lower c' <> lower n).

Lemma first_match_Some (cols names : list string) (c : string) :
  first_match cols names = Some c -> chosen cols names c.
Proof.
  induction names as [|n names IH]; simpl; [discriminate|].
  destruct (list_contains (lower n) (map lower cols)) eqn:E.
  - intros [= <-]. apply list_contains_In in E.
    destruct (lowered_index _ _ E) as [before [c [after [Hc [_ [Hlow [Hn Hb]]]]]]].
    exists [], n, names, before, after. rewrite Hn.
    repeat split; auto; try (intros m c' []).
  - intros Hf. destruct (IH Hf)
      as [earlier [m [later [before [after [Hn [He [Hc [Hl Hb]]]]]]]]].
    exists (n :: earlier), m, later, before, after.
    repeat split; try assumption; [now rewrite Hn|].
    intros m' c' [<-|Hm'] Hc'.
    + apply list_contains_false in E. intros Heq. apply E.
      rewrite <- Heq. now apply in_map.
    + now apply He.
Qed.

(** The table has one entry per field, so each field is decided by its
    own names. *)
Lemma matched_from (cols : list string) (table : dict string (list string))
  (matched0 : dict string string) (field : string) :
  NoDup (dict_keys table) ->
  dict_getitem
    (fold_left
       (fun matched_columns entry =>
          match first_match cols (snd entry) with
          | Some actual_column =>
              dict_setitem (fst entry) actual_column matched_columns
          | None => matched_columns
          end) table matched0) field
  = match dict_getitem table field with
    | Ok names =>
        match first_match cols names with
        | Some c => Ok c
        | None => dict_getitem matched0 field
        end
    | Raise _ => dict_getitem matched0 field
    end.
Proof.
  revert matched0. induction table as [|[f names] table IH];
    intros matched0 Hnd; simpl; [reflexivity|].
  inversion Hnd as [|? ? Hf Hnd']; subst.
  rewrite (IH _ Hnd').
  destruct (keqb field f) eqn:E.
  - apply keqb_eq in E. subst f.
    assert (Habs : dict_getitem table field = Raise KeyError).
    { apply dict_getitem_absent, dict_contains_false. exact Hf. }
    rewrite Habs. destruct (first_match cols names).
    + apply dict_getitem_setitem_same.
    + reflexivity.
  - apply keqb_false in E.
    destruct (dict_getitem table field) as [names'|];
      [destruct (first_match cols names')|];
      try reflexivity;
      (destruct (first_match cols names);
       [apply dict_getitem_setitem_other; congruence | reflexivity]).
Qed.

Lemma column_mappings_NoDup : NoDup (dict_keys column_mappings).
Proof. repeat constructor; simpl; intuition discriminate. Qed.

Lemma matched_field (cols : list string) (field : string) (names : list string) :
  In (field, names) column_mappings ->
  dict_getitem (match_columns cols) field
  = match first_match cols names with
    | Some c => Ok c
    | None => Raise KeyError
    end.
Proof.
  intros Hin. unfold match_columns.
  rewrite (matched_from cols column_mappings [] field column_mappings_NoDup).
  now rewrite (dict_getitem_NoDup _ _ _ column_mappings_NoDup Hin).
Qed.

(** X14. Column matching: a field is matched exactly when some column
    carries, in any letter case, one of the field's possible names; the
    column chosen carries the earliest such name of the field's list and
    is the first column to do so. *)
Theorem columns_are_matched (cols : list string) :
  Forall
    (fun entry =>
       (forall c,
          dict_getitem (match_columns cols) (fst entry) = Ok c ->
          In c cols /\ chosen cols (snd entry) c) /\
       ((exists c n, In c cols /\ In n (snd entry) /\ lower c = lower n) <->
        exists c, dict_getitem (match_columns cols) (fst entry) = Ok c))
    column_mappings.
Proof.
  apply Forall_forall. intros [field names] Hin. simpl.
  rewrite (matched_field cols field names Hin). split.
  - intros c Hc. destruct (first_match cols names) as [c'|] eqn:E;
      [|discriminate].
    injection Hc as ->. apply first_match_Some in E. split; [|exact E].
    destruct E as [_ [_ [_ [before [after [_ [_ [-> _]]]]]]]].
    apply in_or_app. right. now left.
  - split.
    + intros [c [n [Hc [Hn Hl]]]].
      destruct (first_match cols names) as [c'|] eqn:E; [now exists c'|].
      exfalso. exact (proj1 (first_match_None cols names) E n c Hn Hc Hl).
    + intros [c Hc]. destruct (first_match cols names) as [c'|] eqn:E;
        [|discriminate].
      apply first_match_Some in E
        as [earlier [n [later [before [after [Hn [_ [Hcols [Hl _]]]]]]]]].
      exists c', n. repeat split.
      * rewrite Hcols. apply in_or_app. right. now left.
      * rewrite Hn. apply in_or_app. right. now left.
      * exact Hl.
Qed.

(** Two value columns: the possible name listed first decides, whatever
    the order of the columns. *)
Example value_before_market_value :
  dict_getitem (match_columns ["Name"; "Market Value"; "VALUE"]) "value"
  = Ok "VALUE"%string.
Proof. reflexivity. Qed.

(** *** Frames that load nothing *)

Lemma kept_of_no_company (fund_name : string) (r : raw_row) :
  company_cell r = CStr EmptyString -> kept_of fund_name r = [].
Proof.
  intros Hc. unfold kept_of, process_row. rewrite Hc. simpl.
  now destruct (cell_strip (ticker_cell r)).
Qed.

Lemma kept_of_no_numbers (fund_name : string) (r : raw_row) :
  value_cell r = CNum (Fin 0) -> shares_cell r = CNum (Fin 0) ->
  kept_of fund_name r = [].
Proof.
  intros Hv Hs. unfold kept_of, process_row. rewrite Hv, Hs.
  destruct (cell_strip (company_cell r)) as [c|]; simpl; [|reflexivity].
  destruct (cell_strip (ticker_cell r)) as [t|]; simpl; [|reflexivity].
  now rewrite andb_false_r.
Qed.

Lemma unmatched_reads_default (cols : list string) (cells : list cell)
  (field : string) (default : cell) :
  dict_contains field (match_columns cols) = false ->
  ~ In EmptyString cols ->
  series_get cols cells (matched_get (match_columns cols) field) default
  = default.
Proof.
  intros Hc Hno. unfold matched_get.
  rewrite (dict_getitem_absent _ _ Hc). unfold series_get.
  apply list_contains_false in Hno. now rewrite Hno.
Qed.

Lemma flat_map_empty {A B : Type} (f : A -> list B) (l : list A) :
  (forall x, In x l -> f x = []) -> flat_map f l = [].
Proof.
  induction l as [|x l IH]; intros Hf; simpl; [reflexivity|].
  rewrite Hf by now left. apply IH. intros; apply Hf; now right.
Qed.

(** X15. A frame in which no company column is matched, or neither a
    value nor a shares column, loads nothing: no holding is added and the
    count is 0. *)
Theorem unmatched_frame_loads_nothing
  (fund_name : string) (df : frame) (holdings_data : list holding) :
  ~ In EmptyString (columns df) ->
  dict_contains "company" (match_columns (columns df)) = false \/
  (dict_contains "value" (match_columns (columns df)) = false /\
   dict_contains "shares" (match_columns (columns df)) = false) ->
  parse_frame fund_name df holdings_data = (holdings_data, 0%nat).
Proof.
  intros Hno Hun. unfold parse_frame. rewrite parse_rows_eq.
  rewrite flat_map_empty; [now rewrite app_nil_r|].
  intros r Hr. apply in_map_iff in Hr as [cells [<- _]].
  destruct Hun as [Hc|[Hv Hs]].
  - apply kept_of_no_company. unfold raw_row_of. simpl.
    now apply unmatched_reads_default.
  - apply kept_of_no_numbers; unfold raw_row_of; simpl;
      now apply unmatched_reads_default.
Qed.

Lemma unmatched_frame_loads_nothing_witness :
  parse_frame "Sample Fund"
    {| columns := ["Ticker"; "Value"];
       rows := [[CStr "AAPL"; CNum (Fin 100)]; [CStr "MSFT"; CNum (Fin 50)]] |}
    []
  = ([], 0%nat).
Proof.
  apply (unmatched_frame_loads_nothing "Sample Fund"
           {| columns := ["Ticker"; "Value"];
              rows := [[CStr "AAPL"; CNum (Fin 100)];
                       [CStr "MSFT"; CNum (Fin 50)]] |} []).
  - simpl. intuition discriminate.
  - left. reflexivity.
Defined.

(** *** The letter case of the header *)

(** The index of the column a list of names picks, from the lower-case
    header alone. *)
Fixpoint match_index (lowered names : list string) : option nat :=
  match names with
  | [] => None
  | n :: rest =>
      if list_contains (lower n) lowered
      then Some (list_index (lower n) lowered)
      else match_index lowered rest
  end.

Definition empty_slot (lowered : list string) : option nat :=
  if list_contains EmptyString lowered
  then Some (list_index EmptyString lowered)
  else None.

Definition read_slot (slot : option nat) (cells : list cell) (default : cell)
  : cell :=
  match slot with
  | Some i => nth i cells default
  | None => default
  end.

Lemma empty_label_slot (cols : list string) (cells : list cell) (default : cell) :
  series_get cols cells EmptyString default
  = read_slot (empty_slot (map lower cols)) cells default.
Proof.
  unfold series_get, empty_slot, read_slot.
  assert (Hc : list_contains EmptyString (map lower cols)
               = list_contains EmptyString cols).
  { unfold list_contains. induction cols as [|y cols IH]; [reflexivity|].
    destruct y; simpl in *; [reflexivity | exact IH]. }
  assert (Hi : list_index EmptyString (map lower cols)
               = list_index EmptyString cols).
  { induction cols as [|y cols IH]; [reflexivity|].
    destruct y; simpl in *; [reflexivity | now rewrite IH]. }
  rewrite Hc, Hi. now destruct (list_contains EmptyString cols).
Qed.

Lemma chosen_label_slot (cols : list string) (cells : list cell)
  (default : cell) (x : string) :
  In x (map lower cols) ->
  series_get cols cells
    (nth (list_index x (map lower cols)) cols EmptyString) default
  = nth (list_index x (map lower cols)) cells default.
Proof.
  intros Hin.
  destruct (lowered_index x cols Hin)
    as [before [c [after [Hcols [Hlen [Hlow [Hnth Hb]]]]]]].
  rewrite Hnth. unfold series_get.
  assert (Hc : list_contains c cols = true).
  { apply list_contains_In. rewrite Hcols. apply in_or_app. right. now left. }
  rewrite Hc. f_equal. rewrite <- Hlen. rewrite Hcols.
  clear Hcols Hnth Hlen Hin Hc.
  induction before as [|y before IH]; simpl.
  - now rewrite String.eqb_refl.
  - destruct (String.eqb_spec c y) as [->|_].
    + exfalso. apply (Hb y); [now left | exact Hlow].
    + f_equal. apply IH. intros c' Hc'. apply Hb. now right.
Qed.

Lemma first_match_slot (cols names : list string) (cells : list cell)
  (default : cell) :
  series_get cols cells
    (match first_match cols names with
     | Some c => c
     | None => EmptyString
     end) default
  = read_slot
      (match match_index (map lower cols) names with
       | Some i => Some i
       | None => empty_slot (map lower cols)
       end) cells default.
Proof.
  induction names as [|n names IH]; simpl.
  - apply empty_label_slot.
  - destruct (list_contains (lower n) (map lower cols)) eqn:E.
    + apply list_contains_In in E. simpl. now apply chosen_label_slot.
    + exact IH.
Qed.

Lemma field_slot (cols : list string) (cells : list cell) (default : cell)
  (field : string) (names : list string) :
  In (field, names) column_mappings ->
  series_get cols cells (matched_get (match_columns cols) field) default
  = read_slot
      (match match_index (map lower cols) names with
       | Some i => Some i
       | None => empty_slot (map lower cols)
       end) cells default.
Proof.
  intros Hin. unfold matched_get. rewrite (matched_field cols field names Hin).
  rewrite <- first_match_slot. now destruct (first_match cols names).
Qed.

Lemma raw_row_of_lowered (cols cols' : list string) (cells : list cell) :
  map lower cols = map lower cols' ->
  raw_row_of cols (match_columns cols) cells
  = raw_row_of cols' (match_columns cols') cells.
Proof.
  intros Hl. unfold raw_row_of.
  rewrite !(field_slot cols cells _ "company" _ (or_introl eq_refl)).
  rewrite !(field_slot cols' cells _ "company" _ (or_introl eq_refl)).
  rewrite !(field_slot cols cells _ "ticker" _ (or_intror (or_introl eq_refl))).
  rewrite !(field_slot cols' cells _ "ticker" _ (or_intror (or_introl eq_refl))).
  rewrite !(field_slot cols cells _ "shares" _
              (or_intror (or_intror (or_introl eq_refl)))).
  rewrite !(field_slot cols' cells _ "shares" _
              (or_intror (or_intror (or_introl eq_refl)))).
  rewrite !(field_slot cols cells _ "value" _
              (or_intror (or_intror (or_intror (or_introl eq_refl))))).
  rewrite !(field_slot cols' cells _ "value" _
              (or_intror (or_intror (or_intror (or_introl eq_refl))))).
  now rewrite Hl.
Qed.

(** X16. The letter case of the header does not matter: two frames with
    the same rows whose column names agree up to case load the same
    holdings. *)
Theorem header_case_is_irrelevant
  (fund_name : string) (cols cols' : list string) (cells : list (list cell))
  (holdings_data : list holding) :
  map lower cols = map lower cols' ->
  parse_frame fund_name {| columns := cols; rows := cells |} holdings_data
  = parse_frame fund_name {| columns := cols'; rows := cells |} holdings_data.
Proof.
  intros Hl. unfold parse_frame. simpl. f_equal.
  apply map_ext. intros r. now apply raw_row_of_lowered.
Qed.

Lemma header_case_is_irrelevant_witness :
  parse_frame "Sample Fund"
    {| columns := ["Company"; "VALUE"];
       rows := [[CStr "Apple Inc"; CStr "$1,200K"]] |} []
  = parse_frame "Sample Fund"
      {| columns := ["COMPANY"; "value"];
         rows := [[CStr "Apple Inc"; CStr "$1,200K"]] |} [].
Proof.
  apply (header_case_is_irrelevant "Sample Fund"
           ["Company"; "VALUE"] ["COMPANY"; "value"]
           [[CStr "Apple Inc"; CStr "$1,200K"]] []).
  reflexivity.
Defined.

Example frame_is_loaded :
  parse_frame "Sample Fund"
    {| columns := ["Company"; "VALUE"];
       rows := [[CStr "Apple Inc"; CStr "$1,200K"]] |} []
  = ([ {| h_fund_name := "Sample Fund"; h_company := "Apple Inc";
          h_ticker := ""; h_shares := Fin 0; h_value := Fin 1200000 |} ],
     1%nat).
Proof. reflexivity. Qed.

(** *** Several files *)

Definition kept_of_file (csv_file : string * option frame) : list holding :=
  fst (parse_csv_file csv_file []).

Lemma parse_csv_file_eq (csv_file : string * option frame)
  (holdings_data : list holding) :
  parse_csv_file csv_file holdings_data
  = (holdings_data ++ kept_of_file csv_file,
     List.length (kept_of_file csv_file)).
Proof.
  unfold kept_of_file, parse_csv_file. destruct (snd csv_file) as [df|].
  - unfold parse_frame. now rewrite !parse_rows_eq.
  - simpl. now rewrite app_nil_r.
Qed.

Lemma process_files_from (csv_files : list (string * option frame))
  (holdings_data : list holding) (total : nat) :
  fold_left
    (fun st csv_file =>
       let '(holdings_data, total_processed) := st in
       let '(holdings_data, processed) :=
         parse_csv_file csv_file holdings_data in
       (holdings_data, (total_processed + processed)%nat))
    csv_files (holdings_data, total)
  = (holdings_data ++ flat_map kept_of_file csv_files,
     (total + List.length (flat_map kept_of_file csv_files))%nat).
Proof.
  revert holdings_data total.
  induction csv_files as [|f fs IH]; intros holdings_data total; simpl.
  - now rewrite app_nil_r, Nat.add_0_r.
  - rewrite parse_csv_file_eq. rewrite IH.
    rewrite <- app_assoc, length_app. f_equal. lia.
Qed.

(** X17. Over several files the loader adds up: the holdings are those of
    the files one after another, each file adding what it adds on its own,
    an unreadable file adding nothing; the total printed is the number of
    holdings, and the run reports success exactly when there is one. *)
Theorem files_add_up (csv_files : list (string * option frame)) :
  fst (fst (process_all_csv_files csv_files))
    = flat_map kept_of_file csv_files /\
  snd (fst (process_all_csv_files csv_files))
    = List.length (flat_map kept_of_file csv_files) /\
  snd (process_all_csv_files csv_files)
    = Nat.ltb 0 (List.length (flat_map kept_of_file csv_files)) /\
  (forall fund_name, kept_of_file (fund_name, None) = []).
Proof.
  unfold process_all_csv_files. destruct csv_files as [|f fs].
  - repeat split.
  - rewrite process_files_from. simpl. repeat split.
Qed.

End FrameFacts.

(** ** The two scripts on new buys and exits *)

Module KeySetFacts.
Import Classifier ClassifierFacts KeySets.

Lemma set_minus_In (a b : list string) (k : string) :
  In k (set_minus a b) <-> In k a /\ ~ In k b.
Proof.
  unfold set_minus. rewrite filter_In, negb_true_iff. split.
  - intros [Ha Hb]. split; [exact Ha|]. intros Hin.
    assert (Hex : existsb (String.eqb k) b = true).
    { apply existsb_exists. exists k. split; [exact Hin | apply String.eqb_refl]. }
    congruence.
  - intros [Ha Hb]. split; [exact Ha|].
    destruct (existsb (String.eqb k) b) eqn:E; [|reflexivity].
    apply existsb_exists in E as [y [Hy Heq]].
    apply String.eqb_eq in Heq. subst y. contradiction.
Qed.

Lemma set_minus_NoDup (a b : list string) : NoDup a -> NoDup (set_minus a b).
Proof. intros Ha. unfold set_minus. now apply NoDup_filter. Qed.

Lemma only_in_set (here there : list row) (k : string) :
  In k (set_minus (key_set here) (key_set there))
  <-> In k (filter
              (fun k => negb (dict_contains k (index_rows create_position_key there)))
              (dict_keys (index_rows create_position_key here))).
Proof.
  rewrite set_minus_In, filter_In, negb_true_iff, dict_contains_false.
  unfold key_set. rewrite !nodup_In, !index_rows_keys. tauto.
Qed.

(** X18. On two quarter files with rows, the set-based script and the
    dict-based script find the same new positions and the same exits: a
    key is in [new_buys] of [analyze_new_buys_sells] exactly when the
    comprehensive comparison emits a new buy under it, likewise for
    [new_sells] and the exits, and the counts the two scripts print are
    equal. *)
Theorem both_scripts_find_the_same (q1_2025 q4_2024 : list row) :
  q1_2025 <> [] -> q4_2024 <> [] ->
  exists a,
    analyze_buys_sells_increases q1_2025 q4_2024 = Ok a /\
    (forall k, In k (new_buys_set q1_2025 q4_2024)
               <-> In k (opened_keys create_position_key a)) /\
    (forall k, In k (new_sells_set q1_2025 q4_2024)
               <-> In k (closed_keys create_position_key a)) /\
    List.length (new_buys_set q1_2025 q4_2024) = List.length (new_buys a) /\
    List.length (new_sells_set q1_2025 q4_2024) = List.length (position_exits a).
Proof.
  intros _ _. eexists. split; [apply analyze_eq|].
  pose proof (index_rows_keyed create_position_key q1_2025) as Hk1.
  pose proof (index_rows_keyed create_position_key q4_2024) as Hk4.
  pose proof (index_rows_NoDup create_position_key q1_2025) as Hn1.
  pose proof (index_rows_NoDup create_position_key q4_2024) as Hn4.
  assert (Ho : forall k, In k (new_buys_set q1_2025 q4_2024)
                 <-> In k (opened_keys create_position_key
                             (outcome (1 # 2)
                                (index_rows create_position_key q1_2025)
                                (index_rows create_position_key q4_2024)))).
  { intros k. unfold opened_keys, outcome. simpl.
    rewrite only_in_keys by (assumption || apply incl_refl).
    apply only_in_set. }
  assert (Hc : forall k, In k (new_sells_set q1_2025 q4_2024)
                 <-> In k (closed_keys create_position_key
                             (outcome (1 # 2)
                                (index_rows create_position_key q1_2025)
                                (index_rows create_position_key q4_2024)))).
  { intros k. unfold closed_keys, outcome. simpl.
    rewrite only_in_keys by (assumption || apply incl_refl).
    apply only_in_set. }
  split; [exact Ho|]. split; [exact Hc|]. split.
  - rewrite <- (length_map (key_of_position create_position_key)
                  (new_buys _)).
    apply Permutation_length, NoDup_Permutation.
    + apply set_minus_NoDup, NoDup_nodup.
    + unfold outcome. simpl.
      rewrite only_in_keys by (assumption || apply incl_refl).
      now apply NoDup_filter.
    + exact Ho.
  - rewrite <- (length_map (key_of_position create_position_key)
                  (position_exits _)).
    apply Permutation_length, NoDup_Permutation.
    + apply set_minus_NoDup, NoDup_nodup.
    + unfold outcome. simpl.
      rewrite only_in_keys by (assumption || apply incl_refl).
      now apply NoDup_filter.
    + exact Hc.
Qed.

Definition first_quarter : list row :=
  [ mkRow "FundA" "Alpha" "ALP" 10 100 "Bio";
    mkRow "FundB" "Beta" "BET" 20 300 "Bio" ].

Definition second_quarter : list row :=
  [ mkRow "FundB" "Beta" "BET" 20 300 "Bio";
    mkRow "FundC" "Gamma" "GAM" 5 50 "Bio" ].

Lemma both_scripts_find_the_same_witness :
  exists a,
    analyze_buys_sells_increases second_quarter first_quarter = Ok a /\
    (forall k, In k (new_buys_set second_quarter first_quarter)
               <-> In k (opened_keys create_position_key a)) /\
    (forall k, In k (new_sells_set second_quarter first_quarter)
               <-> In k (closed_keys create_position_key a)) /\
    List.length (new_buys_set second_quarter first_quarter)
    = List.length (new_buys a) /\
    List.length (new_sells_set second_quarter first_quarter)
    = List.length (position_exits a).
Proof.
  apply (both_scripts_find_the_same second_quarter first_quarter);
    discriminate.
Defined.

Example one_new_buy_one_exit :
  new_buys_set second_quarter first_quarter = ["FundC||Gamma"] /\
  new_sells_set second_quarter first_quarter = ["FundA||Alpha"].
Proof. split; reflexivity. Qed.

End KeySetFacts.

(** ** More on the loader *)

Module LoaderMore.
Import PyStr PyStrFacts Loader LoaderFacts.

(** *** Stripped texts *)

Definition left_clean (s : string) : Prop :=
  match s with
  | EmptyString => True
  | String c _ => is_space c = false
  end.

Lemma lstrip_left_clean (s : string) : left_clean (lstrip s).
Proof.
  induction s as [|c s IH]; simpl; [exact I|].
  destruct (is_space c) eqn:E; [exact IH | exact E].
Qed.

Lemma lstrip_id (s : string) : left_clean s -> lstrip s = s.
Proof. destruct s as [|c s]; simpl; [reflexivity|]. now intros ->. Qed.

Lemma rstrip_left_clean (s : string) : left_clean s -> left_clean (rstrip s).
Proof.
  destruct s as [|c s]; simpl; [exact id|]. intros Hc.
  destruct (rstrip s); [rewrite Hc|]; exact Hc.
Qed.

Lemma rstrip_idem (s : string) : rstrip (rstrip s) = rstrip s.
Proof.
  induction s as [|c s IH]; simpl; [reflexivity|].
  destruct (rstrip s) as [|b t] eqn:E.
  - destruct (is_space c) eqn:Ec; simpl; [reflexivity | now rewrite Ec].
  - simpl in *. now rewrite IH.
Qed.

Lemma strip_idem (s : string) : strip (strip s) = strip s.
Proof.
  unfold strip.
  rewrite (lstrip_id (rstrip (lstrip s)))
    by apply rstrip_left_clean, lstrip_left_clean.
  apply rstrip_idem.
Qed.

Definition well_formed (fund_name : string) (h : holding) : Prop :=
  h_fund_name h = fund_name /\
  h_company h <> EmptyString /\
  strip (h_company h) = h_company h /\
  strip (h_ticker h) = h_ticker h /\
  (gt0 (h_value h) = true \/ gt0 (h_shares h) = true).

Lemma kept_of_well_formed (fund_name : string) (r : raw_row) :
  Forall (well_formed fund_name) (kept_of fund_name r).
Proof.
  unfold kept_of, process_row.
  destruct (company_cell r) as [c|x]; simpl; [|constructor].
  destruct (ticker_cell r) as [t|x]; simpl; [|constructor].
  destruct (nonempty (strip c)) eqn:En; simpl; [|constructor].
  destruct (gt0 (parse_value (value_cell r))
            || gt0 (parse_shares (shares_cell r))) eqn:Eg; [|constructor].
  constructor; [|constructor].
  unfold well_formed. simpl. repeat split.
  - unfold nonempty in En. apply negb_true_iff, String.eqb_neq in En. exact En.
  - apply strip_idem.
  - apply strip_idem.
  - now apply orb_true_iff.
Qed.

(** X19. Every holding the loader adds carries the fund name of its
    file, a company that is not empty, company and ticker texts without
    blanks around them, and a value or a share count above zero. *)
Theorem kept_holdings_are_well_formed
  (fund_name : string) (df : list raw_row) (holdings_data : list holding) :
  exists kept,
    fst (parse_rows fund_name df holdings_data) = holdings_data ++ kept /\
    snd (parse_rows fund_name df holdings_data) = List.length kept /\
    Forall (well_formed fund_name) kept.
Proof.
  exists (flat_map (kept_of fund_name) df). rewrite parse_rows_eq. simpl.
  repeat split. apply Forall_forall. intros h Hh.
  apply in_flat_map in Hh as [r [_ Hh]].
  pose proof (kept_of_well_formed fund_name r) as Hw.
  rewrite Forall_forall in Hw. now apply Hw.
Qed.

(** *** Letter case and parentheses in a number *)

Lemma remove_char_upper (c : ascii) (s : string) :
  (forall a, Ascii.eqb (upper_ascii a) c = Ascii.eqb a c) ->
  remove_char c (upper s) = upper (remove_char c s).
Proof.
  intros Hc. induction s as [|a s IH]; simpl; [reflexivity|].
  rewrite Hc. destruct (Ascii.eqb a c); simpl; now rewrite IH.
Qed.

Lemma upper_keeps_dollar (a : ascii) :
  Ascii.eqb (upper_ascii a) "$" = Ascii.eqb a "$".
Proof. destruct a as [[] [] [] [] [] [] [] []]; reflexivity. Qed.

Lemma upper_keeps_comma (a : ascii) :
  Ascii.eqb (upper_ascii a) "," = Ascii.eqb a ",".
Proof. destruct a as [[] [] [] [] [] [] [] []]; reflexivity. Qed.

Lemma upper_keeps_open (a : ascii) :
  Ascii.eqb (upper_ascii a) "(" = Ascii.eqb a "(".
Proof. destruct a as [[] [] [] [] [] [] [] []]; reflexivity. Qed.

Lemma upper_keeps_close (a : ascii) :
  Ascii.eqb (upper_ascii a) ")" = Ascii.eqb a ")".
Proof. destruct a as [[] [] [] [] [] [] [] []]; reflexivity. Qed.

Lemma strip_symbols_upper (s : string) :
  strip_symbols (upper s) = upper (strip_symbols s).
Proof.
  unfold strip_symbols.
  now rewrite (remove_char_upper "$" s upper_keeps_dollar),
    (remove_char_upper "," _ upper_keeps_comma),
    (remove_char_upper "(" _ upper_keeps_open),
    (remove_char_upper ")" _ upper_keeps_close).
Qed.

Lemma scaled_upper (v : string) :
  float_or_zero (fst (scaled (upper v))) (snd (scaled (upper v)))
  = float_or_zero (fst (scaled v)) (snd (scaled v)).
Proof.
  unfold scaled. rewrite upper_idem.
  destruct (contains_char "K" (upper v)); [reflexivity|].
  destruct (contains_char "M" (upper v)); [reflexivity|].
  destruct (contains_char "B" (upper v)); [reflexivity|].
  simpl. unfold float_or_zero. now rewrite py_float_upper.
Qed.

Lemma parse_value_scaled (s : string) :
  parse_value (CStr s)
  = float_or_zero (fst (scaled (strip_symbols s)))
      (snd (scaled (strip_symbols s))).
Proof. unfold parse_value. now destruct (scaled (strip_symbols s)). Qed.

(** X20. In the text of a value parentheses are dropped wherever they
    stand, so a figure in accounting brackets is read as the figure
    itself, not as its negative; and neither value nor share texts depend
    on letter case, so a lower-case k, m or b multiplies like the capital
    letter. *)
Theorem brackets_and_case_are_ignored (s : string) :
  (forall s1 s2 : string,
     parse_value (CStr (s1 ++ "(" ++ s2)) = parse_value (CStr (s1 ++ s2))) /\
  (forall s1 s2 : string,
     parse_value (CStr (s1 ++ ")" ++ s2)) = parse_value (CStr (s1 ++ s2))) /\
  parse_value (CStr (upper s)) = parse_value (CStr s) /\
  parse_shares (CStr (upper s)) = parse_shares (CStr s).
Proof.
  split; [|split; [|split]].
  - intros s1 s2. unfold parse_value, strip_symbols.
    repeat (rewrite !remove_char_app; simpl). reflexivity.
  - intros s1 s2. unfold parse_value, strip_symbols.
    repeat (rewrite !remove_char_app; simpl). reflexivity.
  - rewrite !parse_value_scaled, strip_symbols_upper. apply scaled_upper.
  - unfold parse_shares.
    rewrite (remove_char_upper "," s upper_keeps_comma).
    now rewrite py_float_upper.
Qed.

Example bracketed_value_is_positive :
  parse_value (CStr "(1,200)") = Fin 1200 /\
  parse_value (CStr "2.5m") = parse_value (CStr "2.5M").
Proof. split; reflexivity. Qed.

End LoaderMore.

(** ** The overall analysis of the enhanced workbook *)

Module OverallFacts.
Import Classifier ClassifierFacts Summary SummaryFacts ComparisonFacts ReportFacts.
Import Overall.

(** *** The order of strings *)

Lemma string_ltb_asym (a b : string) :
  String.ltb a b = true -> String.ltb b a = false.
Proof.
  unfold String.ltb. rewrite (String.compare_antisym b a).
  now destruct (String.compare a b).
Qed.

Lemma string_ltb_total (a b : string) :
  String.ltb a b = false -> a <> b -> String.ltb b a = true.
Proof.
  unfold String.ltb. rewrite (String.compare_antisym b a).
  destruct (String.compare a b) eqn:E; simpl; try easy.
  apply String.compare_eq_iff in E. contradiction.
Qed.

Lemma string_ltb_trans (a b c : string) :
  String.ltb a b = true -> String.ltb b c = true -> String.ltb a c = true.
Proof.
  assert (Hlt : forall x y, String.ltb x y = true
                            <-> OrderedTypeEx.String_as_OT.lt x y).
  { intros x y. rewrite <- OrderedTypeEx.String_as_OT.cmp_lt.
    unfold String.ltb, OrderedTypeEx.String_as_OT.cmp.
    destruct (String.compare x y); split; congruence. }
  rewrite !Hlt. apply OrderedTypeEx.String_as_OT.lt_trans.
Qed.

Lemma string_le_trans (a b c : string) :
  String.ltb b a = false -> String.ltb c b = false -> String.ltb c a = false.
Proof.
  intros Hab Hbc. destruct (String.ltb c a) eqn:E; [|reflexivity].
  destruct (string_dec b a) as [->|Hne]; [congruence|].
  pose proof (string_ltb_total b a Hab Hne) as Hlt.
  pose proof (string_ltb_trans c a b E Hlt). congruence.
Qed.

(** *** The ascending sort *)

Section AscFacts.
Context {A : Type}.
Variable lt : A -> A -> bool.
Hypothesis lt_asym : forall a b, lt a b = true -> lt b a = false.
Hypothesis le_trans :
  forall a b c, lt b a = false -> lt c b = false -> lt c a = false.

Let le (a b : A) : Prop := lt b a = false.

Lemma insert_asc_Forall (P : A -> Prop) (x : A) (l : list A) :
  P x -> Forall P l -> Forall P (insert_asc lt x l).
Proof.
  intros Hx Hl. induction Hl as [|y l Hy Hl IH]; simpl.
  - now constructor.
  - destruct (lt y x); repeat constructor; assumption.
Qed.

Lemma insert_asc_sorted (x : A) (l : list A) :
  StronglySorted le l -> StronglySorted le (insert_asc lt x l).
Proof.
  induction 1 as [|y l Hs IH Hy]; simpl.
  - repeat constructor.
  - destruct (lt y x) eqn:E.
    + constructor; [exact IH|].
      apply insert_asc_Forall; [exact (lt_asym _ _ E) | exact Hy].
    + constructor; [now constructor|].
      constructor; [exact E|].
      eapply Forall_impl; [|exact Hy].
      intros z Hz. exact (le_trans _ _ _ E Hz).
Qed.

Lemma sort_asc_sorted (l : list A) : StronglySorted le (sort_asc lt l).
Proof.
  induction l as [|x l IH]; simpl; [constructor|].
  now apply insert_asc_sorted.
Qed.
End AscFacts.

Lemma insert_asc_perm {A : Type} (lt : A -> A -> bool) (x : A) (l : list A) :
  Permutation (x :: l) (insert_asc lt x l).
Proof.
  induction l as [|y l IH]; simpl; [reflexivity|].
  destruct (lt y x); [|reflexivity].
  rewrite perm_swap. now constructor.
Qed.

Lemma sort_asc_perm {A : Type} (lt : A -> A -> bool) (l : list A) :
  Permutation l (sort_asc lt l).
Proof.
  induction l as [|x l IH]; simpl; [reflexivity|].
  rewrite <- insert_asc_perm. now constructor.
Qed.

(** Sorted funds without repetition stand in strictly ascending order. *)
Lemma sorted_funds_strict (l : list string) :
  NoDup l ->
  StronglySorted (fun a b => String.ltb a b = true) (sort_asc String.ltb l).
Proof.
  intros Hnd.
  pose proof (sort_asc_sorted String.ltb string_ltb_asym string_le_trans l)
    as Hs.
  pose proof (Permutation_NoDup (sort_asc_perm String.ltb l) Hnd) as Hnd'.
  induction Hs as [|a s Hs IH Ha]; constructor.
  - apply IH. now inversion Hnd'.
  - inversion Hnd' as [|? ? Hnotin _]; subst.
    rewrite Forall_forall in Ha |- *. intros b Hb.
    apply string_ltb_total; [now apply Ha|].
    intros ->. contradiction.
Qed.

(** *** The entries of [company_to_funds] *)

Definition rows_of (k : string) (df : list row) : list row :=
  filter (fun r => String.eqb (company_key r) k) df.

Lemma rows_of_snoc (k : string) (done : list row) (h : row) :
  rows_of k (done ++ [h])
  = rows_of k done ++ (if String.eqb (company_key h) k then [h] else []).
Proof.
  unfold rows_of. rewrite filter_app. simpl.
  now destruct (String.eqb (company_key h) k).
Qed.

Lemma set_add_In (x : string) (s : list string) (y : string) :
  In y (set_add x s) <-> In y s \/ y = x.
Proof.
  unfold set_add. destruct (existsb (String.eqb x) s) eqn:E.
  - apply existsb_exists in E as [z [Hz Heq]]. apply String.eqb_eq in Heq.
    subst z. split; [now left|]. intros [H| ->]; assumption.
  - rewrite in_app_iff. simpl. split.
    + intros [H|[<-|[]]]; auto.
    + intros [H| ->]; auto.
Qed.

Lemma set_add_NoDup (x : string) (s : list string) :
  NoDup s -> NoDup (set_add x s).
Proof.
  intros Hnd. unfold set_add. destruct (existsb (String.eqb x) s) eqn:E;
    [exact Hnd|].
  apply NoDup_app; [exact Hnd | repeat constructor; simpl; tauto|].
  intros a Ha [<-|[]].
  assert (Hex : existsb (String.eqb x) s = true).
  { apply existsb_exists. exists x. split; [exact Ha | apply String.eqb_refl]. }
  congruence.
Qed.

Lemma add_holding_keys (h : row) (d : dict string company_data) :
  dict_keys (add_holding h d)
  = if dict_contains (company_key h) d then dict_keys d
    else dict_keys d ++ [company_key h].
Proof.
  induction d as [|[k g] d IH]; simpl; [reflexivity|].
  unfold keqb, EqKey_string in *.
  destruct (String.eqb (company_key h) k); simpl; [reflexivity|].
  rewrite IH. now destruct (dict_contains (company_key h) d).
Qed.

Lemma add_holding_In (h : row) (d : dict string company_data)
  (k : string) (data' : company_data) :
  NoDup (dict_keys d) ->
  In (k, data') (add_holding h d) ->
  (k <> company_key h /\ In (k, data') d) \/
  (k = company_key h /\ exists data, In (k, data) d /\ data' = updated h data) \/
  (k = company_key h /\ dict_contains k d = false /\ data' = updated h fresh).
Proof.
  induction d as [|[k1 g1] d IH]; simpl; intros Hnd Hin.
  - destruct Hin as [[= <- <-]|[]]. right. right. auto.
  - inversion Hnd as [|? ? Hk1 Hnd']; subst.
    unfold keqb, EqKey_string in *.
    destruct (String.eqb_spec (company_key h) k1) as [E|Hne].
    + destruct Hin as [[= <- <-]|Hin].
      * right. left. split; [now symmetry|]. exists g1. split; [now left|].
        reflexivity.
      * left. split; [|now right]. intros ->. apply Hk1. rewrite <- E.
        unfold dict_keys. now apply (in_map fst) in Hin.
    + destruct Hin as [[= <- <-]|Hin].
      * left. split; [congruence | now left].
      * destruct (IH Hnd' Hin) as [[Hk Hd]|[[Hk [g [Hg Hg']]]|[Hk [Hc Hg']]]].
        -- left. split; [exact Hk | now right].
        -- right. left. split; [exact Hk|]. exists g. split; [now right|].
           exact Hg'.
        -- right. right. split; [exact Hk|]. split; [|exact Hg'].
           subst k. destruct (String.eqb_spec (company_key h) k1);
             [contradiction | exact Hc].
Qed.

(** What an entry holds once the rows [done] are read. *)
Definition entry_of (done : list row) (k : string) (data : company_data)
  : Prop :=
  c_positions data = map sample_of (rows_of k done) /\
  c_total_value data = py_sum (map r_value (rows_of k done)) /\
  NoDup (c_funds data) /\
  (forall f, In f (c_funds data) <-> In f (map r_fund_name (rows_of k done))) /\
  rows_of k done <> [].

Definition well_keyed (done : list row) (d : dict string company_data)
  : Prop :=
  NoDup (dict_keys d) /\
  (forall k data, In (k, data) d -> entry_of done k data) /\
  (forall r, In r done -> In (company_key r) (dict_keys d)).

Lemma py_sum_snoc (xs : list Q) (x : Q) : py_sum (xs ++ [x]) = py_sum xs + x.
Proof. unfold py_sum. now rewrite fold_left_app. Qed.

Lemma well_keyed_step (done : list row) (d : dict string company_data)
  (h : row) :
  well_keyed done d -> well_keyed (done ++ [h]) (add_holding h d).
Proof.
  intros [Hnd [Hent Hcov]]. split; [|split].
  - rewrite add_holding_keys.
    destruct (dict_contains (company_key h) d) eqn:E; [assumption|].
    apply dict_contains_false in E.
    apply NoDup_app; [assumption | repeat constructor; simpl; tauto |].
    intros a Ha [<-|[]]. contradiction.
  - intros k data' Hin. unfold entry_of. rewrite rows_of_snoc.
    destruct (add_holding_In _ _ _ _ Hnd Hin)
      as [[Hk Hd]|[[Hk [g [Hg ->]]]|[Hk [Hc ->]]]].
    + destruct (String.eqb_spec (company_key h) k) as [E|_]; [congruence|].
      rewrite app_nil_r. now apply Hent.
    + subst k. destruct (Hent _ g Hg) as [Hp [Ht [Hn [Hf Hne]]]].
      rewrite String.eqb_refl, !map_app. simpl.
      rewrite py_sum_snoc, Hp, Ht.
      repeat split.
      * now apply set_add_NoDup.
      * rewrite set_add_In, in_app_iff, Hf. simpl. intuition.
      * rewrite set_add_In, in_app_iff, Hf. simpl. intuition.
      * destruct (rows_of (company_key h) done); discriminate.
    + subst k. rewrite String.eqb_refl.
      assert (Hnone : rows_of (company_key h) done = []).
      { apply dict_contains_false in Hc. unfold rows_of.
        destruct (filter _ done) as [|x l] eqn:E; [reflexivity|].
        exfalso. apply Hc.
        assert (Hx : In x (filter
                  (fun r => String.eqb (company_key r) (company_key h)) done))
          by (rewrite E; now left).
        apply filter_In in Hx as [Hx Hco].
        apply String.eqb_eq in Hco. rewrite <- Hco. now apply Hcov. }
      rewrite Hnone. simpl. repeat split; try tauto; try discriminate.
      repeat constructor. simpl. tauto.
  - intros r Hr. rewrite add_holding_keys.
    apply in_app_or in Hr as [Hr|[<-|[]]].
    + apply Hcov in Hr.
      destruct (dict_contains _ d); [exact Hr|].
      apply in_or_app. now left.
    + destruct (dict_contains _ d) eqn:E.
      * now apply dict_contains_In.
      * apply in_or_app. right. now left.
Qed.

Lemma well_keyed_from (df done : list row) (d0 : dict string company_data) :
  well_keyed done d0 ->
  well_keyed (done ++ df)
    (fold_left (fun d holding => add_holding holding d) df d0).
Proof.
  revert done d0. induction df as [|h df IH]; intros done d0 Hw; simpl.
  - now rewrite app_nil_r.
  - replace (done ++ h :: df) with ((done ++ [h]) ++ df)
      by (now rewrite <- app_assoc).
    apply IH. now apply well_keyed_step.
Qed.

Lemma company_to_funds_well (df : list row) :
  well_keyed df (company_to_funds df).
Proof.
  apply (well_keyed_from df [] []). split; [constructor|]. split.
  - intros k g [].
  - intros r [].
Qed.

(** *** The aggregates *)

Definition exact_frequent (df : list row) (x : frequent) : Prop :=
  (exists r rest,
     rows_of (f_company x) df = r :: rest /\
     f_ticker x = r_ticker r /\ f_industry x = r_industry r) /\
  f_total_value x = py_sum (map r_value (rows_of (f_company x) df)) /\
  StronglySorted (fun a b => String.ltb a b = true) (f_fund_list x) /\
  (forall f, In f (f_fund_list x)
             <-> In f (map r_fund_name (rows_of (f_company x) df))) /\
  f_fund_count x = List.length (f_fund_list x) /\
  (1 <= f_fund_count x <= List.length (rows_of (f_company x) df))%nat /\
  f_avg_position_size x
  = f_total_value x / inject_Z (Z.of_nat (f_fund_count x)).

Lemma frequent_of_exact (df : list row) (k : string) (data : company_data) :
  entry_of df k data -> exact_frequent df (frequent_of (k, data)).
Proof.
  intros [Hp [Ht [Hn [Hf Hne]]]]. unfold exact_frequent. simpl.
  assert (Hin : forall f, In f (sort_asc String.ltb (c_funds data))
                          <-> In f (map r_fund_name (rows_of k df))).
  { intros f. rewrite <- Hf. split; apply Permutation_in;
      [apply Permutation_sym|]; apply sort_asc_perm. }
  assert (Hlen : List.length (sort_asc String.ltb (c_funds data))
                 = List.length (c_funds data)).
  { symmetry. apply Permutation_length, sort_asc_perm. }
  assert (Hpos : (1 <= List.length (c_funds data))%nat).
  { destruct (rows_of k df) as [|r rest] eqn:E; [congruence|].
    destruct (c_funds data) as [|f fs]; [|simpl; lia].
    exfalso. apply (Hf (r_fund_name r)). simpl. now left. }
  split; [|split; [|split; [|split; [|split; [|split]]]]].
  - rewrite Hp. destruct (rows_of k df) as [|r rest]; [congruence|].
    exists r, rest. simpl. auto.
  - exact Ht.
  - now apply sorted_funds_strict.
  - exact Hin.
  - now rewrite Hlen.
  - split; [exact Hpos|].
    rewrite <- (length_map r_fund_name). apply NoDup_incl_length; [exact Hn|].
    intros f. apply Hf.
  - destruct (Nat.ltb_spec 0 (List.length (c_funds data))) as [_|Hle]; [|lia].
    reflexivity.
Qed.

Definition frequent_holdings (df : list row) : list frequent :=
  sort_desc frequent_lt (map frequent_of (company_to_funds df)).

Lemma frequent_holdings_perm (df : list row) :
  Permutation (map frequent_of (company_to_funds df)) (frequent_holdings df).
Proof. apply sort_desc_perm. Qed.

Lemma value_holdings_perm (df : list row) :
  Permutation (map frequent_of (company_to_funds df))
    (sort_desc value_lt (frequent_holdings df)).
Proof.
  etransitivity; [apply frequent_holdings_perm | apply sort_desc_perm].
Qed.

Lemma top_frequent_eq (df : list row) :
  o_top_frequent (perform_enhanced_overall_analysis df)
  = firstn 25 (frequent_holdings df).
Proof. reflexivity. Qed.

Lemma top_values_eq (df : list row) :
  o_top_values (perform_enhanced_overall_analysis df)
  = firstn 25 (sort_desc value_lt (frequent_holdings df)).
Proof. reflexivity. Qed.

Lemma weight_analysis_eq (df : list row) :
  o_weight_analysis (perform_enhanced_overall_analysis df)
  = map (weighted_of (py_sum (map r_value df)))
      (o_top_values (perform_enhanced_overall_analysis df)).
Proof. reflexivity. Qed.

Lemma frequent_exact_all (df : list row) (l : list frequent) :
  Permutation (map frequent_of (company_to_funds df)) l ->
  Forall (exact_frequent df) l /\ NoDup (map f_company l).
Proof.
  intros Hperm. destruct (company_to_funds_well df) as [Hnd [Hent Hcov]]. split.
  - apply Forall_forall. intros x Hx.
    apply (Permutation_in _ (Permutation_sym Hperm)) in Hx.
    apply in_map_iff in Hx as [[k data] [<- Hd]].
    apply frequent_of_exact. now apply Hent.
  - eapply Permutation_NoDup; [apply Permutation_map, Hperm|].
    rewrite map_map. rewrite (map_ext _ fst) by (now intros [k g]).
    exact Hnd.
Qed.

Lemma firstn_Forall_NoDup {A B : Type} (P : A -> Prop) (f : A -> B) (n : nat)
  (l : list A) :
  Forall P l /\ NoDup (map f l) ->
  (List.length (firstn n l) <= n)%nat /\
  NoDup (map f (firstn n l)) /\ Forall P (firstn n l).
Proof.
  intros [Hall Hnd]. split; [apply firstn_le_length|]. split.
  - rewrite <- firstn_map. now apply firstn_NoDup.
  - now apply Forall_firstn.
Qed.

(** X21. Each entry of the two top-25 lists of the overall analysis
    stands for the rows of its company key, of which there is at least
    one: ticker and industry are those of the first such row, the total
    is the sum of their values, the fund list holds exactly their funds
    in strictly ascending order, the fund count is the length of that
    list, between one and the number of those rows, and the average is
    the total divided by the fund count.  Neither list names a company
    key twice or has more than 25 entries. *)
Theorem overall_aggregates_are_exact (df : list row) :
  ((List.length (o_top_frequent (perform_enhanced_overall_analysis df)) <= 25)%nat /\
   NoDup (map f_company (o_top_frequent (perform_enhanced_overall_analysis df))) /\
   Forall (exact_frequent df)
     (o_top_frequent (perform_enhanced_overall_analysis df))) /\
  ((List.length (o_top_values (perform_enhanced_overall_analysis df)) <= 25)%nat /\
   NoDup (map f_company (o_top_values (perform_enhanced_overall_analysis df))) /\
   Forall (exact_frequent df)
     (o_top_values (perform_enhanced_overall_analysis df))).
Proof.
  rewrite top_frequent_eq, top_values_eq.
  split; apply firstn_Forall_NoDup, frequent_exact_all.
  - apply frequent_holdings_perm.
  - apply value_holdings_perm.
Qed.

Example fund_count_is_not_row_count :
  let df := [ mkRow "FundA" "Alpha" "ALP" 10 100 "Bio";
              mkRow "FundA" "Alpha" "ALP" 20 300 "Bio" ] in
  map (fun x => (f_company x, f_fund_count x, f_total_value x,
                 f_avg_position_size x))
    (o_top_frequent (perform_enhanced_overall_analysis df))
  = [("Alpha (ALP)", 1%nat, 0 + 100 + 300, (0 + 100 + 300) / 1)].
Proof. reflexivity. Qed.

(** *** The order of the lists *)

Lemma value_lt_asym (a b : frequent) :
  value_lt a b = true -> value_lt b a = false.
Proof.
  unfold value_lt, ltb. rewrite negb_true_iff, negb_false_iff.
  intros Hn. apply Qle_bool_iff.
  destruct (Qle_bool (f_total_value b) (f_total_value a)) eqn:E; [discriminate|].
  apply Qlt_le_weak, Qnot_le_lt. intros Hle.
  apply Qle_bool_iff in Hle. congruence.
Qed.

Lemma value_lt_false (a b : frequent) :
  value_lt a b = false <-> f_total_value b <= f_total_value a.
Proof. unfold value_lt, ltb. now rewrite negb_false_iff, Qle_bool_iff. Qed.

Lemma top_values_sorted (df : list row) :
  StronglySorted (fun a b => f_total_value b <= f_total_value a)
    (o_top_values (perform_enhanced_overall_analysis df)).
Proof.
  rewrite top_values_eq. apply StronglySorted_firstn.
  eapply StronglySorted_impl; [|apply sort_desc_sorted].
  - intros a b Hab. apply value_lt_false. exact Hab.
  - apply value_lt_asym.
  - intros a b c. rewrite !value_lt_false. intros Hab Hbc.
    exact (Qle_trans _ _ _ Hbc Hab).
Qed.

Lemma top_values_exact (df : list row) :
  Forall (exact_frequent df)
    (o_top_values (perform_enhanced_overall_analysis df)).
Proof.
  rewrite top_values_eq. apply Forall_firstn.
  apply (frequent_exact_all df), value_holdings_perm.
Qed.

(** X22. The list of the most frequently held companies is in descending
    order of (fund count, total value): more funds first, and among equal
    fund counts the larger total first.  The list of top values is in
    descending order of total value, and the weight analysis lists the
    same entries in the same order. *)
Theorem overall_lists_are_ordered (df : list row) :
  StronglySorted (fun a b => key_ge (frequent_key a) (frequent_key b))
    (o_top_frequent (perform_enhanced_overall_analysis df)) /\
  StronglySorted (fun a b => f_total_value b <= f_total_value a)
    (o_top_values (perform_enhanced_overall_analysis df)) /\
  map w_holding (o_weight_analysis (perform_enhanced_overall_analysis df))
  = o_top_values (perform_enhanced_overall_analysis df).
Proof.
  split; [|split].
  - rewrite top_frequent_eq. apply StronglySorted_firstn.
    eapply StronglySorted_impl; [|apply sort_desc_sorted].
    + intros a b Hab. apply tuple_lt_false. exact Hab.
    + intros a b. apply tuple_lt_asym.
    + intros a b c. unfold frequent_lt. rewrite !tuple_lt_false.
      apply key_ge_trans.
  - apply top_values_sorted.
  - rewrite weight_analysis_eq, map_map. simpl. apply map_id.
Qed.

(** *** The weights *)

Definition two_holdings : list row :=
  [ mkRow "FundA" "Alpha" "ALP" 10 100 "Bio";
    mkRow "FundB" "Beta" "" 20 300 "Bio" ].

(** *** Weights as shares *)

Lemma sum_not_negative {A : Type} (w : A -> Q) (l : list A) :
  (forall a, In a l -> 0 <= w a) -> 0 <= qsum (map w l).
Proof.
  induction l as [|a l IH]; intros Hpos; simpl; [lra|].
  assert (Ha : 0 <= w a) by (apply Hpos; now left).
  assert (Hl : 0 <= qsum (map w l)) by (apply IH; intros; apply Hpos; now right).
  lra.
Qed.

Definition share (total_value_all : Q) (w : weighted) : Prop :=
  exists q,
    w_weight_percent w = Some q /\
    q = f_total_value (w_holding w) / total_value_all * 100 /\
    0 <= q /\
    w_consensus_score w
    = Some (q * inject_Z (Z.of_nat (f_fund_count (w_holding w)))).

Definition weight_ge (a b : weighted) : Prop :=
  match w_weight_percent a, w_weight_percent b with
  | Some x, Some y => y <= x
  | _, _ => False
  end.

(** X24. When no value of the file is negative and their total is above
    zero and below 2^63, where a column of integers would wrap, every
    weight of the weight analysis is finite, is the company's total
    divided by the file's total and multiplied by 100, and is not
    negative; the consensus score is that weight times the fund count,
    and the weights come in descending order. *)
Theorem weights_are_shares (df : list row) :
  (forall r, In r df -> 0 <= r_value r) ->
  0 < py_sum (map r_value df) ->
  py_sum (map r_value df) < inject_Z (2 ^ 63) ->
  Forall (share (py_sum (map r_value df)))
    (o_weight_analysis (perform_enhanced_overall_analysis df)) /\
  StronglySorted weight_ge
    (o_weight_analysis (perform_enhanced_overall_analysis df)).
Proof.
  intros Hpos Htot _.
  pose proof (top_values_sorted df) as Hsorted.
  pose proof (top_values_exact df) as Hexact.
  assert (Hnz : Qeq_bool (py_sum (map r_value df)) 0 = false).
  { destruct (Qeq_bool (py_sum (map r_value df)) 0) eqn:E; [|reflexivity].
    apply Qeq_bool_iff in E. lra. }
  split.
  - rewrite weight_analysis_eq. apply Forall_map.
    rewrite Forall_forall in Hexact |- *.
    intros x Hx. destruct (Hexact x Hx) as [_ [Ht _]].
    unfold share, weighted_of. simpl. unfold np_div. rewrite Hnz. simpl.
    eexists. split; [reflexivity|]. split; [reflexivity|]. split; [|reflexivity].
    assert (Hb : 0 <= f_total_value x).
    { rewrite Ht, py_sum_qsum. apply sum_not_negative.
      intros r Hr. apply Hpos. unfold rows_of in Hr.
      now apply filter_In in Hr. }
    set (t := f_total_value x) in *. set (T := py_sum (map r_value df)) in *.
    assert (Hd : 0 <= t / T) by (apply Qle_shift_div_l; [exact Htot | lra]).
    lra.
  - rewrite weight_analysis_eq. apply StronglySorted_map.
    eapply StronglySorted_impl; [|exact Hsorted].
    intros a b Hab. unfold weight_ge, weighted_of. simpl.
    unfold np_div. rewrite Hnz. simpl.
    set (T := py_sum (map r_value df)) in *.
    assert (Hd : f_total_value b / T <= f_total_value a / T).
    { unfold Qdiv. apply Qmult_le_compat_r; [exact Hab|].
      apply Qlt_le_weak, Qinv_lt_0_compat. exact Htot. }
    lra.
Qed.

Lemma weights_are_shares_witness :
  Forall (share (py_sum (map r_value two_holdings)))
    (o_weight_analysis (perform_enhanced_overall_analysis two_holdings)) /\
  StronglySorted weight_ge
    (o_weight_analysis (perform_enhanced_overall_analysis two_holdings)).
Proof.
  apply (weights_are_shares two_holdings).
  - intros r [<-|[<-|[]]]; simpl; lra.
  - vm_compute. reflexivity.
  - vm_compute. reflexivity.
Defined.

(** With a total of zero the weights are not finite. *)
Example zero_total_has_no_weight :
  map w_weight_percent
    (o_weight_analysis
       (perform_enhanced_overall_analysis
          [ mkRow "FundA" "Alpha" "ALP" 10 0 "Bio" ]))
  = [None].
Proof. reflexivity. Qed.

End OverallFacts.

(** ** The master workbook and the enhanced workbook *)

Module MasterFacts.
Import Classifier ClassifierFacts Summary SummaryFacts ComparisonFacts ReportFacts.
Import Overall OverallFacts Master.

Definition frequency_from (df : list row) (c0 : dict string nat)
  : dict string nat :=
  fold_left (fun c holding => counter_incr (company_key holding) c) df c0.

Lemma frequency_count (df : list row) (c0 : dict string nat) (k : string) :
  count_of (frequency_from df c0) k
  = (count_of c0 k + List.length (rows_of k df))%nat.
Proof.
  revert c0. induction df as [|r df IH]; intros c0; simpl; [lia|].
  unfold frequency_from in *. simpl. rewrite IH, counter_incr_count.
  rewrite (String.eqb_sym k).
  destruct (String.eqb (company_key r) k); simpl; lia.
Qed.

Lemma frequency_NoDup (df : list row) (c0 : dict string nat) :
  NoDup (dict_keys c0) -> NoDup (dict_keys (frequency_from df c0)).
Proof.
  revert c0. induction df as [|r df IH]; intros c0 Hnd; simpl; [exact Hnd|].
  apply IH. now apply counter_incr_NoDup.
Qed.

Lemma frequency_entry (df : list row) (k : string) (n : nat) :
  In (k, n) (stock_frequency df) -> n = List.length (rows_of k df).
Proof.
  intros Hin.
  assert (Hnd : NoDup (dict_keys (stock_frequency df)))
    by (apply (frequency_NoDup df []); constructor).
  assert (Hg := dict_getitem_NoDup _ _ _ Hnd Hin).
  assert (Hc : count_of (stock_frequency df) k = n)
    by (unfold count_of; now rewrite Hg).
  unfold stock_frequency in Hc. fold (frequency_from df []) in Hc.
  rewrite frequency_count in Hc. simpl in Hc. now symmetry.
Qed.

(** The totals of the rows read so far. *)
Definition well_totalled (done : list row) (d : dict string Q) : Prop :=
  NoDup (dict_keys d) /\
  (forall k t, In (k, t) d ->
     t = py_sum (map r_value (rows_of k done)) /\ rows_of k done <> []) /\
  (forall r, In r done -> In (company_key r) (dict_keys d)).

Lemma add_value_keys (k0 : string) (v : Q) (d : dict string Q) :
  dict_keys (add_value k0 v d)
  = if dict_contains k0 d then dict_keys d else dict_keys d ++ [k0].
Proof.
  induction d as [|[k t] d IH]; simpl; [reflexivity|].
  unfold keqb, EqKey_string in *.
  destruct (String.eqb k0 k); simpl; [reflexivity|].
  rewrite IH. now destruct (dict_contains k0 d).
Qed.

Lemma add_value_In (k0 : string) (v : Q) (d : dict string Q)
  (k : string) (t' : Q) :
  NoDup (dict_keys d) ->
  In (k, t') (add_value k0 v d) ->
  (k <> k0 /\ In (k, t') d) \/
  (k = k0 /\ exists t, In (k, t) d /\ t' = t + v) \/
  (k = k0 /\ dict_contains k d = false /\ t' = 0 + v).
Proof.
  induction d as [|[k1 t1] d IH]; simpl; intros Hnd Hin.
  - destruct Hin as [[= <- <-]|[]]. right. right. auto.
  - inversion Hnd as [|? ? Hk1 Hnd']; subst.
    unfold keqb, EqKey_string in *.
    destruct (String.eqb_spec k0 k1) as [E|Hne].
    + destruct Hin as [[= <- <-]|Hin].
      * right. left. split; [now symmetry|]. exists t1. split; [now left|].
        reflexivity.
      * left. split; [|now right]. intros ->. apply Hk1. rewrite <- E.
        unfold dict_keys. now apply (in_map fst) in Hin.
    + destruct Hin as [[= <- <-]|Hin].
      * left. split; [congruence | now left].
      * destruct (IH Hnd' Hin) as [[Hk Hd]|[[Hk [t [Ht Ht']]]|[Hk [Hc Ht']]]].
        -- left. split; [exact Hk | now right].
        -- right. left. split; [exact Hk|]. exists t. split; [now right|].
           exact Ht'.
        -- right. right. split; [exact Hk|]. split; [|exact Ht'].
           subst k. destruct (String.eqb_spec k0 k1);
             [contradiction | exact Hc].
Qed.

Lemma well_totalled_step (done : list row) (d : dict string Q) (h : row) :
  well_totalled done d ->
  well_totalled (done ++ [h]) (add_value (company_key h) (r_value h) d).
Proof.
  intros [Hnd [Hent Hcov]]. split; [|split].
  - rewrite add_value_keys.
    destruct (dict_contains (company_key h) d) eqn:E; [assumption|].
    apply dict_contains_false in E.
    apply NoDup_app; [assumption | repeat constructor; simpl; tauto |].
    intros a Ha [<-|[]]. contradiction.
  - intros k t' Hin. rewrite rows_of_snoc.
    destruct (add_value_In _ _ _ _ _ Hnd Hin)
      as [[Hk Hd]|[[Hk [t [Ht ->]]]|[Hk [Hc ->]]]].
    + destruct (String.eqb_spec (company_key h) k) as [E|_]; [congruence|].
      rewrite app_nil_r. now apply Hent.
    + subst k. destruct (Hent _ t Ht) as [Hsum Hne].
      rewrite String.eqb_refl, map_app. simpl.
      rewrite py_sum_snoc, <- Hsum. split; [reflexivity|].
      destruct (rows_of (company_key h) done); discriminate.
    + subst k. rewrite String.eqb_refl.
      assert (Hnone : rows_of (company_key h) done = []).
      { apply dict_contains_false in Hc. unfold rows_of.
        destruct (filter _ done) as [|x l] eqn:E; [reflexivity|].
        exfalso. apply Hc.
        assert (Hx : In x (filter
                  (fun r => String.eqb (company_key r) (company_key h)) done))
          by (rewrite E; now left).
        apply filter_In in Hx as [Hx Hco].
        apply String.eqb_eq in Hco. rewrite <- Hco. now apply Hcov. }
      rewrite Hnone. simpl. split; [reflexivity | discriminate].
  - intros r Hr. rewrite add_value_keys.
    apply in_app_or in Hr as [Hr|[<-|[]]].
    + apply Hcov in Hr.
      destruct (dict_contains _ d); [exact Hr|].
      apply in_or_app. now left.
    + destruct (dict_contains _ d) eqn:E.
      * now apply dict_contains_In.
      * apply in_or_app. right. now left.
Qed.

Lemma well_totalled_from (df done : list row) (d0 : dict string Q) :
  well_totalled done d0 ->
  well_totalled (done ++ df)
    (fold_left
       (fun d holding => add_value (company_key holding) (r_value holding) d)
       df d0).
Proof.
  revert done d0. induction df as [|h df IH]; intros done d0 Hw; simpl.
  - now rewrite app_nil_r.
  - replace (done ++ h :: df) with ((done ++ [h]) ++ df)
      by (now rewrite <- app_assoc).
    apply IH. now apply well_totalled_step.
Qed.

Lemma value_totals_well (df : list row) : well_totalled df (value_totals df).
Proof.
  apply (well_totalled_from df [] []). split; [constructor|]. split.
  - intros k t [].
  - intros r [].
Qed.

Lemma fund_count_of_rows (df : list row) (x : frequent) :
  exact_frequent df x ->
  (f_fund_count x <= List.length (rows_of (f_company x) df))%nat /\
  (NoDup (map r_fund_name (rows_of (f_company x) df)) ->
   f_fund_count x = List.length (rows_of (f_company x) df)).
Proof.
  intros [_ [_ [Hs [Hin [Hc [[_ Hle] _]]]]]]. split; [exact Hle|].
  intros Hnd. rewrite Hc, <- (length_map r_fund_name).
  apply Permutation_length, NoDup_Permutation; [|exact Hnd | exact Hin].
  clear - Hs. induction Hs as [|a l Hs IH Ha]; constructor; [|exact IH].
  intros Hin. rewrite Forall_forall in Ha. specialize (Ha a Hin).
  pose proof (string_ltb_asym a a Ha). congruence.
Qed.

(** X25. The master workbook and the enhanced workbook agree on the
    totals and differ on the counts.  For a company key the total of the
    master's top values is the total of the enhanced entry, the sum of
    the values of its rows.  The master's frequency is the number of rows
    under the key, while the enhanced fund count is the number of funds
    among them: never more, and the same when no fund has two rows under
    the key. *)
Theorem workbooks_agree_on_totals (df : list row) :
  Forall (fun e =>
    snd e = List.length (rows_of (fst e) df) /\
    Forall (fun x =>
      f_company x = fst e ->
      (f_fund_count x <= snd e)%nat /\
      (NoDup (map r_fund_name (rows_of (fst e) df)) -> f_fund_count x = snd e))
      (o_top_frequent (perform_enhanced_overall_analysis df)))
    (m_top_frequent (perform_overall_analysis df)) /\
  Forall (fun e =>
    snd e = py_sum (map r_value (rows_of (fst e) df)) /\
    Forall (fun x => f_company x = fst e -> f_total_value x = snd e)
      (o_top_values (perform_enhanced_overall_analysis df)))
    (m_top_values (perform_overall_analysis df)).
Proof.
  split; apply Forall_forall; intros [k n] Hin; cbn [fst snd].
  - assert (Hn : n = List.length (rows_of k df)).
    { apply frequency_entry. unfold perform_overall_analysis in Hin.
      cbn [m_top_frequent] in Hin. now apply most_common_In in Hin. }
    split; [exact Hn|].
    apply Forall_forall. intros x Hx Hk.
    assert (Hex : exact_frequent df x).
    { rewrite top_frequent_eq in Hx. apply firstn_In in Hx.
      destruct (frequent_exact_all df _ (frequent_holdings_perm df)) as [Hall _].
      rewrite Forall_forall in Hall. now apply Hall. }
    rewrite Hn, <- Hk. now apply fund_count_of_rows.
  - destruct (value_totals_well df) as [_ [Hent _]].
    assert (Hn : n = py_sum (map r_value (rows_of k df))).
    { apply Hent. unfold perform_overall_analysis in Hin.
      cbn [m_top_values] in Hin. apply firstn_In in Hin.
      eapply Permutation_in; [apply Permutation_sym, sort_desc_perm | exact Hin]. }
    split; [exact Hn|].
    apply Forall_forall. intros x Hx Hk.
    pose proof (top_values_exact df) as Hall.
    rewrite Forall_forall in Hall. destruct (Hall x Hx) as [_ [Ht _]].
    now rewrite Ht, Hk, Hn.
Qed.

Example master_counts_rows :
  let df := [ mkRow "FundA" "Alpha" "ALP" 10 100 "Bio";
              mkRow "FundA" "Alpha" "ALP" 20 300 "Bio" ] in
  m_top_frequent (perform_overall_analysis df) = [("Alpha (ALP)", 2%nat)] /\
  map (fun x => (f_company x, f_fund_count x))
    (o_top_frequent (perform_enhanced_overall_analysis df))
  = [("Alpha (ALP)", 1%nat)].
Proof. split; reflexivity. Qed.

End MasterFacts.

(** ** The aggregates of the comprehensive report *)

Module CellFacts.
Import Classifier ClassifierFacts Summary SummaryFacts ComparisonFacts ReportFacts.
Import Cells.

(** *** Company entries *)

Lemma same_key_eq (a b : label) : same_key a b = true <-> a = b.
Proof.
  destruct a as [x|i], b as [y|j]; simpl; try (split; discriminate).
  - rewrite String.eqb_eq. split; congruence.
  - rewrite Nat.eqb_eq. split; congruence.
Qed.

Lemma same_key_refl (a : label) : same_key a a = true.
Proof. now apply same_key_eq. Qed.

Definition label_dec (a b : label) : {a = b} + {a <> b}.
Proof.
  decide equality; [apply string_dec | apply Nat.eq_dec].
Defined.

(** The company entries of a list, each once. *)
Definition companies (positions : list labelled) : list label :=
  nodup label_dec (map l_company positions).

(** Against a text [==] is the test of the dict; against NaN it fails. *)
Lemma label_eqb_text (a : label) (s : string) :
  label_eqb a (Text s) = same_key a (Text s).
Proof. now destruct a. Qed.

Lemma label_eqb_nan (a : label) (i : nat) : label_eqb a (NaN i) = false.
Proof. now destruct a. Qed.

(** The positions stored under a key, and those equal to it. *)
Definition under (k : label) (positions : list labelled) : list labelled :=
  filter (fun pos => same_key (l_company pos) k) positions.

Definition matching (k : label) (positions : list labelled) : list labelled :=
  filter (fun pos => label_eqb (l_company pos) k) positions.

Definition value_at (pos : labelled) : Q := value (pos_base (l_entries pos)).

Lemma matching_text (s : string) (positions : list labelled) :
  matching (Text s) positions = under (Text s) positions.
Proof.
  unfold matching, under. apply filter_ext. intros pos.
  apply label_eqb_text.
Qed.

Lemma matching_nan (i : nat) (positions : list labelled) :
  matching (NaN i) positions = [].
Proof.
  unfold matching. induction positions as [|pos l IH]; simpl; [reflexivity|].
  now rewrite label_eqb_nan.
Qed.

Lemma under_snoc (k : label) (done : list labelled) (pos : labelled) :
  under k (done ++ [pos])
  = under k done ++ (if same_key (l_company pos) k then [pos] else []).
Proof.
  unfold under. rewrite filter_app. simpl.
  now destruct (same_key (l_company pos) k).
Qed.

(** *** The counter *)

Lemma label_counter_keys (k0 : label) (c : dict label nat) :
  map fst (counter_incr k0 c)
  = if existsb (same_key k0) (map fst c) then map fst c
    else map fst c ++ [k0].
Proof.
  induction c as [|[k n] c IH]; simpl; [reflexivity|].
  destruct (same_key k0 k); simpl; [reflexivity|].
  rewrite IH. now destruct (existsb (same_key k0) (map fst c)).
Qed.

Lemma existsb_same_key (k0 : label) (ks : list label) :
  existsb (same_key k0) ks = true <-> In k0 ks.
Proof.
  rewrite existsb_exists. split.
  - intros [k [Hk E]]. apply same_key_eq in E. now subst.
  - intros Hin. exists k0. split; [exact Hin | apply same_key_refl].
Qed.

Lemma counter_incr_In (k0 : label) (c : dict label nat) (k : label) (n' : nat) :
  NoDup (map fst c) ->
  In (k, n') (counter_incr k0 c) ->
  (k <> k0 /\ In (k, n') c) \/
  (k = k0 /\ exists n, In (k, n) c /\ n' = S n) \/
  (k = k0 /\ ~ In k (map fst c) /\ n' = 1%nat).
Proof.
  induction c as [|[k1 n1] c IH]; simpl; intros Hnd Hin.
  - destruct Hin as [[= <- <-]|[]]. right. right. auto.
  - inversion Hnd as [|? ? Hk1 Hnd']; subst.
    destruct (same_key k0 k1) eqn:E.
    + apply same_key_eq in E. subst k1.
      destruct Hin as [[= <- <-]|Hin].
      * right. left. split; [reflexivity|]. exists n1. split; [now left|].
        reflexivity.
      * left. split; [|now right]. intros ->. apply Hk1.
        now apply (in_map fst) in Hin.
    + assert (Hne : k0 <> k1).
      { intros ->. rewrite same_key_refl in E. discriminate. }
      destruct Hin as [[= <- <-]|Hin].
      * left. split; [congruence | now left].
      * destruct (IH Hnd' Hin) as [[Hk Hd]|[[Hk [n [Hn Hn']]]|[Hk [Hc Hn']]]].
        -- left. split; [exact Hk | now right].
        -- right. left. split; [exact Hk|]. exists n. split; [now right|].
           exact Hn'.
        -- right. right. split; [exact Hk|]. split; [|exact Hn'].
           subst k. intros [Heq|Hin']; [congruence | contradiction].
Qed.

(** The counts of the positions read so far. *)
Definition well_counted (done : list labelled) (c : dict label nat) : Prop :=
  NoDup (map fst c) /\
  (forall k n, In (k, n) c ->
     n = List.length (under k done) /\ (1 <= n)%nat) /\
  (forall pos, In pos done -> In (l_company pos) (map fst c)).

Lemma under_none (done : list labelled) (c : dict label nat) (k : label) :
  (forall pos, In pos done -> In (l_company pos) (map fst c)) ->
  ~ In k (map fst c) -> under k done = [].
Proof.
  intros Hcov Hout. unfold under.
  destruct (filter _ done) as [|x l] eqn:E; [reflexivity|].
  exfalso. apply Hout.
  assert (Hx : In x (filter (fun pos => same_key (l_company pos) k) done))
    by (rewrite E; now left).
  apply filter_In in Hx as [Hx Hk]. apply same_key_eq in Hk.
  rewrite <- Hk. now apply Hcov.
Qed.

Lemma well_counted_step (done : list labelled) (c : dict label nat)
  (pos : labelled) :
  well_counted done c ->
  well_counted (done ++ [pos]) (counter_incr (l_company pos) c).
Proof.
  intros [Hnd [Hent Hcov]]. split; [|split].
  - rewrite label_counter_keys.
    destruct (existsb (same_key (l_company pos)) (map fst c)) eqn:E;
      [assumption|].
    apply NoDup_app; [assumption | repeat constructor; simpl; tauto |].
    intros a Ha [<-|[]].
    apply existsb_same_key in Ha. congruence.
  - intros k n' Hin. rewrite under_snoc.
    destruct (counter_incr_In _ _ _ _ Hnd Hin)
      as [[Hk Hd]|[[Hk [n [Hn ->]]]|[Hk [Hc ->]]]].
    + destruct (same_key (l_company pos) k) eqn:E.
      * apply same_key_eq in E. congruence.
      * rewrite app_nil_r. now apply Hent.
    + subst k. destruct (Hent _ n Hn) as [Hlen Hpos].
      rewrite same_key_refl, length_app. simpl. split; lia.
    + subst k. rewrite same_key_refl.
      rewrite (under_none done c _ Hcov Hc). simpl. split; lia.
  - intros p Hp. rewrite label_counter_keys.
    apply in_app_or in Hp as [Hp|[<-|[]]].
    + apply Hcov in Hp.
      destruct (existsb _ (map fst c)); [exact Hp|].
      apply in_or_app. now left.
    + destruct (existsb _ (map fst c)) eqn:E.
      * now apply existsb_same_key.
      * apply in_or_app. right. now left.
Qed.

Lemma well_counted_from (positions done : list labelled)
  (c0 : dict label nat) :
  well_counted done c0 ->
  well_counted (done ++ positions)
    (fold_left (fun c pos => counter_incr (l_company pos) c) positions c0).
Proof.
  revert done c0. induction positions as [|p ps IH]; intros done c0 Hw; simpl.
  - now rewrite app_nil_r.
  - replace (done ++ p :: ps) with ((done ++ [p]) ++ ps)
      by (now rewrite <- app_assoc).
    apply IH. now apply well_counted_step.
Qed.

Lemma Counter_well (positions : list labelled) :
  well_counted positions (Counter positions).
Proof.
  apply (well_counted_from positions [] []). split; [constructor|]. split.
  - intros k n [].
  - intros pos [].
Qed.

Lemma Counter_length (positions : list labelled) :
  List.length (Counter positions) = List.length (companies positions).
Proof.
  destruct (Counter_well positions) as [Hnd [Hent Hcov]].
  rewrite <- (length_map fst).
  apply Permutation_length, NoDup_Permutation; [exact Hnd | apply NoDup_nodup|].
  intros k. unfold companies. rewrite nodup_In. split.
  - intros Hk. apply in_map_iff in Hk as [[k' n] [<- He]]. simpl.
    destruct (Hent k' n He) as [Hn Hpos].
    destruct (under k' positions) as [|pos l] eqn:E; [simpl in Hn; lia|].
    assert (Hin : In pos (under k' positions)) by (rewrite E; now left).
    apply filter_In in Hin as [Hin Hk]. apply same_key_eq in Hk.
    apply in_map_iff. now exists pos.
  - intros Hk. apply in_map_iff in Hk as [pos [<- Hpos]]. now apply Hcov.
Qed.

Lemma most_common_length (n : nat) (c : dict label nat) :
  List.length (most_common n c) = Nat.min n (List.length c).
Proof.
  unfold most_common. rewrite length_firstn.
  now rewrite <- (Permutation_length (sort_desc_perm _ c)).
Qed.

Lemma most_common_perm (n : nat) (c : dict label nat) :
  (List.length c <= n)%nat -> Permutation c (most_common n c).
Proof.
  intros Hlen. unfold most_common. rewrite firstn_all2.
  - apply sort_desc_perm.
  - now rewrite <- (Permutation_length (sort_desc_perm _ c)).
Qed.

Lemma most_common_entry (n : nat) (c : dict label nat) (e : label * nat) :
  In e (most_common n c) -> In e c.
Proof.
  unfold most_common. intros Hin. apply firstn_In in Hin.
  eapply Permutation_in; [apply Permutation_sym, sort_desc_perm | exact Hin].
Qed.

Lemma most_common_keys (n : nat) (c : dict label nat) :
  NoDup (map fst c) -> NoDup (map fst (most_common n c)).
Proof.
  intros Hnd. unfold most_common. rewrite <- firstn_map.
  apply firstn_NoDup.
  eapply Permutation_NoDup; [|exact Hnd].
  apply Permutation_map, sort_desc_perm.
Qed.

(** *** One aggregate *)

(** Lists as the script builds them: every dict carries the change
    entries, or none does. *)
Definition uniform (positions : list labelled) : Prop :=
  (forall pos, In pos positions -> has_pct_change (l_entries pos) = true) \/
  (forall pos, In pos positions -> has_pct_change (l_entries pos) = false).

Lemma sum_of_from {A : Type} (f : A -> result Q) (g : A -> Q) (xs : list A)
  (acc : Q) :
  (forall x, In x xs -> f x = Ok (g x)) ->
  for_in xs (fun x acc => v <- f x ;; Ok (acc + v)) acc
  = Ok (fold_left Qplus (map g xs) acc).
Proof.
  revert acc. induction xs as [|x xs IH]; intros acc Hf; simpl; [reflexivity|].
  rewrite Hf by now left. simpl. apply IH. intros; apply Hf; now right.
Qed.

Lemma sum_of_ok {A : Type} (f : A -> result Q) (g : A -> Q) (xs : list A) :
  (forall x, In x xs -> f x = Ok (g x)) ->
  sum_of f xs = Ok (py_sum (map g xs)).
Proof. intros Hf. unfold sum_of, py_sum. now apply sum_of_from. Qed.

Lemma pct_change_of_changed (pos : pos_dict) :
  has_pct_change pos = true -> pct_change_of pos = Ok (get_pct_change pos).
Proof. destruct pos; [discriminate | reflexivity]. Qed.

Lemma dollar_change_of_changed (pos : pos_dict) :
  has_pct_change pos = true ->
  dollar_change_of pos = Ok (get_dollar_change pos).
Proof. destruct pos; [discriminate | reflexivity]. Qed.

(** The aggregate of an entry when no lookup fails. *)
Definition plain_aggregate (positions : list labelled) (category_name : string)
  (entry : label * nat) : aggregate :=
  let company_positions := matching (fst entry) positions in
  let total_value := py_sum (map value_at company_positions) in
  let with_increase :=
    String.eqb category_name "increases" &&
    match company_positions with
    | [] => false
    | sample_pos :: _ => has_pct_change (l_entries sample_pos)
    end in
  {| a_company := fst entry;
     a_ticker := match company_positions with
                 | [] => ""
                 | sample_pos :: _ => ticker (pos_base (l_entries sample_pos))
                 end;
     a_funds_count := snd entry;
     a_total_value := total_value;
     a_avg_position_size :=
       match company_positions with
       | [] => 0
       | _ :: _ => total_value / len company_positions
       end;
     a_industry := match company_positions with
                   | [] => ""
                   | sample_pos :: _ =>
                       industry (pos_base (l_entries sample_pos))
                   end;
     a_avg_pct_increase :=
       if with_increase then
         Some (py_sum (map (fun pos => get_pct_change (l_entries pos))
                         company_positions)
               / len company_positions)
       else None;
     a_total_dollar_increase :=
       if with_increase then
         Some (py_sum (map (fun pos => get_dollar_change (l_entries pos))
                         company_positions))
       else None |}.

Lemma aggregate_of_uniform (positions : list labelled)
  (category_name : string) (entry : label * nat) :
  uniform positions \/ String.eqb category_name "increases" = false ->
  aggregate_of positions category_name entry
  = Ok (plain_aggregate positions category_name entry).
Proof.
  intros Hu. destruct entry as [k n]. unfold aggregate_of, plain_aggregate.
  simpl fst. simpl snd. fold (matching k positions).
  destruct (String.eqb category_name "increases") eqn:Ec; simpl;
    [|reflexivity].
  destruct Hu as [Hu|Hu]; [|discriminate].
  destruct (matching k positions) as [|sample rest] eqn:E; [reflexivity|].
  destruct (has_pct_change (l_entries sample)) eqn:Es; [|reflexivity].
  assert (Hall : forall pos, In pos (sample :: rest) ->
            has_pct_change (l_entries pos) = true).
  { assert (Hin : forall pos, In pos (sample :: rest) -> In pos positions).
    { intros pos Hpos. rewrite <- E in Hpos. unfold matching in Hpos.
      now apply filter_In in Hpos. }
    destruct Hu as [Hyes|Hno]; [intros pos Hpos; now apply Hyes, Hin|].
    rewrite Hno in Es by (apply Hin; now left). discriminate. }
  rewrite (sum_of_ok _ (fun pos => get_pct_change (l_entries pos)))
    by (intros pos Hpos; now apply pct_change_of_changed, Hall).
  simpl.
  rewrite (sum_of_ok _ (fun pos => get_dollar_change (l_entries pos)))
    by (intros pos Hpos; now apply dollar_change_of_changed, Hall).
  reflexivity.
Qed.

Lemma flat_map_single {A B : Type} (f : A -> B) (l : list A) :
  flat_map (fun x => [f x]) l = map f l.
Proof. induction l as [|x l IH]; simpl; [reflexivity | now rewrite IH]. Qed.

Lemma detailed_uniform (positions : list labelled) (category_name : string) :
  uniform positions \/ String.eqb category_name "increases" = false ->
  detailed positions category_name
  = Ok (map (plain_aggregate positions category_name)
          (most_common 30 (Counter positions))).
Proof.
  intros Hu. unfold detailed, create_detailed_analysis.
  rewrite (for_in_append
             (fun e => [plain_aggregate positions category_name e])).
  - now rewrite flat_map_single.
  - intros e acc _. now rewrite aggregate_of_uniform.
Qed.

(** What an aggregate says of the positions it was made from. *)
Definition exact_aggregate (positions : list labelled) (d : aggregate)
  : Prop :=
  a_funds_count d = List.length (under (a_company d) positions) /\
  (1 <= a_funds_count d)%nat /\
  match a_company d with
  | Text s =>
      a_total_value d = py_sum (map value_at (under (Text s) positions)) /\
      a_avg_position_size d
      = a_total_value d / inject_Z (Z.of_nat (a_funds_count d)) /\
      exists sample rest,
        under (Text s) positions = sample :: rest /\
        a_ticker d = ticker (pos_base (l_entries sample)) /\
        a_industry d = industry (pos_base (l_entries sample))
  | NaN _ =>
      a_total_value d = 0 /\
      a_avg_position_size d = 0 /\
      a_ticker d = EmptyString /\
      a_industry d = EmptyString /\
      a_avg_pct_increase d = None /\
      a_total_dollar_increase d = None
  end.

Lemma plain_aggregate_exact (positions : list labelled)
  (category_name : string) (k : label) (n : nat) :
  n = List.length (under k positions) -> (1 <= n)%nat ->
  exact_aggregate positions (plain_aggregate positions category_name (k, n)).
Proof.
  intros Hn Hpos. unfold exact_aggregate, plain_aggregate. simpl.
  split; [exact Hn|]. split; [exact Hpos|].
  destruct k as [s|i].
  - rewrite matching_text.
    destruct (under (Text s) positions) as [|sample rest] eqn:E;
      [simpl in Hn; lia|].
    split; [reflexivity|]. split.
    + rewrite Hn. reflexivity.
    + exists sample, rest. auto.
  - rewrite matching_nan. simpl. rewrite andb_false_r. repeat split.
Qed.

Lemma plain_aggregates_exact (positions : list labelled)
  (category_name : string) :
  Forall (exact_aggregate positions)
    (map (plain_aggregate positions category_name)
       (most_common 30 (Counter positions))).
Proof.
  destruct (Counter_well positions) as [_ [Hent _]].
  apply Forall_forall. intros d Hd.
  apply in_map_iff in Hd as [[k n] [<- He]].
  apply most_common_entry, Hent in He as [Hn Hpos].
  now apply plain_aggregate_exact.
Qed.

Definition buy (name : label) (v : Q) : labelled :=
  {| l_company := name;
     l_entries := Plain (position_of_row (holding_row "FundA" "" v)) |}.

Definition buys_with_empty_cell : list labelled :=
  [ buy (Text "Alpha") 1; buy (NaN 0) 2; buy (NaN 0) 4 ].

(** X7. Of a list whose dicts all carry the change entries, or none, the
    aggregation returns; each aggregate counts exactly the positions
    stored under its company, at least one.  For a company that is a text
    the total is the sum of their values, the average is the total divided
    by the count, and ticker and industry are those of the first of them.
    For a company that is NaN, the entry of an empty cell, no position
    compares equal to it: the total and the average are 0, ticker and
    industry are empty and no increase figure is carried, whatever the
    count.  No company has two aggregates, and there are as many
    aggregates as companies, up to 30; the summary's filter on a count
    above zero keeps them all. *)
Theorem detailed_aggregates_are_exact
  (positions : list labelled) (category_name : string) :
  uniform positions ->
  exists details,
    detailed positions category_name = Ok details /\
    List.length details = Nat.min 30 (List.length (companies positions)) /\
    NoDup (map a_company details) /\
    Forall (exact_aggregate positions) details /\
    count_with_funds details = List.length details.
Proof.
  intros Hu. eexists. split; [apply detailed_uniform; now left|].
  pose proof (plain_aggregates_exact positions category_name) as Hall.
  destruct (Counter_well positions) as [Hnd _].
  split; [|split; [|split]].
  - now rewrite length_map, most_common_length, Counter_length.
  - rewrite map_map. simpl. now apply most_common_keys.
  - exact Hall.
  - unfold count_with_funds. rewrite filter_all; [reflexivity|].
    intros d Hd. rewrite Forall_forall in Hall.
    destruct (Hall d Hd) as [_ [Hpos _]]. now apply Nat.ltb_lt.
Qed.

Lemma detailed_aggregates_are_exact_witness :
  exists details,
    detailed buys_with_empty_cell "new_buys" = Ok details /\
    List.length details
    = Nat.min 30 (List.length (companies buys_with_empty_cell)) /\
    NoDup (map a_company details) /\
    Forall (exact_aggregate buys_with_empty_cell) details /\
    count_with_funds details = List.length details.
Proof.
  apply (detailed_aggregates_are_exact buys_with_empty_cell "new_buys").
  right. intros pos [<-|[<-|[<-|[]]]]; reflexivity.
Defined.

(** Two positions with an empty company cell: counted, and valued at 0. *)
Example empty_cell_is_counted_not_summed :
  option_map
    (map (fun d => (a_company d, a_funds_count d, a_total_value d)))
    (match detailed buys_with_empty_cell "new_buys" with
     | Ok details => Some details
     | Raise _ => None
     end)
  = Some [(NaN 0, 2%nat, 0); (Text "Alpha", 1%nat, 0 + 1)].
Proof. reflexivity. Qed.

(** A dict without the change entries behind one that has them, under
    the same company: the sum over ['pct_change'] fails. *)
Example mixed_list_raises :
  detailed
    [ {| l_company := Text "Alpha";
         l_entries :=
           Changed (change_of (position_of_row (holding_row "FundA" "Alpha" 160))
                      (position_of_row (holding_row "FundA" "Alpha" 100))
                      (position_of_row (holding_row "FundA" "Alpha" 160))) |};
      buy (Text "Alpha") 1 ]
    "increases"
  = Raise KeyError.
Proof. reflexivity. Qed.

(** *** Nothing is lost *)

Lemma qsum_pick_label (c : label) (x : Q) (ks : list label) :
  NoDup ks -> In c ks ->
  qsum (map (fun k => if same_key c k then x else 0) ks) == x.
Proof.
  induction 1 as [|k ks Hk Hnd IH]; intros Hin; simpl; [contradiction|].
  destruct (same_key c k) eqn:E.
  - apply same_key_eq in E. subst k.
    rewrite (qsum_ext _ (fun _ => 0)).
    + rewrite qsum_zero. ring.
    + intros y Hy. destruct (same_key c y) eqn:Ey; [|reflexivity].
      apply same_key_eq in Ey. subst y. contradiction.
  - destruct Hin as [->|Hin]; [rewrite same_key_refl in E; discriminate|].
    rewrite IH by assumption. ring.
Qed.

Lemma nsum_pick_label (c : label) (ks : list label) :
  NoDup ks -> In c ks ->
  list_sum (map (fun k => if same_key c k then 1%nat else 0%nat) ks) = 1%nat.
Proof.
  induction 1 as [|k ks Hk Hnd IH]; intros Hin; simpl; [contradiction|].
  destruct (same_key c k) eqn:E.
  - apply same_key_eq in E. subst k. f_equal.
    clear IH Hin. induction ks as [|y ks IH]; simpl; [reflexivity|].
    destruct (same_key c y) eqn:Ey.
    + apply same_key_eq in Ey. subst y. exfalso. apply Hk. now left.
    + apply IH.
      * intros Hy. apply Hk. now right.
      * now inversion Hnd.
  - destruct Hin as [->|Hin]; [rewrite same_key_refl in E; discriminate|].
    now rewrite IH.
Qed.

Lemma under_qsum (w : labelled -> Q) (ks : list label)
  (positions : list labelled) :
  NoDup ks ->
  (forall pos, In pos positions -> In (l_company pos) ks) ->
  qsum (map (fun k => qsum (map w (under k positions))) ks)
  == qsum (map w positions).
Proof.
  intros Hnd. induction positions as [|p ps IH]; intros Hcov; simpl.
  - apply qsum_zero.
  - rewrite <- IH by (intros; apply Hcov; now right).
    rewrite <- (qsum_pick_label (l_company p) (w p) ks Hnd)
      by (apply Hcov; now left).
    rewrite <- qsum_plus. apply qsum_ext. intros k _.
    unfold under. simpl.
    destruct (same_key (l_company p) k); simpl; ring.
Qed.

Lemma under_count (ks : list label) (positions : list labelled) :
  NoDup ks ->
  (forall pos, In pos positions -> In (l_company pos) ks) ->
  list_sum (map (fun k => List.length (under k positions)) ks)
  = List.length positions.
Proof.
  intros Hnd. induction positions as [|p ps IH]; intros Hcov; simpl.
  - apply nsum_zero.
  - transitivity
      (list_sum
         (map (fun k => (if same_key (l_company p) k then 1 else 0)
                        + List.length (under k ps))%nat ks)).
    + f_equal. apply map_ext. intros k. unfold under. simpl.
      now destruct (same_key (l_company p) k).
    + rewrite nsum_plus, nsum_pick_label
        by (assumption || (apply Hcov; now left)).
      rewrite IH by (intros; apply Hcov; now right). reflexivity.
Qed.

(** No company cell is empty, and the values are whole numbers. *)
Definition all_texts (positions : list labelled) : Prop :=
  forall pos, In pos positions -> exists s, l_company pos = Text s.

Definition whole_values (positions : list labelled) : Prop :=
  forall pos, In pos positions -> exists z : Z, value_at pos = inject_Z z.

(** X8. With at most 30 companies in a list of one kind the counts of
    the aggregates add up to the number of positions.  When no company
    cell is empty and the values are whole numbers their totals add up to
    the total value of the positions; a position with an empty company
    cell is counted and its value is lost. *)
Theorem detailed_aggregates_lose_nothing
  (positions : list labelled) (category_name : string) :
  uniform positions ->
  (List.length (companies positions) <= 30)%nat ->
  exists details,
    detailed positions category_name = Ok details /\
    list_sum (map a_funds_count details) = List.length positions /\
    (all_texts positions -> whole_values positions ->
     total_value_of details == py_sum (map value_at positions)).
Proof.
  intros Hu Hlen. rewrite <- Counter_length in Hlen.
  eexists. split; [apply detailed_uniform; now left|].
  destruct (Counter_well positions) as [Hnd [Hent Hcov]].
  pose proof (most_common_perm 30 (Counter positions) Hlen) as Hperm.
  unfold total_value_of. rewrite !map_map. split.
  - rewrite (map_ext _ snd) by reflexivity.
    rewrite <- (nsum_perm _ _ (Permutation_map snd Hperm)).
    rewrite <- (under_count (map fst (Counter positions)) positions Hnd Hcov).
    f_equal. rewrite map_map. apply map_ext_in.
    intros [k n] He. now apply Hent in He.
  - intros Htext _. rewrite !py_sum_qsum.
    rewrite <- (under_qsum value_at (map fst (Counter positions)) positions
                  Hnd Hcov).
    rewrite <- (qsum_perm _ _ (Permutation_map _ Hperm)).
    rewrite map_map. apply qsum_ext.
    intros [k n] He. simpl. rewrite py_sum_qsum.
    destruct k as [s|i]; [now rewrite matching_text|].
    exfalso. destruct (Hent _ _ He) as [Hn Hpos].
    destruct (under (NaN i) positions) as [|pos l] eqn:E; [simpl in Hn; lia|].
    assert (Hin : In pos (under (NaN i) positions)) by (rewrite E; now left).
    apply filter_In in Hin as [Hin Hk]. apply same_key_eq in Hk.
    destruct (Htext pos Hin) as [s Hs]. congruence.
Qed.

Lemma detailed_aggregates_lose_nothing_witness :
  exists details,
    detailed buys_with_empty_cell "new_buys" = Ok details /\
    list_sum (map a_funds_count details)
    = List.length buys_with_empty_cell /\
    (all_texts buys_with_empty_cell -> whole_values buys_with_empty_cell ->
     total_value_of details == py_sum (map value_at buys_with_empty_cell)).
Proof.
  apply (detailed_aggregates_lose_nothing buys_with_empty_cell "new_buys").
  - right. intros pos [<-|[<-|[<-|[]]]]; reflexivity.
  - simpl. lia.
Defined.

(** The value of the two positions with an empty cell is not in the
    totals. *)
Example empty_cell_value_is_lost :
  match detailed buys_with_empty_cell "new_buys" with
  | Ok details =>
      total_value_of details == 1 /\
      py_sum (map value_at buys_with_empty_cell) == 7
  | Raise _ => False
  end.
Proof. simpl. split; reflexivity. Qed.

(** *** The report on the increases *)

Definition shows_increase (d : aggregate) : Prop :=
  (exists avg, a_avg_pct_increase d = Some avg /\ 1 # 2 < avg) /\
  (exists total, a_total_dollar_increase d = Some total /\ 0 < total).

Definition shows_no_increase (d : aggregate) : Prop :=
  a_avg_pct_increase d = None /\ a_total_dollar_increase d = None.

(** The dicts of the list of increases: copies with the change entries,
    the percentage above 50% and the dollar change above zero. *)
Definition increase_records (positions : list labelled) : Prop :=
  forall pos, In pos positions ->
    exists c, l_entries pos = Changed c /\ sound_increase c.

Lemma increase_records_uniform (positions : list labelled) :
  increase_records positions -> uniform positions.
Proof.
  intros Hrec. left. intros pos Hpos.
  destruct (Hrec pos Hpos) as [c [-> _]]. reflexivity.
Qed.

Lemma increase_aggregate (positions : list labelled) (s : string) (n : nat) :
  increase_records positions ->
  under (Text s) positions <> [] ->
  shows_increase (plain_aggregate positions "increases" (Text s, n)).
Proof.
  intros Hrec Hne. unfold shows_increase, plain_aggregate. simpl.
  rewrite matching_text.
  assert (Hheld : forall pos, In pos (under (Text s) positions) ->
            exists c, l_entries pos = Changed c /\ sound_increase c).
  { intros pos Hpos. apply Hrec. unfold under in Hpos.
    now apply filter_In in Hpos. }
  destruct (under (Text s) positions) as [|sample rest] eqn:E; [congruence|].
  destruct (Hheld sample (or_introl eq_refl)) as [c0 [E0 _]].
  rewrite E0. simpl.
  assert (Hpct : Forall (fun pos => 1 # 2 < get_pct_change (l_entries pos))
                   (sample :: rest)).
  { apply Forall_forall. intros pos Hpos.
    destruct (Hheld pos Hpos) as [c [-> Hc]]. simpl. apply Hc. }
  assert (Hdol : Forall (fun pos => 0 < get_dollar_change (l_entries pos))
                   (sample :: rest)).
  { apply Forall_forall. intros pos Hpos.
    destruct (Hheld pos Hpos) as [c [-> Hc]]. simpl. apply Hc. }
  split.
  - eexists. split; [reflexivity|].
    now apply (average_above (fun pos => get_pct_change (l_entries pos))
                 (1 # 2) (sample :: rest)).
  - eexists. split; [reflexivity|].
    now apply (total_above (fun pos => get_dollar_change (l_entries pos))
                 (sample :: rest)).
Qed.

(** X9. Of a list of increase records the aggregation for the increases
    returns an aggregate for each company, up to 30: every aggregate
    whose company is a text shows an average increase above 50% and a
    total dollar increase above zero, and one whose company is NaN, the
    entry of an empty cell, shows neither figure.  For the other
    categories the aggregation returns for every list and no aggregate
    carries either figure. *)
Theorem increases_report_is_sound (positions : list labelled) :
  (increase_records positions ->
   exists details,
     detailed positions "increases" = Ok details /\
     List.length details = Nat.min 30 (List.length (companies positions)) /\
     Forall (fun d => match a_company d with
                      | Text _ => shows_increase d
                      | NaN _ => shows_no_increase d
                      end) details) /\
  (forall category_name,
     String.eqb category_name "increases" = false ->
     exists details,
       detailed positions category_name = Ok details /\
       Forall shows_no_increase details).
Proof.
  split.
  - intros Hrec. eexists.
    split; [apply detailed_uniform; left; now apply increase_records_uniform|].
    split; [now rewrite length_map, most_common_length, Counter_length|].
    destruct (Counter_well positions) as [_ [Hent _]].
    apply Forall_forall. intros d Hd.
    apply in_map_iff in Hd as [[k n] [<- He]].
    apply most_common_entry, Hent in He as [Hn Hpos].
    destruct k as [s|i].
    + apply increase_aggregate; [exact Hrec|].
      intros E. rewrite E in Hn. simpl in Hn. lia.
    + unfold shows_no_increase, plain_aggregate. simpl.
      rewrite matching_nan. simpl. now split.
  - intros category_name Hc. eexists.
    split; [apply detailed_uniform; now right|].
    apply Forall_forall. intros d Hd.
    apply in_map_iff in Hd as [e [<- _]].
    unfold shows_no_increase, plain_aggregate. simpl. rewrite Hc. now split.
Qed.

Definition increase (name : label) (fund : string) (v4 v1 : Q) : labelled :=
  {| l_company := name;
     l_entries :=
       Changed (change_of (position_of_row (holding_row fund "" v1))
                  (position_of_row (holding_row fund "" v4))
                  (position_of_row (holding_row fund "" v1))) |}.

(** Two increases of one company, and one with an empty company cell. *)
Example increases_with_empty_cell :
  option_map
    (map (fun d => (a_company d, a_funds_count d,
                    a_avg_pct_increase d, a_total_dollar_increase d)))
    (match detailed [ increase (Text "Alpha") "FundA" 100 200;
                      increase (NaN 0) "FundB" 100 300;
                      increase (Text "Alpha") "FundC" 100 400 ] "increases" with
     | Ok details => Some details
     | Raise _ => None
     end)
  = Some [ (Text "Alpha", 2%nat,
            Some ((0 + (200 - 100) / 100 + (400 - 100) / 100) / len [0; 0]),
            Some (0 + (200 - 100) + (400 - 100)));
           (NaN 0, 1%nat, None, None) ].
Proof. reflexivity. Qed.

(** *** Text companies

    On dicts whose company entry is the text they were stored with, the
    aggregation above is the one stated for texts. *)

Definition lift (d : detail) : aggregate :=
  {| a_company := Text (d_company d);
     a_ticker := d_ticker d;
     a_funds_count := d_funds_count d;
     a_total_value := d_total_value d;
     a_avg_position_size := d_avg_position_size d;
     a_industry := d_industry d;
     a_avg_pct_increase := d_avg_pct_increase d;
     a_total_dollar_increase := d_total_dollar_increase d |}.

Definition lift_entry (e : string * nat) : label * nat := (Text (fst e), snd e).

Lemma matching_of_text (k : string) (positions : list pos_dict) :
  matching (Text k) (map of_text positions)
  = map of_text
      (filter (fun pos => String.eqb (company (pos_base pos)) k) positions).
Proof.
  unfold matching. induction positions as [|p ps IH]; simpl; [reflexivity|].
  destruct (String.eqb (company (pos_base p)) k); simpl; now rewrite IH.
Qed.

Lemma plain_aggregate_of_text (positions : list pos_dict)
  (category_name : string) (e : string * nat) :
  plain_aggregate (map of_text positions) category_name (lift_entry e)
  = lift (detail_of positions category_name e).
Proof.
  destruct e as [k n]. unfold plain_aggregate, lift, detail_of, lift_entry.
  simpl fst. simpl snd. rewrite matching_of_text.
  destruct (filter _ positions) as [|sample rest]; simpl; [reflexivity|].
  unfold value_at, len. simpl. rewrite !map_map, !length_map. simpl.
  reflexivity.
Qed.

Lemma counter_incr_of_text (k : string) (c : dict string nat) :
  counter_incr (Text k) (map lift_entry c)
  = map lift_entry (Summary.counter_incr k c).
Proof.
  induction c as [|[k' n] c IH]; simpl; [reflexivity|].
  destruct (String.eqb k k'); simpl; [reflexivity|]. now rewrite IH.
Qed.

Lemma Counter_of_text (positions : list pos_dict) :
  Counter (map of_text positions) = map lift_entry (Summary.Counter positions).
Proof.
  unfold Counter, Summary.Counter.
  change (@nil (label * nat)) with (map lift_entry []).
  generalize (@nil (string * nat)).
  induction positions as [|p ps IH]; intros c; simpl; [reflexivity|].
  rewrite counter_incr_of_text. apply IH.
Qed.

Lemma insert_desc_lift (e : string * nat) (l : list (string * nat)) :
  insert_desc (fun a b => Nat.ltb (snd a) (snd b)) (lift_entry e)
    (map lift_entry l)
  = map lift_entry (insert_desc (fun a b => Nat.ltb (snd a) (snd b)) e l).
Proof.
  induction l as [|y l IH]; simpl; [reflexivity|].
  destruct (Nat.ltb (snd e) (snd y)); simpl; [now rewrite IH | reflexivity].
Qed.

Lemma sort_desc_lift (c : list (string * nat)) :
  sort_desc (fun a b => Nat.ltb (snd a) (snd b)) (map lift_entry c)
  = map lift_entry (sort_desc (fun a b => Nat.ltb (snd a) (snd b)) c).
Proof.
  induction c as [|e c IH]; [reflexivity|].
  change (insert_desc (fun a b => Nat.ltb (snd a) (snd b)) (lift_entry e)
            (sort_desc (fun a b => Nat.ltb (snd a) (snd b)) (map lift_entry c))
          = map lift_entry
              (insert_desc (fun a b => Nat.ltb (snd a) (snd b)) e
                 (sort_desc (fun a b => Nat.ltb (snd a) (snd b)) c))).
  rewrite IH. apply insert_desc_lift.
Qed.

Lemma most_common_of_text (n : nat) (c : dict string nat) :
  most_common n (map lift_entry c) = map lift_entry (Summary.most_common n c).
Proof.
  unfold most_common, Summary.most_common.
  now rewrite sort_desc_lift, firstn_map.
Qed.

(** Where the aggregation stated for texts needs no entry that is not
    there, the two agree. *)
Lemma text_aggregation_agrees (positions : list pos_dict)
  (category_name : string) :
  uniform (map of_text positions) ->
  detailed (map of_text positions) category_name
  = Ok (map lift (Reports.detailed positions category_name)).
Proof.
  intros Hu. rewrite detailed_uniform by now left.
  unfold Reports.detailed, Summary.create_detailed_analysis.
  rewrite Counter_of_text, most_common_of_text, !map_map.
  f_equal. apply map_ext. intros e. apply plain_aggregate_of_text.
Qed.

End CellFacts.
